(** * catalysis.pynblast: NBLAST scoring, likelihood fusion and matching

    A shallow embedding of [catalysis/pynblast.py].  Python floats are
    IEEE-754 binary64 numbers, embedded as Rocq's primitive [float]; Python
    integers are [Z]; exceptions are the [Raise] results of a small error
    monad.  The library routines the module calls (numpy, scipy, pandas,
    networkx) are embedded by their documented behaviour, each next to
    its first use. *)

From Stdlib Require Import Floats ZArith Ascii String.
From stdpp Require Import base option list strings pretty sorting gmap.

Local Open Scope Z_scope.

(** ** Exceptions and the error monad *)

Inductive exn : Type :=
| ValueError
| IndexError
| KeyError
| TypeError
| AxisError
| AttributeError
| OverflowError.

Inductive result (A : Type) : Type :=
| Ok (a : A)
| Raise (e : exn).

Arguments Ok {A} a.
Arguments Raise {A} e.

#[global] Instance result_ret : MRet result := fun _ a => Ok a.
#[global] Instance result_bind : MBind result := fun _ _ k r =>
  match r with
  | Ok a => k a
  | Raise e => Raise e
  end.

Definition of_option {A : Type} (e : exn) (o : option A) : result A :=
  match o with
  | Some a => Ok a
  | None => Raise e
  end.

(** [for x in l: acc = body(acc, x)], stopping at the first exception. *)
Fixpoint rfold {A B : Type} (body : B -> A -> result B) (l : list A) (acc : B)
  : result B :=
  match l with
  | [] => Ok acc
  | x :: l' => acc' ← body acc x; rfold body l' acc'
  end.

(** [[f(x) for x in l]], stopping at the first exception. *)
Fixpoint rmap {A B : Type} (f : A -> result B) (l : list A) : result (list B) :=
  match l with
  | [] => Ok []
  | x :: l' => y ← f x; ys ← rmap f l'; Ok (y :: ys)
  end.

Definition is_ok {A : Type} (r : result A) : bool :=
  match r with
  | Ok _ => true
  | Raise _ => false
  end.

(** ** Python and numpy arithmetic on floats *)

Module Py.

Local Open Scope float_scope.

(** Builtin [max(a, b)]: the first argument unless the second is greater. *)
Definition max (a b : float) : float := if a <? b then b else a.

(** Builtin [min] over a sequence: the first element unless a later one is
    smaller; [ValueError] on an empty sequence. *)
Definition min (l : list float) : result float :=
  match l with
  | [] => Raise ValueError
  | x :: l' => Ok (foldl (fun m y => if y <? m then y else m) x l')
  end.

(** [bisect.bisect(a, x)] (bisect_right) on a sorted list: the number of
    leading elements [e] for which [x < e] fails. *)
Fixpoint bisect (a : list float) (x : float) : nat :=
  match a with
  | [] => O
  | e :: a' => if x <? e then O else S (bisect a' x)
  end.

(** Sum of a float sequence, left to right from [0]. *)
Definition fsum (l : list float) : float := foldl PrimFloat.add 0 l.

Definition two52 : float := 0x1p52.

(** [np.modf]: fractional and integral parts, both with the sign of the
    argument.  Below 2^52 the integral part is found by rounding
    [|x| + 2^52 - 2^52] and stepping back when that rounded up. *)
Definition trunc_abs (a : float) : float :=
  if a <? two52 then
    let t := (a + two52) - two52 in
    if a <? t then t - 1 else t
  else a.

Definition modf (x : float) : float * float :=
  if PrimFloat.is_nan x then (nan, nan)
  else
    let a := PrimFloat.abs x in
    let neg := PrimFloat.get_sign x in
    let ip := trunc_abs a in
    let fp := if PrimFloat.is_infinity x then 0 else a - ip in
    if neg then (- fp, - ip) else (fp, ip).

(** Builtin [int(x)] of a float: truncation toward zero. *)
Definition int (x : float) : result Z :=
  match Prim2SF x with
  | S754_zero _ => Ok 0%Z
  | S754_infinity _ => Raise OverflowError
  | S754_nan => Raise ValueError
  | S754_finite s m e =>
      let mag := match e with
                 | Z0 => Zpos m
                 | Zpos p => (Zpos m * 2 ^ Zpos p)%Z
                 | Zneg p => (Zpos m / 2 ^ Zpos p)%Z
                 end in
      Ok (if s then (- mag)%Z else mag)
  end.

(** A Python integer as a float (exact below 2^63). *)
Definition of_Z (n : Z) : float :=
  match n with
  | Z0 => 0
  | Zpos _ => PrimFloat.of_uint63 (Uint63.of_Z n)
  | Zneg p => - PrimFloat.of_uint63 (Uint63.of_Z (Zpos p))
  end.

End Py.

(** ** Points, dotprops and the numpy routines of the resampler *)

Abbreviation point := (float * float * float)%type.

Definition px (p : point) : float := p.1.1.
Definition py (p : point) : float := p.1.2.
Definition pz (p : point) : float := p.2.

(** One row of a dotprop: columns 0..2 are the position, 3..5 the local
    orientation. *)
Record dp_row : Type := DpRow { dp_xyz : point; dp_v : point }.

Abbreviation dotprop := (list dp_row).

(** [np.zeros((1,6)) * np.nan]. *)
Definition nan_dotprop : dotprop :=
  [ DpRow (nan, nan, nan) (nan, nan, nan) ].

Module Np.

Local Open Scope float_scope.

Definition sub3 (p q : point) : point := (px p - px q, py p - py q, pz p - pz q).

(** [np.diff(xyz, axis=0)]. *)
Fixpoint diff (xyz : list point) : list point :=
  match xyz with
  | p :: (q :: _) as rest => sub3 q p :: diff rest
  | _ => []
  end.

(** [np.einsum('ij,ij->i', a, b)] on one pair of rows. *)
Definition dot3 (u v : point) : float := px u * px v + py u * py v + pz u * pz v.

(** [np.linalg.norm(u)]. *)
Definition norm (u : point) : float := PrimFloat.sqrt (dot3 u u).

(** [np.cumsum]. *)
Fixpoint cumsum_from (acc : float) (l : list float) : list float :=
  match l with
  | [] => []
  | x :: l' => let acc' := acc + x in acc' :: cumsum_from acc' l'
  end.

Definition cumsum (l : list float) : list float :=
  match l with
  | [] => []
  | x :: l' => x :: cumsum_from x l'
  end.

(** [np.linspace(start, stop, num)], endpoint included. *)
Definition linspace (start stop : float) (num : Z) : result (list float) :=
  if (num <? 0)%Z then Raise ValueError
  else
    let n := Z.to_nat num in
    let div := Py.of_Z (if (1 <? num)%Z then num - 1 else 1)%Z in
    let delta := stop - start in
    let step := delta / div in
    let y := map (fun i => let k := Py.of_Z (Z.of_nat i) in
                           (if step =? 0 then (k / div) * delta else k * step)
                           + start) (seq 0 n) in
    Ok (if (1 <? num)%Z then take (n - 1) y ++ [stop] else y).

(** The interval search of [np.interp] on increasing sample points: the
    last index [j] with [xp[j] <= x]. *)
Fixpoint count_le (xp : list float) (x : float) : nat :=
  match xp with
  | [] => O
  | e :: xp' => if e <=? x then S (count_le xp' x) else O
  end.

(** [np.interp(x, xp, fp)] at one abscissa. *)
Definition interp1 (xp fp : list float) (x : float) : result float :=
  match xp, fp with
  | [], _ | _, [] => Raise ValueError
  | x0 :: _, f0 :: _ =>
      if negb (Nat.eqb (length xp) (length fp)) then Raise ValueError
      else
        let n := length xp in
        let xl := List.last xp x0 in
        let fl := List.last fp f0 in
        if Nat.eqb n 1 then Ok f0
        else if PrimFloat.is_nan x then Ok x
        else if xl <? x then Ok fl
        else if x <? x0 then Ok f0
        else
          let j := (count_le xp x - 1)%nat in
          let xj := nth j xp x0 in
          let fj := nth j fp f0 in
          if Nat.eqb j (n - 1) then Ok fj
          else if xj =? x then Ok fj
          else
            let xj1 := nth (S j) xp x0 in
            let fj1 := nth (S j) fp f0 in
            let slope := (fj1 - fj) / (xj1 - xj) in
            let r := slope * (x - xj) + fj in
            if PrimFloat.is_nan r then
              let r' := slope * (x - xj1) + fj1 in
              Ok (if PrimFloat.is_nan r' && (fj =? fj1) then fj else r')
            else Ok r
  end.

Definition interp (x xp fp : list float) : result (list float) :=
  rmap (interp1 xp fp) x.

End Np.

(** ** [interpolate_path] *)

Local Open Scope float_scope.

(** The number of resampled points: [nni] of the source, chosen from the two
    parts of [np.modf(cumlen[-1] / resample_distance)]. *)
Definition resample_nni (parts : float * float) : float :=
  if parts.2 <? 1 then 1
  else if (parts.1 <? 0.5) && (0 <? parts.2) then parts.2
  else parts.2 + 1.

(** [cumlen]: the cumulative arc length at each point of the path, and
    [cumlen[-1]], its total length. *)
Definition cumlen_of (xyz : list point) : list float :=
  let lens := map Np.norm (Np.diff xyz) in
  0 :: Np.cumsum lens.

Definition path_length (xyz : list point) : float :=
  List.last (cumlen_of xyz) 0.

Definition interpolate_path (xyz : list point) (resample_distance : float)
  : result (list point) :=
  let xs := map px xyz in
  let ys := map py xyz in
  let zs := map pz xyz in
  let cumlen := cumlen_of xyz in
  let total := path_length xyz in
  let parts := Py.modf (total / resample_distance) in
  let nni := resample_nni parts in
  num ← Py.int nni;
  li ← Np.linspace 0 total num;
  xi ← Np.interp li cumlen xs;
  yi ← Np.interp li cumlen ys;
  zi ← Np.interp li cumlen zs;
  Ok (zip (zip xi yi) zi).

(** ** Neurons and [neuron_to_dotprop] *)

(** What the module uses of a [NeuronObj]: its id and name, its minimal paths
    (ordered node ids), the Strahler number and the location of each node, and
    the soma location. *)
Record NeuronObj : Type := {
  nrn_id : Z;
  nrn_name : string;
  minimal_paths : list (list Z);
  strahler_number : gmap Z Z;
  nodeloc : gmap Z point;
  soma_location : point
}.

(** [np.max] of a list of integers; [ValueError] when it is empty. *)
Definition np_max_list (l : list Z) : result Z :=
  match l with
  | [] => Raise ValueError
  | x :: l' => Ok (foldl Z.max x l')
  end.

(** [[nid for nid in pth if sn[nid] >= min_strahler]]. *)
Fixpoint strahler_filter (sn : gmap Z Z) (min_strahler : Z) (pth : list Z)
  : result (list Z) :=
  match pth with
  | [] => Ok []
  | nid :: pth' =>
      s ← of_option KeyError (sn !! nid);
      rest ← strahler_filter sn min_strahler pth';
      Ok (if (min_strahler <=? s)%Z then nid :: rest else rest)
  end.

Section Dotprop.

(** The orientation estimate of [dotprop_path]: for the resampled points
    [xyzi], a neighbour count [query_nn] and a point [n] of [xyzi], the first
    right-singular vector ([np.linalg.svd]) of the mean-centred [query_nn]
    nearest neighbours of [n] ([KDTree.query]). *)
Variable local_direction : list point -> nat -> point -> point.

Definition dotprop_path (xyz : list point) (resample_distance : float)
    (num_nn : nat) : result dotprop :=
  xyzi ← interpolate_path xyz resample_distance;
  let query_nn := Nat.min (num_nn + 1) (length xyzi) in
  Ok (map (fun n => DpRow n (local_direction xyzi query_nn n)) xyzi).

(** The loop over the paths that builds [dp], skipping empty paths. *)
Fixpoint dotprop_paths (nrn : NeuronObj) (pths : list (list Z))
    (resample_distance : float) (num_nn : nat) : result (list dotprop) :=
  match pths with
  | [] => Ok []
  | pth :: pths' =>
      if (0 <? length pth)%nat then
        xyz ← rmap (fun nid => of_option KeyError (nodeloc nrn !! nid)) pth;
        d ← dotprop_path xyz resample_distance num_nn;
        ds ← dotprop_paths nrn pths' resample_distance num_nn;
        Ok (d :: ds)
      else dotprop_paths nrn pths' resample_distance num_nn
  end.

Definition stack_paths (nrn : NeuronObj) (pths : list (list Z))
    (resample_distance : float) (num_nn : nat) : result dotprop :=
  dp ← dotprop_paths nrn pths resample_distance num_nn;
  if (0 <? length dp)%nat then Ok (concat dp) else Ok nan_dotprop.

Definition neuron_to_dotprop (nrn : NeuronObj) (resample_distance : float)
    (num_nn : nat) (min_strahler : option Z) : result dotprop :=
  let pths := minimal_paths nrn in
  match min_strahler with
  | None => stack_paths nrn pths resample_distance num_nn
  | Some ms =>
      let sn := strahler_number nrn in
      mx ← np_max_list (map snd (map_to_list sn));
      if (mx <? ms)%Z then Ok nan_dotprop
      else
        let ms' := if (0 <? ms)%Z then ms else (mx + ms)%Z in
        pths' ← rmap (strahler_filter sn ms') pths;
        stack_paths nrn pths' resample_distance num_nn
  end.

End Dotprop.

(** ** The score table *)

Record ScoreMatrixLookup : Type := {
  mat : list (list float);
  d_range : list float;
  udotv_range : list float
}.

Definition score (sl : ScoreMatrixLookup) (d udotv : float) : result float :=
  let ind_d := Py.bisect (d_range sl) d in
  let ind_udotv := Py.bisect (udotv_range sl) udotv in
  of_option IndexError (row ← mat sl !! ind_d; row !! ind_udotv).

Definition nblast_dist_fun (d_and_udotv : list (float * float))
    (score_lookup : ScoreMatrixLookup) : result float :=
  rfold (fun S row => s ← score score_lookup row.1 row.2; Ok (S + s))
        d_and_udotv 0.

Definition nblast_dist_fun_local (d_and_udotv : list (float * float))
    (score_lookup : ScoreMatrixLookup) : result (list float) :=
  rmap (fun row => score score_lookup row.1 row.2) d_and_udotv.

Definition max_blast_score (L : nat) (score_lookup : ScoreMatrixLookup)
  : result float :=
  nblast_dist_fun (replicate L (0, 1)) score_lookup.

(** ** Nearest neighbours *)

Module KDTree.

Definition distance (p q : point) : float := Np.norm (Np.sub3 p q).

(** [KDTree(data).query(x, 1)]: distance to and index of the data point
    nearest to [x], found here by exhaustive search; infinite distance and
    index [len(data)] when no neighbour is found. *)
Definition query (data : list point) (x : point) : float * nat :=
  foldl (fun best ip => let d := distance x ip.2 in
                        if d <? best.1 then (d, ip.1) else best)
        (infinity, length data) (imap pair data).

(** The query on an array of points, one answer per point. *)
Definition query_all (data : list point) (xs : list point) : list (float * nat) :=
  map (query data) xs.

End KDTree.

(** ** NBLAST components and pair scores *)

(** A neuron argument is a [NeuronObj] or, under [as_dotprop], a dotprop
    array; using one as the other raises. *)
Inductive nrn_arg : Type :=
| Nrn (n : NeuronObj)
| Dp (d : dotprop).

Definition as_dp (a : nrn_arg) : result dotprop :=
  match a with
  | Dp d => Ok d
  | Nrn _ => Raise TypeError
  end.

Definition as_nrn (a : nrn_arg) : result NeuronObj :=
  match a with
  | Nrn n => Ok n
  | Dp _ => Raise AttributeError
  end.

(** The two branches of the proximity gate, on the result [ds] of the
    nearest-neighbour query. *)
Definition matched_udotv (source_dp target_dp : dotprop)
    (ds : list (float * nat)) : result (list (float * float)) :=
  rmap (fun sd : dp_row * (float * nat) =>
          t ← of_option IndexError (target_dp !! sd.2.2);
          Ok (sd.2.1, Np.dot3 (dp_v sd.1) (dp_v t)))
       (zip source_dp ds).

Definition ones_udotv (ds : list (float * nat)) : list (float * float) :=
  map (fun d => (d.1, 1)) ds.

Section NBLAST.

Variable local_direction : list point -> nat -> point -> point.

Definition neuron_comparison_nblast_components
    (source_nrn target_nrn : nrn_arg) (resample_distance : float)
    (num_nn : nat) (as_dotprop : bool) (max_proximity : option float)
  : result (list (float * float)) :=
  let max_proximity := default infinity max_proximity in
  source_dp ← (if as_dotprop then as_dp source_nrn
               else n ← as_nrn source_nrn;
                    neuron_to_dotprop local_direction n resample_distance num_nn None);
  target_dp ← (if as_dotprop then as_dp target_nrn
               else n ← as_nrn target_nrn;
                    neuron_to_dotprop local_direction n resample_distance num_nn None);
  let ds := KDTree.query_all (map dp_xyz target_dp) (map dp_xyz source_dp) in
  m ← Py.min (map fst ds);
  if max_proximity <? m then matched_udotv source_dp target_dp ds
  else Ok (ones_udotv ds).

Definition nblast_neuron_pair (nrn_q nrn_t : nrn_arg)
    (score_lookup : ScoreMatrixLookup) (resample_distance : float)
    (num_nn : nat) (bidirectional normalize : bool) : result float :=
  d_and_udotv ← neuron_comparison_nblast_components nrn_q nrn_t
                  resample_distance num_nn false None;
  S_a ← nblast_dist_fun d_and_udotv score_lookup;
  if bidirectional then
    d_and_udotv_b ← neuron_comparison_nblast_components nrn_t nrn_q
                      resample_distance num_nn false None;
    S_b ← nblast_dist_fun d_and_udotv score_lookup;
    ma ← max_blast_score (length d_and_udotv) score_lookup;
    let S_a := S_a / ma in
    mb ← max_blast_score (length d_and_udotv) score_lookup;
    let S_b := S_b / mb in
    let S_a := Py.max S_a 0 in
    let S_b := Py.max S_b 0 in
    Ok (PrimFloat.sqrt (S_a * S_b))
  else if normalize then
    m ← max_blast_score (length d_and_udotv) score_lookup;
    Ok (S_a / m)
  else Ok S_a.

(** The argument tuple of the batch worker. *)
Definition mp_input : Type :=
  dotprop * dotprop * ScoreMatrixLookup * float * nat * bool * option float.

Definition _nblast_neuron_pair_for_mp (input : mp_input) : result float :=
  let '(nrn_q_dotprop, nrn_t_dotprop, score_lookup, resample_distance,
        num_nn, normalize, max_proximity) := input in
  if (1 <? length nrn_q_dotprop)%nat && (1 <? length nrn_t_dotprop)%nat then
    d_and_udotv ← neuron_comparison_nblast_components
                    (Dp nrn_q_dotprop) (Dp nrn_t_dotprop)
                    resample_distance num_nn true max_proximity;
    S ← nblast_dist_fun d_and_udotv score_lookup;
    if normalize then
      m ← max_blast_score (length d_and_udotv) score_lookup;
      Ok (S / m)
    else Ok S
  else Ok 0.

End NBLAST.

(** ** Neuron labels *)

Definition name_number (nrn : NeuronObj) : string :=
  (nrn_name nrn +:+ " (" +:+ pretty (nrn_id nrn) +:+ ")")%string.

Definition is_digit (c : ascii) : bool :=
  let n := Ascii.nat_of_ascii c in (48 <=? n)%nat && (n <=? 57)%nat.

Definition digit_val (c : ascii) : Z := Z.of_nat (Ascii.nat_of_ascii c) - 48.

Definition parse_digits (acc : Z) (ds : list ascii) : Z :=
  foldl (fun acc c => (10 * acc + digit_val c)%Z) acc ds.

(** [int(ds)] of a string of decimal digits; [ValueError] on the empty one. *)
Definition int_of_digits (ds : list ascii) : result Z :=
  match ds with
  | [] => Raise ValueError
  | _ => Ok (parse_digits 0 ds)
  end.

Fixpoint span_digits (l : list ascii) : list ascii * list ascii :=
  match l with
  | c :: l' => if is_digit c then let r := span_digits l' in (c :: r.1, r.2)
               else ([], l)
  | [] => ([], [])
  end.

(** [name_number_to_id]: the label must end in a parenthesised run of digits
    (the regular expression of the source anchors the closing parenthesis at
    the end, or before one final newline); that run is the id.  Without a match the attribute access on
    [None] raises. *)
Definition name_number_to_id (name_num : string) : result Z :=
  let rv := reverse (String.list_ascii_of_string name_num) in
  let rv := match rv with
            | c :: rest => if Ascii.eqb c "010"%char then
                             match rest with
                             | ")"%char :: _ => rest
                             | _ => rv
                             end
                           else rv
            | [] => rv
            end in
  match rv with
  | ")"%char :: rest =>
      match span_digits rest with
      | (ds, "("%char :: _) => int_of_digits (reverse ds)
      | _ => Raise AttributeError
      end
  | _ => Raise AttributeError
  end.

(** ** Data frames *)

Module Df.

(** A long frame is a list of rows.  [merge left right on=keys] is pandas'
    default inner join: the rows of [left], in order, each paired with every
    row of [right] that has the same key. *)
Definition merge {A B K C : Type} `{EqDecision K}
    (key_l : A -> K) (key_r : B -> K) (join : A -> B -> C)
    (left : list A) (right : list B) : list C :=
  a ← left; b ← filter (fun b => key_r b = key_l a) right; [join a b].

(** A wide frame: row labels, column labels and one cell per pair. *)
Record frame : Type := Frame {
  index : list string;
  columns : list string;
  data : gmap (string * string) float
}.

Definition str_le (a b : string) : Prop := String.leb a b = true.

#[global] Instance str_le_dec : RelDecision str_le.
Proof. intros a b. unfold str_le. apply _. Defined.

(** The sorted labels without repetition that pandas gives a pivoted or
    aligned axis. *)
Definition labels (l : list string) : list string :=
  merge_sort str_le (remove_dups l).

Definition cells (idx cols : list string) (f : string -> string -> float)
  : gmap (string * string) float :=
  list_to_map (r ← idx; c ← cols; [((r, c), f r c)]).

(** [df.pivot(index=.., columns=.., values=..)] of a long frame given as
    (index label, column label, value) rows: [ValueError] on a repeated
    pair, NaN in a cell no row fills. *)
Definition pivot (rows : list (string * string * float)) : result frame :=
  let keys := map fst rows in
  if decide (NoDup keys) then
    let m : gmap (string * string) float := list_to_map rows in
    Ok (Frame (labels (map fst keys)) (labels (map snd keys))
              (cells (labels (map fst keys)) (labels (map snd keys))
                     (fun r c => default nan (m !! (r, c)))))
  else Raise ValueError.

(** [df[r, c]] by labels. *)
Definition loc (df : frame) (r c : string) : result float :=
  of_option KeyError (data df !! (r, c)).

(** [df[df < 0] = 0]. *)
Definition clip_negative (df : frame) : frame :=
  Frame (index df) (columns df) ((fun v => if v <? 0 then 0 else v) <$> data df).

(** [a.multiply(b)]: aligned on the union of the labels, NaN where either
    frame has no cell. *)
Definition multiply (a b : frame) : frame :=
  let idx := labels (index a ++ index b) in
  let cols := labels (columns a ++ columns b) in
  Frame idx cols
        (cells idx cols (fun r c =>
           match data a !! (r, c), data b !! (r, c) with
           | Some x, Some y => x * y
           | _, _ => nan
           end)).

(** [df.apply(np.sqrt)] and [df.fillna(0)]. *)
Definition apply (f : float -> float) (df : frame) : frame :=
  Frame (index df) (columns df) (f <$> data df).

Definition fillna (v : float) (df : frame) : frame :=
  apply (fun x => if PrimFloat.is_nan x then v else x) df.

End Df.

(** ** Batch NBLAST *)

(** A neuron collection is a list of [NeuronObj] or, under [as_dotprop], a
    dict from label to dotprop (kept in insertion order). *)
Inductive nrns_arg : Type :=
| NeuronList (l : list NeuronObj)
| DotpropDict (d : list (string * dotprop)).

Definition as_neuron_list (a : nrns_arg) : result (list NeuronObj) :=
  match a with
  | NeuronList l => Ok l
  | DotpropDict _ => Raise AttributeError
  end.

Definition as_dotprop_dict (a : nrns_arg) : result (list (string * dotprop)) :=
  match a with
  | DotpropDict d => Ok d
  | NeuronList _ => Raise TypeError
  end.

(** [d[k]] on a dict kept as an association list. *)
Definition dict_get {V : Type} (d : list (string * V)) (k : string) : result V :=
  of_option KeyError ((fun ikv => ikv.2.2) <$> list_find (fun kv => kv.1 = k) d).

(** [{nrn.id: dps[ii] for ii, nrn in enumerate(nrns)}]: a later neuron with
    the same id replaces an earlier one. *)
Definition dotprops_by_id (nrns : list NeuronObj) (dps : list dotprop)
  : gmap Z dotprop :=
  foldl (fun m nd => <[nrn_id nd.1 := nd.2]> m) ∅ (zip nrns dps).

Section Batch.

Variable local_direction : list point -> nat -> point -> point.

(** [cat.filter_neurons_by_length], from the package's top level. *)
Variable filter_neurons_by_length : nrns_arg -> float -> result nrns_arg.

(** The labelled dotprops of one side: [(name, dotprop)] in iteration
    order, as the pair loop of [nblast_neurons] reads them. *)
Definition side_dotprops (nrns : nrns_arg) (resample_distance : float)
    (num_nn : nat) (min_strahler : option Z) (as_dotprop : bool)
  : result (list (string * dotprop)) :=
  if as_dotprop then
    d ← as_dotprop_dict nrns;
    rmap (fun kv : string * dotprop => v ← dict_get d kv.1; Ok (kv.1, v)) d
  else
    l ← as_neuron_list nrns;
    dps ← rmap (fun nrn => neuron_to_dotprop local_direction nrn
                             resample_distance num_nn min_strahler) l;
    let by_id := dotprops_by_id l dps in
    rmap (fun nrn => v ← of_option KeyError (by_id !! nrn_id nrn);
                     Ok (name_number nrn, v)) l.

Definition nblast_neurons (score_lookup : ScoreMatrixLookup)
    (nrns_q : nrns_arg) (nrns_t : option nrns_arg)
    (resample_distance : float) (num_nn : nat) (min_strahler : option Z)
    (normalize : bool) (max_proximity : option float) (as_dotprop : bool)
  : result (list (string * string * float)) :=
  qs ← side_dotprops nrns_q resample_distance num_nn min_strahler as_dotprop;
  ts ← match nrns_t with
       | None => Ok qs
       | Some nrns_t =>
           side_dotprops nrns_t resample_distance num_nn min_strahler as_dotprop
       end;
  let args := q ← qs; t ← ts;
              [(q.1, t.1, (q.2, t.2, score_lookup, resample_distance, num_nn,
                           normalize, max_proximity))] in
  similarities ← rmap (fun a => _nblast_neuron_pair_for_mp local_direction a.2)
                      args;
  Ok (zip_with (fun a S => (a.1.1, a.1.2, S)) args similarities).

Definition swap_keys (row : string * string * float) : string * string * float :=
  (row.1.2, row.1.1, row.2).

Definition exact_nblast (score_lookup : ScoreMatrixLookup)
    (nrns_q nrns_t : nrns_arg) (resample_distance : float) (num_nn : nat)
    (max_proximity : option float) (min_strahler : option Z)
    (min_length : option float) (as_dotprop : bool) : result Df.frame :=
  nrns_q ← match min_length with
           | Some len => filter_neurons_by_length nrns_q len
           | None => Ok nrns_q
           end;
  nrns_t ← match min_length with
           | Some len => filter_neurons_by_length nrns_t len
           | None => Ok nrns_t
           end;
  Sqt_long ← nblast_neurons score_lookup nrns_q (Some nrns_t)
               resample_distance num_nn min_strahler true None as_dotprop;
  Sqt ← Df.pivot Sqt_long;
  Stq_long ← nblast_neurons score_lookup nrns_t (Some nrns_q)
               resample_distance num_nn min_strahler true None as_dotprop;
  Stq ← Df.pivot (map swap_keys Stq_long);
  let Stq := Df.clip_negative Stq in
  let Sqt := Df.clip_negative Sqt in
  Ok (Df.fillna 0 (Df.apply PrimFloat.sqrt (Df.multiply Sqt Stq))).

End Batch.

(** ** The similarity graph and the matcher *)

(** What the module uses of a networkx [Graph]: each node's [bipartite]
    attribute, and the edge weights, stored under both orders of the two end
    points as the adjacency of an undirected graph is. *)
Record Graph : Type := {
  nodes : gmap string Z;
  adj : gmap (string * string) float
}.

Definition empty_graph : Graph := {| nodes := ∅; adj := ∅ |}.

(** [B.add_nodes_from(l, bipartite=b)]: a node already there has its
    attribute replaced. *)
Definition add_nodes_from (l : list string) (b : Z) (B : Graph) : Graph :=
  {| nodes := foldl (fun m n => <[n := b]> m) (nodes B) l; adj := adj B |}.

(** [B.add_edge(u, v, weight=w)] between two nodes of [B]. *)
Definition add_edge (u v : string) (w : float) (B : Graph) : Graph :=
  {| nodes := nodes B; adj := <[(v, u) := w]> (<[(u, v) := w]> (adj B)) |}.

(** [nx.isolates(B)]: the nodes with no incident edge. *)
Definition has_edge (B : Graph) (n : string) : bool :=
  bool_decide (Exists (fun e : string * string * float => e.1.1 = n)
                      (map_to_list (adj B))).

Definition remove_isolates (B : Graph) : Graph :=
  {| nodes := filter (fun nd => has_edge B nd.1 = true) (nodes B); adj := adj B |}.

(** The body of the double loop over the row and column labels: one cell
    read, and an edge added when it exceeds the threshold. *)
Definition edge_step (Sb : Df.frame) (min_similarity : float) (B : Graph)
    (e : string * string) : result Graph :=
  w ← Df.loc Sb e.1 e.2;
  Ok (if min_similarity <? w then add_edge e.1 e.2 w B else B).

Definition label_pairs (Sb : Df.frame) : list (string * string) :=
  node1 ← Df.index Sb; node2 ← Df.columns Sb; [(node1, node2)].

Definition labelled_nodes (Sb : Df.frame) : Graph :=
  add_nodes_from (Df.columns Sb) 1 (add_nodes_from (Df.index Sb) 0 empty_graph).

Definition similarity_matrix_to_adjacency (Sb : Df.frame) (min_similarity : float)
  : result Graph :=
  B ← rfold (edge_step Sb min_similarity) (label_pairs Sb) (labelled_nodes Sb);
  Ok (remove_isolates B).

(** A frame as pandas holds it: one cell for every row label and column
    label, and no other. *)
Definition dense (df : Df.frame) : Prop :=
  forall r c, is_Some (Df.data df !! (r, c))
              <-> r ∈ Df.index df /\ c ∈ Df.columns df.

(** No label names both a row and a column. *)
Definition bipartite_labels (Sb : Df.frame) : Prop :=
  forall n, n ∈ Df.index Sb -> n ∉ Df.columns Sb.

(** The forced pairs of a call, none when [enforce_match] is [None]. *)
Definition forced_pairs (enforce_match : option (list (string * string)))
  : list (string * string) := default [] enforce_match.

(** [Qset]: the nodes whose [bipartite] attribute is 0. *)
Definition Qset_of (B : Graph) : list string :=
  (map_to_list (filter (fun nd => nd.2 = 0%Z) (nodes B))).*1.

(** The cell of row [u] and column [v] exists and exceeds the threshold. *)
Definition from_cell (Sb : Df.frame) (thr : float) (u v : string) : Prop :=
  exists w, Df.data Sb !! (u, v) = Some w /\ (thr <? w) = true
            /\ u ∈ Df.index Sb /\ v ∈ Df.columns Sb.

(** One row of the match table. *)
Record match_row : Type := MatchRow {
  S : float;
  Query_name : string;
  Query_id : Z;
  Target_name : string;
  Target_id : Z
}.

(** [tempSb[force_match[1]][force_match[0]] = enforce_match_val]: the
    column must exist; a row label the frame does not have changes
    nothing in it. *)
Definition force_cell (val : float) (tempSb : Df.frame)
    (force_match : string * string) : result Df.frame :=
  if decide (force_match.2 ∈ Df.columns tempSb) then
    if decide (force_match.1 ∈ Df.index tempSb) then
      Ok (Df.Frame (Df.index tempSb) (Df.columns tempSb)
                   (<[(force_match.1, force_match.2) := val]> (Df.data tempSb)))
    else Ok tempSb
  else Raise KeyError.

Definition enforce (Sb : Df.frame) (enforce_match : option (list (string * string)))
    (enforce_match_val : float) : result Df.frame :=
  match enforce_match with
  | None => Ok Sb
  | Some l => rfold (force_cell enforce_match_val) l Sb
  end.

(** [sort_values(by='S', ascending=False)]: decreasing scores, NaN last. *)
Definition S_ge (a b : match_row) : Prop := Is_true (S b <=? S a).

Definition sort_by_S (rows : list match_row) : list match_row :=
  merge_sort S_ge (filter (fun r => PrimFloat.is_nan (S r) = false) rows)
  ++ filter (fun r => PrimFloat.is_nan (S r) = true) rows.

(** The row the loop of [max_match_similarity] appends for one matched pair. *)
Definition row_of_match (Sb : Df.frame) (Qset : list string)
    (m : string * string) : result match_row :=
  if decide (m.1 ∈ Qset) then
    v ← Df.loc Sb m.1 m.2;
    q ← name_number_to_id m.1;
    t ← name_number_to_id m.2;
    Ok (MatchRow v m.1 q m.2 t)
  else
    v ← Df.loc Sb m.2 m.1;
    q ← name_number_to_id m.2;
    t ← name_number_to_id m.1;
    Ok (MatchRow v m.2 q m.1 t).

Section Matcher.

(** [nx.algorithms.matching.max_weight_matching]: a set of 2-tuples of nodes,
    each in either order. *)
Variable max_weight_matching : Graph -> list (string * string).

Definition max_match_similarity (Sb : Df.frame) (min_similarity : float)
    (enforce_match : option (list (string * string))) (enforce_match_val : float)
  : result (list match_row) :=
  tempSb ← enforce Sb enforce_match enforce_match_val;
  B ← similarity_matrix_to_adjacency tempSb min_similarity;
  let Qset := Qset_of B in
  let matching := max_weight_matching B in
  rows ← rmap (row_of_match Sb Qset) matching;
  Ok (sort_by_S rows).

End Matcher.

(** What networkx promises of [max_weight_matching(B)]: the tuples are edges
    of [B] between two different nodes, and no node is in two of them. *)
Definition is_matching_of (B : Graph) (M : list (string * string)) : Prop :=
  (forall u v, (u, v) ∈ M -> u ≠ v /\ is_Some (adj B !! (u, v))) /\
  NoDup (m ← M; [m.1; m.2]).

Module Exhaustive.

(** A matcher that meets the promise by exhaustive search: every edge once,
    self-loops left out, and of all the sets of pairwise disjoint edges the
    first of greatest total weight. *)
Definition edges (B : Graph) : list (string * string * float) :=
  filter (fun e => String.ltb e.1.1 e.1.2 = true) (map_to_list (adj B)).

Definition touches (e : string * string * float)
    (m : list (string * string * float)) : bool :=
  bool_decide (Exists (fun f : string * string * float =>
                         f.1.1 = e.1.1 \/ f.1.2 = e.1.1 \/
                         f.1.1 = e.1.2 \/ f.1.2 = e.1.2) m).

Fixpoint matchings (es : list (string * string * float))
  : list (list (string * string * float)) :=
  match es with
  | [] => [[]]
  | e :: es' =>
      let ms := matchings es' in
      ms ++ map (cons e) (filter (fun m => touches e m = false) ms)
  end.

Definition weight (m : list (string * string * float)) : float :=
  Py.fsum (map snd m).

Definition heaviest (ms : list (list (string * string * float)))
  : list (string * string * float) :=
  foldl (fun best m => if weight best <? weight m then m else best) [] ms.

Definition max_weight_matching (B : Graph) : list (string * string) :=
  map fst (heaviest (matchings (edges B))).

End Exhaustive.

(** ** Connectivity likelihood *)

(** [np.shape(a)] of a two-dimensional table kept as a list of rows; an empty
    list has no second dimension. *)
Definition shape0 (a : list (list float)) : Z := Z.of_nat (length a).

Definition shape1 (a : list (list float)) : result Z :=
  match a with
  | [] => Raise IndexError
  | row :: _ => Ok (Z.of_nat (length row))
  end.

(** [np.max(a, axis)] of a scalar [a]: the second positional argument of
    [np.max] is the axis, and a zero-dimensional array has only the axes
    [0] and [-1]. *)
Definition np_max_scalar (a axis : Z) : result Z :=
  if (axis =? 0)%Z || (axis =? -1)%Z then Ok a else Raise AxisError.

(** One integer index into an axis of length [n]: negative indices count
    from the end. *)
Definition np_index (n i : Z) : result nat :=
  if (0 <=? i)%Z && (i <? n)%Z then Ok (Z.to_nat i)
  else if (- n <=? i)%Z && (i <? 0)%Z then Ok (Z.to_nat (i + n))
  else Raise IndexError.

(** [a[i, j]]. *)
Definition np_getitem2 (a : list (list float)) (i j : Z) : result float :=
  n1 ← shape1 a;
  i' ← np_index (shape0 a) i;
  j' ← np_index n1 j;
  of_option IndexError (row ← a !! i'; row !! j').

(** The scalar function under [np.vectorize]; [log_ratio] is
    [conn_stats['log_ratio']]. *)
Definition match_prob_conn_log_ratio (w1 w2 : Z) (log_ratio : list (list float))
  : result float :=
  n1 ← shape1 log_ratio;
  let n0 := shape0 log_ratio in
  w ← (if (n0 - 1 <? w1)%Z || (n1 - 1 <? w2)%Z then
         let shift1 := (w1 - n0 - 1)%Z in
         let shift2 := (w2 - n1 - 1)%Z in
         m1 ← np_max_scalar shift1 shift2;
         m2 ← np_max_scalar shift1 shift2;
         Ok ((w1 - m1)%Z, (w2 - m2)%Z)
       else Ok (w1, w2));
  if (0 <? w.1)%Z || (0 <? w.2)%Z then np_getitem2 log_ratio w.1 w.2
  else Ok 0.

(** The vectorised call on two weight vectors, summed with [np.sum]. *)
Definition conn_log_ratio_sum (v1 v2 : list Z) (log_ratio : list (list float))
  : result float :=
  if negb (Nat.eqb (length v1) (length v2)) then Raise ValueError
  else if Nat.eqb (length v1) 0 then Raise ValueError
  else
    rs ← rmap (fun w : Z * Z => match_prob_conn_log_ratio w.1 w.2 log_ratio)
              (zip v1 v2);
    Ok (Py.fsum rs).

(** ** Morphology likelihood *)

Record morpho_stats_t : Type := {
  shape : list float;
  dist_match : list float;
  dist_nonmatch : list float;
  exp_cutoff : list float
}.

Section Morphology.

(** [sp.stats.gamma.pdf(x, *param)], [np.exp] and [np.log2]. *)
Variable gamma_pdf : float -> list float -> float.
Variable np_exp : float -> float.
Variable np_log2 : float -> float.

Definition _logistic_ratio (x : float) (shape_param : list float) : result float :=
  s0 ← of_option IndexError (shape_param !! 0%nat);
  s1 ← of_option IndexError (shape_param !! 1%nat);
  s2 ← of_option IndexError (shape_param !! 2%nat);
  let val := s0 / (1 + np_exp (-1 * s1 * (x - s2))) in
  Ok (np_log2 val - np_log2 (1 - val)).

Definition _gamma_ratio (xs : float) (match_param nonmatch_param exp_param : list float)
  : result float :=
  let num := gamma_pdf xs match_param in
  let denom := gamma_pdf xs nonmatch_param in
  e0 ← of_option IndexError (exp_param !! 0%nat);
  e1 ← of_option IndexError (exp_param !! 1%nat);
  let val := num / (num + denom) * (1 - e0 * np_exp (- xs / e1)) in
  Ok (np_log2 val - np_log2 (1 - val)).

(** [dprob[np.isnan(dprob)] = 1.0] on one entry. *)
Definition nan_to_one (dprob : float) : float :=
  if PrimFloat.is_nan dprob then 1 else dprob.

(** [S] and [d] are two columns of one frame, so they have the same rows. *)
Definition match_prob_morpho_log_ratio (S d : list float)
    (morpho_stats : morpho_stats_t) : result (list float) :=
  Sprob ← rmap (fun x => _logistic_ratio x (shape morpho_stats)) S;
  dprob ← rmap (fun x => _gamma_ratio x (dist_match morpho_stats)
                           (dist_nonmatch morpho_stats)
                           (exp_cutoff morpho_stats)) d;
  let dprob := map nan_to_one dprob in
  Ok (zip_with PrimFloat.add Sprob dprob).

End Morphology.

(** ** Fusion of the evidence *)

(** Rows of the long frames that [match_likelihood_ratio] joins. *)
Record dist_row : Type := DistRow {
  ds_Queries : string; ds_Targets : string; ds_soma_distance : float
}.

Record conn_row : Type := ConnRow {
  pc_Queries : string; pc_Targets : string; pc_pre_prob : float; pc_post_prob : float
}.

(** A row of the fused frame [Stot]. *)
Record fused_row : Type := FusedRow {
  Queries : string;
  Targets : string;
  Sqt : float;
  Stq : float;
  Sbid : float;
  soma_distance_col : float;
  pre_prob : float;
  post_prob : float;
  P_morph_log_ratio : float;
  logP : float
}.

Definition soma_distance (nrns_q : list NeuronObj) (nrns_t : option (list NeuronObj))
  : list dist_row :=
  let nrns_t := default nrns_q nrns_t in
  nrn_q ← nrns_q; nrn_t ← nrns_t;
  [DistRow (name_number nrn_q) (name_number nrn_t)
           (Np.norm (Np.sub3 (soma_location nrn_q) (soma_location nrn_t)))].

(** [S[S < 0] = 0] on the score column of a long frame. *)
Definition clip_S (rows : list (string * string * float))
  : list (string * string * float) :=
  map (fun r => (r.1, if r.2 <? 0 then 0 else r.2)) rows.

(** [nrns[id]] of a neuron list. *)
Definition neuron_by_id (nrns : list NeuronObj) (id : Z) : result NeuronObj :=
  of_option KeyError (snd <$> list_find (fun n => nrn_id n = id) nrns).

Section Fusion.

Variable local_direction : list point -> nat -> point -> point.
Variable filter_neurons_by_length : nrns_arg -> float -> result nrns_arg.
Variable gamma_pdf : float -> list float -> float.
Variable np_exp : float -> float.
Variable np_log2 : float -> float.

(** The pair map of the reference cell types. *)
Variable pair_map_t : Type.

(** [paired_connectivity_vector(nrns, pair_map, is_mirrored, normalize_weights)]:
    the input and output weight vectors of every neuron, by id, built from
    the connectivity that the [CatmaidInterface] of [nrns] reports. *)
Variable paired_connectivity_vector :
  list NeuronObj -> pair_map_t -> bool -> bool ->
  result (gmap Z (list Z) * gmap Z (list Z)).

Definition paired_connectivity_prob (nrns_q nrns_t : list NeuronObj)
    (pair_map : pair_map_t) (log_ratio : list (list float)) (is_mirrored : bool)
  : result (list conn_row) :=
  pv_q ← paired_connectivity_vector nrns_q pair_map false false;
  pv_t ← paired_connectivity_vector nrns_t pair_map is_mirrored false;
  rmap (fun qt : Z * Z =>
          nq ← neuron_by_id nrns_q qt.1;
          nt ← neuron_by_id nrns_t qt.2;
          q_in ← of_option KeyError (pv_q.1 !! qt.1);
          t_in ← of_option KeyError (pv_t.1 !! qt.2);
          pre ← conn_log_ratio_sum q_in t_in log_ratio;
          q_out ← of_option KeyError (pv_q.2 !! qt.1);
          t_out ← of_option KeyError (pv_t.2 !! qt.2);
          post ← conn_log_ratio_sum q_out t_out log_ratio;
          Ok (ConnRow (name_number nq) (name_number nt) pre post))
       (qid ← map nrn_id nrns_q; tid ← map nrn_id nrns_t; [(qid, tid)]).

(** The three merges, each pandas' default inner join on
    [['Queries','Targets']], and the two derived columns. *)
Definition merge_directions (Sqt_rows Stq_rows : list (string * string * float))
  : list (string * string * float * float * float) :=
  Df.merge (fun a : string * string * float => a.1)
           (fun b : string * string * float => (b.1.2, b.1.1))
           (fun a b => (a.1.1, a.1.2, a.2, b.2,
                        let p := PrimFloat.sqrt (a.2 * b.2) in
                        if PrimFloat.is_nan p then 0 else p))
           Sqt_rows Stq_rows.

Definition merge_soma (Stot : list (string * string * float * float * float))
    (Ds : list dist_row)
  : list (string * string * float * float * float * float) :=
  Df.merge (fun a : string * string * float * float * float =>
              (a.1.1.1.1, a.1.1.1.2))
           (fun d => (ds_Queries d, ds_Targets d))
           (fun a d => (a, ds_soma_distance d)) Stot Ds.

Definition merge_conn (Stot : list (string * string * float * float * float * float))
    (P_con : list conn_row)
  : list (string * string * float * float * float * float * float * float) :=
  Df.merge (fun a : string * string * float * float * float * float =>
              (a.1.1.1.1.1, a.1.1.1.1.2))
           (fun c => (pc_Queries c, pc_Targets c))
           (fun a c => (a, pc_pre_prob c, pc_post_prob c)) Stot P_con.

Definition fuse (Sqt_rows Stq_rows : list (string * string * float))
    (Ds : list dist_row) (P_con : list conn_row) (morpho_stats : morpho_stats_t)
  : result (list fused_row) :=
  let Stot := merge_conn (merge_soma (merge_directions Sqt_rows Stq_rows) Ds) P_con in
  P_morph ← match_prob_morpho_log_ratio gamma_pdf np_exp np_log2
              (map (fun r => r.1.1.1.2) Stot) (map (fun r => r.1.1.2) Stot)
              morpho_stats;
  Ok (zip_with (fun r pm =>
                  let '(q, t, sqt, stq, sbid, sd, pre, post) := r in
                  FusedRow q t sqt stq sbid sd pre post pm (pm + post + pre))
               Stot P_morph).

Definition match_likelihood_ratio (nrns_q nrns_t : nrns_arg) (pair_map : pair_map_t)
    (log_ratio : list (list float)) (morpho_stats : morpho_stats_t)
    (nblast_score_mat : ScoreMatrixLookup) (min_length : option float)
    (resample_distance : float) (is_mirrored : bool) : result (list fused_row) :=
  nrns_q ← match min_length with
           | Some len => filter_neurons_by_length nrns_q len
           | None => Ok nrns_q
           end;
  nrns_t ← match min_length with
           | Some len => filter_neurons_by_length nrns_t len
           | None => Ok nrns_t
           end;
  lq ← as_neuron_list nrns_q;
  lt ← as_neuron_list nrns_t;
  let Ds := soma_distance lq (Some lt) in
  Sqt_rows ← nblast_neurons local_direction nblast_score_mat nrns_q (Some nrns_t)
               resample_distance 5 None true None false;
  Stq_rows ← nblast_neurons local_direction nblast_score_mat nrns_t (Some nrns_q)
               resample_distance 5 None true None false;
  let Sqt_rows := clip_S Sqt_rows in
  let Stq_rows := clip_S Stq_rows in
  P_con ← paired_connectivity_prob lq lt pair_map log_ratio is_mirrored;
  fuse Sqt_rows Stq_rows Ds P_con morpho_stats.

End Fusion.

(** ** Point scores *)

(** [np.hstack] of an n x 3 array and an m x 1 column: [ValueError] unless
    the two have as many rows. *)
Definition hstack_column (xyz : list point) (col : list float)
  : result (list (point * float)) :=
  if decide (length xyz = length col) then Ok (zip xyz col)
  else Raise ValueError.

Section PointCloud.

Variable local_direction : list point -> nat -> point -> point.

Definition point_cloud_nblast (nrn_q_dotprop nrn_t_dotprop : dotprop)
    (score_lookup : ScoreMatrixLookup) (max_proximity : option float)
  : result (list (point * float)) :=
  d_and_udotv ← neuron_comparison_nblast_components local_direction
                  (Dp nrn_q_dotprop) (Dp nrn_t_dotprop) 1000 5 true
                  max_proximity;
  S_b ← nblast_dist_fun_local d_and_udotv score_lookup;
  hstack_column (map dp_xyz nrn_q_dotprop) S_b.

End PointCloud.

(** ** Building the score table from its labels *)

(** [s[1:-1]] of a sequence. *)
Definition slice_inner {A : Type} (l : list A) : list A :=
  drop 1 (take (length l - 1) l).

(** [s.split(',')]: the pieces between the commas, at least one. *)
Fixpoint split_commas (s : list ascii) : list (list ascii) :=
  match s with
  | [] => [[]]
  | c :: s' =>
      if Ascii.eqb c ","%char then [] :: split_commas s'
      else match split_commas s' with
           | w :: ws => (c :: w) :: ws
           | [] => [[c]]
           end
  end.

Section ScoreTable.

(** Builtin [float(s)] of a string: the number it spells, [ValueError]
    when it spells none. *)
Variable py_float : string -> result float.

(** The lower bound of one bin label such as [(0.75,1.5]]. *)
Definition range_low (row : string) : result float :=
  val_array ← rmap (fun num => py_float (String.string_of_list_ascii num))
                   (split_commas (slice_inner (String.list_ascii_of_string row)));
  of_option IndexError (val_array !! 0%nat).

Definition process_range_values (range_list : list string)
  : result (list float) :=
  val_range ← rmap range_low range_list;
  let val_range := val_range ++ [infinity] in
  Ok (slice_inner val_range).

(** [ScoreMatrixLookup(mat, d_range, udotv_range)]. *)
Definition new_ScoreMatrixLookup (m : list (list float))
    (d_labels udotv_labels : list string) : result ScoreMatrixLookup :=
  d ← process_range_values d_labels;
  u ← process_range_values udotv_labels;
  Ok {| mat := m; d_range := d; udotv_range := u |}.

(** [df.values]: the cells row by row. *)
Definition values (df : Df.frame) : list (list float) :=
  map (fun r => map (fun c => default nan (Df.data df !! (r, c)))
                    (Df.columns df))
      (Df.index df).

Definition from_dataframe (df : Df.frame) : result ScoreMatrixLookup :=
  new_ScoreMatrixLookup (values df) (Df.index df) (Df.columns df).

End ScoreTable.

(** ** The match report *)

(** [Sb.T[key]]: the row of [Sb] labelled [key] as a series over the column
    labels. *)
Definition row_series (Sb : Df.frame) (key : string)
  : result (list (string * float)) :=
  if decide (key ∈ Df.index Sb) then
    Ok (map (fun c => (c, default nan (Df.data Sb !! (key, c)))) (Df.columns Sb))
  else Raise KeyError.

(** [series.sort_values(ascending=False)]: decreasing values, NaN last. *)
Definition val_ge (a b : string * float) : Prop := Is_true (b.2 <=? a.2).

Definition sort_values_desc (s : list (string * float)) : list (string * float) :=
  merge_sort val_ge (filter (fun e => PrimFloat.is_nan e.2 = false) s)
  ++ filter (fun e => PrimFloat.is_nan e.2 = true) s.

(** An entry of the report: the table of good matches, or a message. *)
Inductive report : Type :=
| NoMatches (msg : string)
| BestMatches (tbl : list (string * float)).

Definition report_step (Sb : Df.frame) (min_similarity : float)
    (matches : gmap Z report) (nrn : NeuronObj) : result (gmap Z report) :=
  let nrn_key := name_number nrn in
  col ← row_series Sb nrn_key;
  let ordered_matches := sort_values_desc col in
  let best_matches :=
    filter (fun e => (min_similarity <? e.2) = true) ordered_matches in
  if decide (length best_matches = 0%nat) then
    Ok (<[nrn_id nrn :=
            NoMatches ("No sufficiently good matches for " +:+ nrn_key)]> matches)
  else Ok (<[nrn_id nrn := BestMatches best_matches]> matches).

Definition match_report (nrns_q : list NeuronObj) (Sb : Df.frame)
    (min_similarity : float) : result (gmap Z report) :=
  rfold (report_step Sb min_similarity) nrns_q ∅.

(** ** Connectivity vectors *)

(** The body of [paired_connectivity_vector] after its one query to the
    connectivity source.  It reads the pair map, with the position of every
    paired skeleton and the mirroring permutation, and for every neuron the
    synapse counts with its partners, as [get_connected_skeletons] reports
    them. *)
Record pair_map_dict : Type := {
  skid_to_ind : gmap Z Z;
  mirror_inds : list Z
}.

Record connected_skeletons : Type := {
  presynaptic : gmap Z (gmap Z Z);
  postsynaptic : gmap Z (gmap Z Z)
}.

(** [vec[i] = w] and [vec[inds]] on a one-dimensional array. *)
Definition np_setitem (vec : list Z) (i w : Z) : result (list Z) :=
  i' ← np_index (Z.of_nat (length vec)) i;
  Ok (<[i' := w]> vec).

Definition np_take (vec : list Z) (inds : list Z) : result (list Z) :=
  rmap (fun i => i' ← np_index (Z.of_nat (length vec)) i;
                 of_option IndexError (vec !! i')) inds.

(** The body of the loop over the paired partners of one neuron:
    [vec[pair_map['skid_to_ind'][pid]] = partners[pid]]. *)
Definition fill_partner (pair_map : pair_map_dict) (partners : gmap Z Z)
    (vec : list Z) (pid : Z) : result (list Z) :=
  ind ← of_option KeyError (skid_to_ind pair_map !! pid);
  w ← of_option KeyError (partners !! pid);
  np_setitem vec ind w.

Section ConnectivityVector.

(** The order in which Python iterates over the set made of a list without
    repetitions. *)
Variable set_order : list Z -> list Z.

(** The vector of one neuron, for [normalize_weights=False] (the counts are
    whole numbers, kept here as integers): a zero for every paired skeleton,
    then the count of every partner that is paired written at its position,
    then the optional mirroring. *)
Definition partner_vector (pair_map : pair_map_dict) (partners : gmap Z Z)
    (is_mirrored : bool) : result (list Z) :=
  let pair_ids := (map_to_list (skid_to_ind pair_map)).*1 in
  let vec := replicate (length pair_ids) 0%Z in
  let rel_partner_ids :=
    set_order (filter (fun pid => is_Some (partners !! pid)) pair_ids) in
  vec ← rfold (fill_partner pair_map partners) rel_partner_ids vec;
  if is_mirrored then np_take vec (mirror_inds pair_map) else Ok vec.

(** The vectors of all neurons of one direction, by skeleton id. *)
Definition partner_vectors (pair_map : pair_map_dict)
    (conn : gmap Z (gmap Z Z)) (is_mirrored : bool) : result (gmap Z (list Z)) :=
  rfold (fun vecs sp =>
           v ← partner_vector pair_map sp.2 is_mirrored;
           Ok (<[sp.1 := v]> vecs))
        (map_to_list conn) ∅.

Definition connectivity_vectors (conn_sk : connected_skeletons)
    (pair_map : pair_map_dict) (is_mirrored : bool)
  : result (gmap Z (list Z) * gmap Z (list Z)) :=
  conn_vecs_in ← partner_vectors pair_map (presynaptic conn_sk) is_mirrored;
  conn_vecs_out ← partner_vectors pair_map (postsynaptic conn_sk) is_mirrored;
  Ok (conn_vecs_in, conn_vecs_out).

End ConnectivityVector.

(** ** Example data *)

Module Examples.

(** A two-bin score table: [1] for a distance below 1000, [-1] from there on;
    one alignment bin. *)
Definition table : ScoreMatrixLookup :=
  {| mat := [[1]; [-1]]; d_range := [1000]; udotv_range := [] |}.

(** A neuron that is one straight path from the origin to [(len, 0, 0)]. *)
Definition straight (id : Z) (name : string) (len : float) : NeuronObj :=
  {| nrn_id := id;
     nrn_name := name;
     minimal_paths := [[1; 2]%Z];
     strahler_number := {[ 1%Z := 1%Z; 2%Z := 1%Z ]};
     nodeloc := {[ 1%Z := (0, 0, 0); 2%Z := (len, 0, 0) ]};
     soma_location := (0, 0, 0) |}.

Definition short_nrn : NeuronObj := straight 1 "A" 1000.
Definition long_nrn : NeuronObj := straight 2 "B" 5000.

Definition src_dp2 : dotprop := [ DpRow (0, 0, 0) (1, 0, 0); DpRow (0, 5, 0) (1, 0, 0) ].
Definition tgt_dp2 : dotprop := [ DpRow (10, 0, 0) (-1, 0, 0); DpRow (10, 5, 0) (0, 1, 0) ].

(** A score table with two alignment bins: [-1] for an alignment below one
    half, [1] from there on. *)
Definition table2 : ScoreMatrixLookup :=
  {| mat := [[-1; 1]]; d_range := []; udotv_range := [0.5] |}.

(** The default of [min_similarity], 0.4 as a binary64 number. *)
Definition min_similarity_default : float := 0x1.999999999999ap-2.

(** A two-by-two similarity matrix whose diagonal is weak and whose
    anti-diagonal is strong. *)
Definition Sb2 : Df.frame :=
  Df.Frame ["q1 (1)"; "q2 (2)"] ["t1 (3)"; "t2 (4)"]
    (list_to_map [ (("q1 (1)", "t1 (3)"), 0.125); (("q1 (1)", "t2 (4)"), 0.875);
                   (("q2 (2)", "t1 (3)"), 0.875); (("q2 (2)", "t2 (4)"), 0.125) ]).




(** Morphology parameters: a logistic curve with ceiling 1, slope 1 and
    midpoint 0; match distances gamma with shape 2, non-match distances gamma
    with shape 1 (both at location 0 with scale 1); an exponential cut-off of
    weight one half and length 1000. *)
Definition stats : morpho_stats_t :=
  {| shape := [1; 1; 0];
     dist_match := [2; 0; 1];
     dist_nonmatch := [1; 0; 1];
     exp_cutoff := [0.5; 1000] |}.

(** The values of [gamma.pdf], [np.exp] and [np.log2] at the arguments that
    scoring a pair with similarity 0 and soma distance 0 under [stats]
    reaches. *)
Definition reference_values (gamma_pdf : float -> list float -> float)
    (np_exp np_log2 : float -> float) : Prop :=
  gamma_pdf 0 [2; 0; 1] = 0 /\ gamma_pdf 0 [1; 0; 1] = 1 /\
  np_exp (-0) = 1 /\
  np_log2 0 = neg_infinity /\ np_log2 1 = 0 /\ np_log2 0.5 = -1.

(** Functions with those values, NaN at every other argument. *)
Definition gamma_pdf_at (x : float) (param : list float) : float :=
  match param with
  | [a; loc; scale] =>
      if (x =? 0) && (loc =? 0) && (scale =? 1) then
        if a =? 2 then 0 else if a =? 1 then 1 else nan
      else nan
  | _ => nan
  end.

Definition exp_at (x : float) : float := if x =? 0 then 1 else nan.

Definition log2_at (x : float) : float :=
  if x =? 0 then neg_infinity
  else if x =? 1 then 0
  else if x =? 0.5 then -1
  else nan.

(** [float] on the numerals of the labels below. *)
Definition float_of_numeral (s : string) : result float :=
  if decide (s = "0") then Ok 0
  else if decide (s = "0.5") then Ok 0.5
  else if decide (s = "1") then Ok 1
  else if decide (s = "1000") then Ok 1000
  else if decide (s = "2000") then Ok 2000
  else Raise ValueError.

(** A score table as the data frame its file is read into. *)
Definition score_frame : Df.frame :=
  Df.Frame ["(0,1000]"; "(1000,2000]"] ["(0,0.5]"; "(0.5,1]"]
    (list_to_map [ (("(0,1000]", "(0,0.5]"), 1); (("(0,1000]", "(0.5,1]"), 2);
                   (("(1000,2000]", "(0,0.5]"), -1);
                   (("(1000,2000]", "(0.5,1]"), -2) ]).

(** Two paired skeletons, and one neuron with three synapses from the
    second of them and five from a skeleton that is not paired. *)
Definition pairs : pair_map_dict :=
  {| skid_to_ind := {[ 10%Z := 0%Z; 20%Z := 1%Z ]}; mirror_inds := [1%Z; 0%Z] |}.

Definition synapses : connected_skeletons :=
  {| presynaptic := {[ 1%Z := {[ 20%Z := 3%Z; 30%Z := 5%Z ]} ]};
     postsynaptic := {[ 1%Z := {[ 10%Z := 2%Z ]} ]} |}.

End Examples.

(** ** Proof tools *)

(** The nearest-neighbour answers for the points of [source_dp]. *)
Abbreviation nearest source_dp target_dp :=
  (KDTree.query_all (map dp_xyz target_dp) (map dp_xyz source_dp)).

(** stdpp states its list lemmas on [<$>], which [map] unfolds to. *)
Ltac to_fmap :=
  repeat match goal with
         | |- context [map ?f ?l] => change (map f l) with (f <$> l)
         end.

(** The value of a computation seen through [f]; an exception stays. *)
Definition rfmap {A B : Type} (f : A -> B) (r : result A) : result B :=
  match r with
  | Ok a => Ok (f a)
  | Raise e => Raise e
  end.

(** Two computations that raise the same exception or return related values. *)
Definition rrel {A : Type} (R : A -> A -> Prop) (r r' : result A) : Prop :=
  match r, r' with
  | Ok a, Ok b => R a b
  | Raise e, Raise e' => e = e'
  | _, _ => False
  end.

(** What an entry of the match report says about the neuron it is for: the
    table lists exactly the columns whose score in the neuron's row exceeds
    the threshold, each with that score, and is not empty; the message
    stands where no score does. *)
Definition entry_for (Sb : Df.frame) (thr : float) (nrn : NeuronObj)
    (e : report) : Prop :=
  let cell c := default nan (Df.data Sb !! (name_number nrn, c)) in
  match e with
  | BestMatches tbl =>
      tbl <> []
      /\ forall c v, (c, v) ∈ tbl
                     <-> c ∈ Df.columns Sb /\ v = cell c /\ (thr <? v) = true
  | NoMatches msg =>
      msg = ("No sufficiently good matches for " +:+ name_number nrn)%string
      /\ forall c, c ∈ Df.columns Sb -> (thr <? cell c) = false
  end.

(** Entry [i] of the connectivity vector [vec] is the count of the paired
    partner [pid], at the position the pair map gives it. *)
Definition written (pair_map : pair_map_dict) (partners : gmap Z Z)
    (vec : list Z) (i : nat) (pid : Z) : Prop :=
  exists ind w, skid_to_ind pair_map !! pid = Some ind
                /\ partners !! pid = Some w
                /\ np_index (Z.of_nat (length vec)) ind = Ok i
                /\ vec !! i = Some w.

(** [vec] is the unmirrored connectivity vector of a neuron with the given
    partner counts: one entry per paired skeleton, every entry that is not
    zero is the count of a paired partner at its position, and when the
    pair map sends no two skeletons to one position every paired partner
    has its count in the vector. *)
Definition counts_vector (pair_map : pair_map_dict) (partners : gmap Z Z)
    (vec : list Z) : Prop :=
  length vec = size (skid_to_ind pair_map)
  /\ (forall i w, vec !! i = Some w -> w <> 0%Z ->
        exists pid, written pair_map partners vec i pid)
  /\ ((forall p q a b,
         skid_to_ind pair_map !! p = Some a ->
         skid_to_ind pair_map !! q = Some b ->
         np_index (Z.of_nat (size (skid_to_ind pair_map))) a
         = np_index (Z.of_nat (size (skid_to_ind pair_map))) b -> p = q) ->
      forall pid ind w,
        skid_to_ind pair_map !! pid = Some ind -> partners !! pid = Some w ->
        exists i, written pair_map partners vec i pid).

(** Two dotprops on the same points. *)
Definition same_points (a b : dotprop) : Prop := map dp_xyz a = map dp_xyz b.

(** Two labelled dotprops with the same label on the same points. *)
Definition same_labelled (a b : string * dotprop) : Prop :=
  a.1 = b.1 /\ same_points a.2 b.2.

(** * Properties *)

Local Open Scope float_scope.


(** ** Helper lemmas on the error monad *)

Lemma bind_Ok {A B : Type} (a : A) (k : A -> result B) : (Ok a ≫= k) = k a.
Proof. reflexivity. Qed.

Lemma rmap_length {A B : Type} (f : A -> result B) (l : list A) (ys : list B) :
  rmap f l = Ok ys -> length ys = length l.
Proof.
  revert ys. induction l as [|x l IH]; intros ys H; simpl in H.
  - by inversion H.
  - destruct (f x) as [y|e]; simpl in H; [|discriminate].
    destruct (rmap f l) as [ys'|e]; simpl in H; [|discriminate].
    inversion H; subst. simpl. f_equal. by apply IH.
Qed.

Lemma rmap_lookup {A B : Type} (f : A -> result B) (l : list A) (ys : list B)
    (i : nat) (x : A) :
  rmap f l = Ok ys -> l !! i = Some x ->
  exists y, f x = Ok y /\ ys !! i = Some y.
Proof.
  revert ys i. induction l as [|a l IH]; intros ys i H Hi; [done|].
  simpl in H.
  destruct (f a) as [y|e] eqn:Hfa; simpl in H; [|discriminate].
  destruct (rmap f l) as [ys'|e] eqn:Hr; simpl in H; [|discriminate].
  inversion H; subst. destruct i as [|i]; simpl in *.
  - inversion Hi; subst. by exists y.
  - by apply IH.
Qed.

Lemma rmap_ok {A B : Type} (f : A -> result B) (l : list A) :
  (forall x, x ∈ l -> exists y, f x = Ok y) -> exists ys, rmap f l = Ok ys.
Proof.
  induction l as [|a l IH]; intros H; simpl.
  - by exists [].
  - destruct (H a) as [y Hy]; [by left|]. rewrite Hy. simpl.
    destruct IH as [ys Hys]; [intros x Hx; apply H; by right|].
    rewrite Hys. simpl. by exists (y :: ys).
Qed.

Lemma rmap_elem_of {A B : Type} (f : A -> result B) (l : list A) (ys : list B)
    (y : B) :
  rmap f l = Ok ys -> y ∈ ys -> exists x, x ∈ l /\ f x = Ok y.
Proof.
  intros H Hy. apply list_elem_of_lookup in Hy as [i Hi].
  assert (Hlen := rmap_length _ _ _ H).
  destruct (lookup_lt_is_Some_2 l i) as [x Hx].
  { rewrite <- Hlen. by eapply lookup_lt_Some. }
  destruct (rmap_lookup _ _ _ _ _ H Hx) as (y' & Hf & Hy').
  exists x. split; [by eapply list_elem_of_lookup_2|]. congruence.
Qed.

(** ** Bidirectional pair score (C1) *)

(** C1: the bidirectional score is not symmetric.  For the neuron [A], one path
    of length 1000, and the neuron [B], one path of length 5000, resampled at
    1000 and scored with the two-bin table, [nblast_neuron_pair(A, B,
    bidirectional=True)] is 1 and [nblast_neuron_pair(B, A,
    bidirectional=True)] is 0, whatever the orientation estimates are: the
    second factor of the geometric mean is computed from the query-to-target
    components again, never from the target-to-query ones. *)
Theorem nblast_neuron_pair_bidirectional_asymmetric :
  forall local_direction : list point -> nat -> point -> point,
    nblast_neuron_pair local_direction
      (Nrn Examples.short_nrn) (Nrn Examples.long_nrn) Examples.table
      1000 5 true false = Ok 1
    /\
    nblast_neuron_pair local_direction
      (Nrn Examples.long_nrn) (Nrn Examples.short_nrn) Examples.table
      1000 5 true false = Ok 0.
Proof.
  intros local_direction. split; vm_compute; reflexivity.
Qed.

(** In general the bidirectional score is a function of the query-to-target
    components alone: the target-to-query call only has to succeed. *)
Lemma nblast_neuron_pair_bidirectional_value
    (local_direction : list point -> nat -> point -> point)
    (nrn_q nrn_t : nrn_arg) (score_lookup : ScoreMatrixLookup) (rd : float)
    (nn : nat) (normalize : bool) (c cb : list (float * float))
    (S_a m : float) :
  neuron_comparison_nblast_components local_direction nrn_q nrn_t rd nn false
    None = Ok c ->
  neuron_comparison_nblast_components local_direction nrn_t nrn_q rd nn false
    None = Ok cb ->
  nblast_dist_fun c score_lookup = Ok S_a ->
  max_blast_score (length c) score_lookup = Ok m ->
  nblast_neuron_pair local_direction nrn_q nrn_t score_lookup rd nn true
    normalize
  = Ok (PrimFloat.sqrt (Py.max (S_a / m) 0 * Py.max (S_a / m) 0)).
Proof.
  intros Hc Hcb HS Hm. unfold nblast_neuron_pair.
  rewrite Hc, bind_Ok. cbv beta. rewrite HS, bind_Ok. cbv beta.
  rewrite Hcb, bind_Ok. cbv beta. rewrite bind_Ok. cbv beta.
  rewrite Hm, !bind_Ok. reflexivity.
Qed.

(** ** Degenerate dotprops (C8) *)

Lemma foldl_max_lt (l : list Z) (x b : Z) :
  (x < b)%Z -> (forall y, y ∈ l -> (y < b)%Z) -> (foldl Z.max x l < b)%Z.
Proof.
  revert x. induction l as [|a l IH]; intros x Hx Hl; simpl; [done|].
  apply IH.
  - assert (a < b)%Z by (apply Hl; by left). lia.
  - intros y Hy. apply Hl. by right.
Qed.

Lemma np_max_list_lt (sn : gmap Z Z) (b : Z) :
  sn ≠ ∅ ->
  (forall nid s, sn !! nid = Some s -> (s < b)%Z) ->
  exists mx, np_max_list (map snd (map_to_list sn)) = Ok mx /\ (mx < b)%Z.
Proof.
  intros Hne Hall.
  destruct (map_to_list sn) as [|[k v] l] eqn:Hl.
  - by apply map_to_list_empty_iff in Hl.
  - simpl. eexists; split; [reflexivity|].
    assert (Hin : forall k' v', (k', v') ∈ (k, v) :: l -> (v' < b)%Z).
    { intros k' v' Hkv. rewrite <- Hl in Hkv.
      apply elem_of_map_to_list in Hkv. by eapply Hall. }
    apply foldl_max_lt.
    + apply (Hin k v). by left.
    + intros y Hy. apply list_elem_of_fmap in Hy as [[k' v'] [-> Hkv]].
      apply (Hin k' v'). by right.
Qed.

(** C8: when [min_strahler] exceeds every Strahler number of a neuron that
    has nodes, [neuron_to_dotprop] returns the single all-NaN row; and the
    batch worker [_nblast_neuron_pair_for_mp] returns the score 0, raising
    nothing, whenever either dotprop has at most one row. *)
Theorem strahler_degenerate_scores_zero :
  forall (local_direction : list point -> nat -> point -> point)
         (nrn : NeuronObj) (resample_distance : float) (num_nn : nat)
         (min_strahler : Z),
    strahler_number nrn ≠ ∅ ->
    (forall nid s, strahler_number nrn !! nid = Some s -> (s < min_strahler)%Z) ->
    neuron_to_dotprop local_direction nrn resample_distance num_nn
      (Some min_strahler)
    = Ok [ DpRow (nan, nan, nan) (nan, nan, nan) ]
    /\
    forall (q t : dotprop) (score_lookup : ScoreMatrixLookup) (rd : float)
           (nn : nat) (normalize : bool) (max_proximity : option float),
      (length q <= 1 \/ length t <= 1)%nat ->
      _nblast_neuron_pair_for_mp local_direction
        (q, t, score_lookup, rd, nn, normalize, max_proximity) = Ok 0.
Proof.
  intros ld nrn rd nn ms Hne Hall. split.
  - unfold neuron_to_dotprop.
    destruct (np_max_list_lt _ ms Hne Hall) as (mx & -> & Hlt). simpl.
    apply Z.ltb_lt in Hlt. by rewrite Hlt.
  - intros q t sl rd' nn' normalize mp Hlen.
    unfold _nblast_neuron_pair_for_mp.
    destruct Hlen as [Hq|Ht].
    + assert ((1 <? length q)%nat = false) as -> by (apply Nat.ltb_ge; lia).
      reflexivity.
    + assert ((1 <? length t)%nat = false) as -> by (apply Nat.ltb_ge; lia).
      by rewrite andb_false_r.
Qed.

Lemma strahler_degenerate_scores_zero_witness :
  neuron_to_dotprop (fun _ _ p => p) Examples.long_nrn 1000 5 (Some 2%Z)
  = Ok [ DpRow (nan, nan, nan) (nan, nan, nan) ]
  /\
  forall (q t : dotprop) (score_lookup : ScoreMatrixLookup) (rd : float)
         (nn : nat) (normalize : bool) (max_proximity : option float),
    (length q <= 1 \/ length t <= 1)%nat ->
    _nblast_neuron_pair_for_mp (fun _ _ p => p)
      (q, t, score_lookup, rd, nn, normalize, max_proximity) = Ok 0.
Proof.
  apply (strahler_degenerate_scores_zero (fun _ _ p => p) Examples.long_nrn
           1000 5 2%Z).
  - intros H. apply (f_equal (fun m : gmap Z Z => m !! 1%Z)) in H.
    vm_compute in H. discriminate.
  - intros nid s H. unfold Examples.long_nrn, Examples.straight in H.
    simpl in H.
    apply lookup_insert_Some in H as [[_ <-]|[_ H]]; [lia|].
    apply lookup_singleton_Some in H as [_ <-]. lia.
Defined.

(** ** Independence of [exact_nblast] from [max_proximity] (C10) *)

(** C10: two runs of [exact_nblast] that differ only in [max_proximity]
    return the same result: both directional calls of [nblast_neurons] are
    made with [max_proximity=None]. *)
Theorem exact_nblast_ignores_max_proximity :
  forall (local_direction : list point -> nat -> point -> point)
         (filter_neurons_by_length : nrns_arg -> float -> result nrns_arg)
         (score_lookup : ScoreMatrixLookup) (nrns_q nrns_t : nrns_arg)
         (resample_distance : float) (num_nn : nat)
         (max_proximity1 max_proximity2 : option float)
         (min_strahler : option Z) (min_length : option float)
         (as_dotprop : bool),
    exact_nblast local_direction filter_neurons_by_length score_lookup
      nrns_q nrns_t resample_distance num_nn max_proximity1 min_strahler
      min_length as_dotprop
    = exact_nblast local_direction filter_neurons_by_length score_lookup
        nrns_q nrns_t resample_distance num_nn max_proximity2 min_strahler
        min_length as_dotprop.
Proof. reflexivity. Qed.

(** The argument is not dead in the batch routine itself: on the same
    dotprops [nblast_neurons] scores differently with and without it. *)
Lemma nblast_neurons_depends_on_max_proximity :
  forall local_direction : list point -> nat -> point -> point,
    nblast_neurons local_direction Examples.table2
      (DotpropDict [("q", Examples.src_dp2)])
      (Some (DotpropDict [("t", Examples.tgt_dp2)]))
      1000 5 None false None true = Ok [("q", "t", 2)]
    /\
    nblast_neurons local_direction Examples.table2
      (DotpropDict [("q", Examples.src_dp2)])
      (Some (DotpropDict [("t", Examples.tgt_dp2)]))
      1000 5 None false (Some 5) true = Ok [("q", "t", -2)].
Proof.
  intros local_direction. split; vm_compute; reflexivity.
Qed.

(** ** The proximity gate (C7) *)


Lemma components_as_dotprop
    (local_direction : list point -> nat -> point -> point)
    (source_dp target_dp : dotprop) (rd : float) (nn : nat)
    (max_proximity : option float) :
  neuron_comparison_nblast_components local_direction
    (Dp source_dp) (Dp target_dp) rd nn true max_proximity
  = (m ← Py.min (map fst (nearest source_dp target_dp));
     if default infinity max_proximity <? m
     then matched_udotv source_dp target_dp (nearest source_dp target_dp)
     else Ok (ones_udotv (nearest source_dp target_dp))).
Proof. reflexivity. Qed.






(** ** The resample count (C6) *)

Lemma linspace_length (start stop : float) (num : Z) (l : list float) :
  Np.linspace start stop num = Ok l -> length l = Z.to_nat num.
Proof.
  unfold Np.linspace. destruct (num <? 0)%Z eqn:Hneg; [discriminate|].
  intros H. inversion H; subst; clear H.
  destruct (1 <? num)%Z eqn:H1.
  - apply Z.ltb_lt in H1.
    rewrite length_app, length_take, length_map, length_seq. simpl. lia.
  - by rewrite length_map, length_seq.
Qed.

Lemma linspace_ok (start stop : float) (num : Z) :
  (0 <= num)%Z -> exists l, Np.linspace start stop num = Ok l.
Proof.
  intros H. unfold Np.linspace.
  assert ((num <? 0)%Z = false) as -> by (apply Z.ltb_ge; lia).
  by eexists.
Qed.

Lemma cumsum_from_length (acc : float) (l : list float) :
  length (Np.cumsum_from acc l) = length l.
Proof.
  revert acc. induction l as [|x l IH]; intros acc; simpl; [done|].
  by rewrite IH.
Qed.

Lemma cumsum_length (l : list float) : length (Np.cumsum l) = length l.
Proof.
  destruct l as [|x l]; simpl; [done|]. by rewrite cumsum_from_length.
Qed.

Lemma diff_length (xyz : list point) :
  length (Np.diff xyz) = (length xyz - 1)%nat.
Proof.
  induction xyz as [|p xyz IH]; [done|].
  destruct xyz as [|q xyz]; [done|].
  change (Np.diff (p :: q :: xyz)) with (Np.sub3 q p :: Np.diff (q :: xyz)).
  simpl length in *. rewrite IH. lia.
Qed.

Lemma cumlen_length (xyz : list point) :
  xyz ≠ [] -> length (cumlen_of xyz) = length xyz.
Proof.
  intros Hne. unfold cumlen_of. simpl.
  rewrite cumsum_length, length_map, diff_length.
  destruct xyz; [done|]. simpl. lia.
Qed.

Lemma interp_ok (x xp fp : list float) :
  xp ≠ [] -> length xp = length fp ->
  exists r, Np.interp x xp fp = Ok r /\ length r = length x.
Proof.
  intros Hne Hlen.
  destruct (rmap_ok (Np.interp1 xp fp) x) as [r Hr].
  - intros a _. unfold Np.interp1.
    destruct xp as [|x0 xp]; [done|].
    destruct fp as [|f0 fp]; [done|].
    rewrite Hlen, Nat.eqb_refl. simpl negb. cbv iota.
    repeat match goal with
           | |- context [if ?c then _ else _] => destruct c
           end; by eexists.
  - exists r. split; [done|]. by eapply rmap_length.
Qed.

Lemma interpolate_path_count (xyz : list point) (rd : float) (num : Z) :
  xyz ≠ [] ->
  Py.int (resample_nni (Py.modf (path_length xyz / rd))) = Ok num ->
  (0 <= num)%Z ->
  exists pts, interpolate_path xyz rd = Ok pts /\ length pts = Z.to_nat num.
Proof.
  intros Hne Hint Hnum. unfold interpolate_path. rewrite Hint. simpl.
  destruct (linspace_ok 0 (path_length xyz) num Hnum) as [li Hli].
  rewrite Hli. simpl. apply linspace_length in Hli.
  assert (Hc : cumlen_of xyz ≠ []) by done.
  destruct (interp_ok li (cumlen_of xyz) (map px xyz) Hc) as (xi & -> & Hxi).
  { by rewrite cumlen_length, length_map. }
  destruct (interp_ok li (cumlen_of xyz) (map py xyz) Hc) as (yi & -> & Hyi).
  { by rewrite cumlen_length, length_map. }
  destruct (interp_ok li (cumlen_of xyz) (map pz xyz) Hc) as (zi & -> & Hzi).
  { by rewrite cumlen_length, length_map. }
  simpl. eexists. split; [reflexivity|].
  rewrite !length_zip_with. lia.
Qed.

(** C6 as the code has it, for a path with at least one point and [parts]
    the fractional and integral part of total length / [resample_distance]:
    when the integral part is below 1, exactly one point is sampled; and
    otherwise the number of points is the integral part when the fraction is
    below one half (and the integral part positive), and the integral part
    plus one (the ceiling) when not. *)
Theorem interpolate_path_resample_count :
  forall (xyz : list point) (resample_distance : float),
    xyz ≠ [] ->
    let parts := Py.modf (path_length xyz / resample_distance) in
    ((parts.2 <? 1) = true ->
       exists pts, interpolate_path xyz resample_distance = Ok pts /\
                   length pts = 1%nat)
    /\
    ((parts.2 <? 1) = false ->
       forall num : Z,
         Py.int (if (parts.1 <? 0.5) && (0 <? parts.2)
                 then parts.2 else parts.2 + 1) = Ok num ->
         (0 <= num)%Z ->
         exists pts, interpolate_path xyz resample_distance = Ok pts /\
                     length pts = Z.to_nat num).
Proof.
  intros xyz rd Hne parts. split.
  - intros Hlt.
    apply (interpolate_path_count xyz rd 1%Z Hne); [|lia].
    unfold resample_nni. fold parts. rewrite Hlt. reflexivity.
  - intros Hge num Hint Hnum.
    apply (interpolate_path_count xyz rd num Hne); [|done].
    unfold resample_nni. fold parts. by rewrite Hge.
Qed.

Lemma interpolate_path_resample_count_witness :
  let xyz := [(0, 0, 0); (300, 400, 0); (300, 400, 1100)] in
  let parts := Py.modf (path_length xyz / 1000) in
  ((parts.2 <? 1) = true ->
     exists pts, interpolate_path xyz 1000 = Ok pts /\ length pts = 1%nat)
  /\
  ((parts.2 <? 1) = false ->
     forall num : Z,
       Py.int (if (parts.1 <? 0.5) && (0 <? parts.2)
               then parts.2 else parts.2 + 1) = Ok num ->
       (0 <= num)%Z ->
       exists pts, interpolate_path xyz 1000 = Ok pts /\
                   length pts = Z.to_nat num).
Proof.
  apply (interpolate_path_resample_count
           [(0, 0, 0); (300, 400, 0); (300, 400, 1100)] 1000).
  discriminate.
Defined.

(** C6 as stated fails on a path shorter than one segment: the path from the
    origin to [(300, 400, 0)] has length 500, and resampled at 1000 it yields
    one point, the start of the path, not the two end points. *)
Lemma short_path_samples_one_point :
  path_length [(0, 0, 0); (300, 400, 0)] = 500
  /\ interpolate_path [(0, 0, 0); (300, 400, 0)] 1000 = Ok [(0, 0, 0)].
Proof. split; vm_compute; reflexivity. Qed.

(** ** Overflowing connectivity weights (C5) *)

Lemma np_index_past_end (n : Z) : np_index n (n + 1) = Raise IndexError.
Proof.
  unfold np_index.
  assert ((n + 1 <? n)%Z = false) as -> by (apply Z.ltb_ge; lia).
  rewrite andb_false_r.
  destruct (- n <=? n + 1)%Z eqn:E1, (n + 1 <? 0)%Z eqn:E2; simpl; try done.
  apply Z.leb_le in E1. apply Z.ltb_lt in E2. lia.
Qed.

(** C5: the code does not clamp.  Whenever a weight exceeds the table's
    dimensions, [match_prob_conn_log_ratio] raises instead of indexing the
    table in range: [np.max(shift1, shift2)] takes [shift2] as an axis, which
    is an error unless it is [0] or [-1], and in those two cases the first
    index becomes [shape[0] + 1], past the end of the table. *)
Theorem match_prob_conn_log_ratio_overflow_raises :
  forall (w1 w2 : Z) (log_ratio : list (list float)) (n1 : Z),
    shape1 log_ratio = Ok n1 ->
    (shape0 log_ratio - 1 < w1 \/ n1 - 1 < w2)%Z ->
    exists e, match_prob_conn_log_ratio w1 w2 log_ratio = Raise e.
Proof.
  intros w1 w2 log_ratio n1 Hn1 Hover.
  unfold match_prob_conn_log_ratio. rewrite Hn1. simpl.
  assert (((shape0 log_ratio - 1 <? w1) || (n1 - 1 <? w2))%Z = true) as ->.
  { apply orb_true_iff. destruct Hover; [left|right]; by apply Z.ltb_lt. }
  unfold np_max_scalar.
  destruct ((w2 - n1 - 1 =? 0)%Z || (w2 - n1 - 1 =? -1)%Z); simpl;
    [|by eexists].
  replace (w1 - (w1 - shape0 log_ratio - 1))%Z with (shape0 log_ratio + 1)%Z
    by lia.
  assert ((0 <? shape0 log_ratio + 1)%Z = true) as ->.
  { apply Z.ltb_lt. unfold shape0. lia. }
  simpl. unfold np_getitem2. rewrite Hn1. simpl.
  rewrite np_index_past_end. simpl. by eexists.
Qed.

Lemma match_prob_conn_log_ratio_overflow_raises_witness :
  exists e,
    match_prob_conn_log_ratio 5 0 [[0; 1; 2]; [1; 0; 1]; [2; 1; 0]] = Raise e.
Proof.
  apply (match_prob_conn_log_ratio_overflow_raises
           5 0 [[0; 1; 2]; [1; 0; 1]; [2; 1; 0]] 3).
  - reflexivity.
  - left. vm_compute. reflexivity.
Defined.

(** The two ways the overflow fails, and the table read within its bounds. *)
Lemma match_prob_conn_log_ratio_examples :
  let t := [[0; 1; 2]; [1; 0; 1]; [2; 1; 0]] in
  match_prob_conn_log_ratio 5 0 t = Raise AxisError
  /\ match_prob_conn_log_ratio 5 3 t = Raise IndexError
  /\ match_prob_conn_log_ratio 2 1 t = Ok 1
  /\ match_prob_conn_log_ratio 0 0 t = Ok 0.
Proof. repeat split. Qed.

(** ** Non-finite distance channel (C9) *)

Lemma zip_with_lookup_Some {A B C : Type} (f : A -> B -> C) (l : list A)
    (k : list B) (i : nat) (a : A) (b : B) :
  l !! i = Some a -> k !! i = Some b -> zip_with f l k !! i = Some (f a b).
Proof.
  intros Ha Hb. apply lookup_zip_with_Some. by exists a, b.
Qed.

Section MorphologyFacts.

Variable gamma_pdf : float -> list float -> float.
Variable np_exp : float -> float.
Variable np_log2 : float -> float.

Lemma logistic_ratio_ok (x : float) (shape_param : list float) :
  (3 <= length shape_param)%nat ->
  exists v, _logistic_ratio np_exp np_log2 x shape_param = Ok v.
Proof.
  intros H. destruct shape_param as [|s0 [|s1 [|s2 l]]]; simpl in H; try lia.
  by eexists.
Qed.

Lemma gamma_ratio_ok (x : float) (mp nmp ep : list float) :
  (2 <= length ep)%nat ->
  exists v, _gamma_ratio gamma_pdf np_exp np_log2 x mp nmp ep = Ok v.
Proof.
  intros H. destruct ep as [|e0 [|e1 l]]; simpl in H; try lia.
  by eexists.
Qed.

(** With the reference values, a pair with similarity 0 and soma distance 0
    gets the total [-infinity]: the match density is 0 and the non-match
    density is 1, so the distance channel is [log2 0 - log2 1], which is not
    NaN and stays. *)
Lemma zero_match_density_total :
  Examples.reference_values gamma_pdf np_exp np_log2 ->
  match_prob_morpho_log_ratio gamma_pdf np_exp np_log2 [0] [0] Examples.stats
  = Ok [neg_infinity].
Proof.
  intros (Hg2 & Hg1 & Hexp & Hl0 & Hl1 & Hlh).
  unfold match_prob_morpho_log_ratio, _logistic_ratio, _gamma_ratio. simpl.
  simpl in Hexp. rewrite Hg2, Hg1, Hexp. simpl. unfold nan_to_one.
  rewrite Hl0, Hl1, Hlh. reflexivity.
Qed.

End MorphologyFacts.

Lemma reference_values_at :
  Examples.reference_values Examples.gamma_pdf_at Examples.exp_at
    Examples.log2_at.
Proof. repeat split. Qed.


(** C9 as the code has it: with three logistic and two cut-off parameters
    the call succeeds with one total per pair, the score channel plus the
    distance channel, where a distance channel that is NaN is replaced by 1.0
    and any other value, infinite ones included, is kept. *)
Theorem match_prob_morpho_replaces_nan_only :
  forall (gamma_pdf : float -> list float -> float)
         (np_exp np_log2 : float -> float)
         (S d : list float) (morpho_stats : morpho_stats_t),
    length S = length d ->
    (3 <= length (shape morpho_stats))%nat ->
    (2 <= length (exp_cutoff morpho_stats))%nat ->
    exists out,
      match_prob_morpho_log_ratio gamma_pdf np_exp np_log2 S d morpho_stats
      = Ok out
      /\ length out = length S
      /\ forall i s x, S !! i = Some s -> d !! i = Some x ->
           exists sprob dprob,
             _logistic_ratio np_exp np_log2 s (shape morpho_stats) = Ok sprob
             /\ _gamma_ratio gamma_pdf np_exp np_log2 x
                  (dist_match morpho_stats) (dist_nonmatch morpho_stats)
                  (exp_cutoff morpho_stats) = Ok dprob
             /\ out !! i
                = Some (sprob + (if PrimFloat.is_nan dprob then 1 else dprob)).
Proof.
  intros gamma_pdf np_exp np_log2 S d ms Hlen Hshape Hexp.
  unfold match_prob_morpho_log_ratio.
  destruct (rmap_ok (fun x => _logistic_ratio np_exp np_log2 x (shape ms)) S)
    as [Sprob HS].
  { intros x _. by apply logistic_ratio_ok. }
  destruct (rmap_ok (fun x => _gamma_ratio gamma_pdf np_exp np_log2 x
                                (dist_match ms) (dist_nonmatch ms)
                                (exp_cutoff ms)) d) as [dprob Hd].
  { intros x _. by apply gamma_ratio_ok. }
  rewrite HS. simpl. rewrite Hd. simpl.
  eexists. split; [reflexivity|].
  assert (HlS := rmap_length _ _ _ HS). assert (Hld := rmap_length _ _ _ Hd).
  split.
  - rewrite length_zip_with, length_map. lia.
  - intros i s x Hs Hx.
    destruct (rmap_lookup _ _ _ _ _ HS Hs) as (sp & Hsp & Hspi).
    destruct (rmap_lookup _ _ _ _ _ Hd Hx) as (dp & Hdp & Hdpi).
    exists sp, dp. split; [done|]. split; [done|].
    apply zip_with_lookup_Some; [done|].
    to_fmap. rewrite list_lookup_fmap, Hdpi. reflexivity.
Qed.

Lemma match_prob_morpho_replaces_nan_only_witness :
  exists out,
    match_prob_morpho_log_ratio Examples.gamma_pdf_at Examples.exp_at
      Examples.log2_at [0] [0] Examples.stats = Ok out
    /\ length out = length [0]
    /\ forall i s x, [0] !! i = Some s -> [0] !! i = Some x ->
         exists sprob dprob,
           _logistic_ratio Examples.exp_at Examples.log2_at s
             (shape Examples.stats) = Ok sprob
           /\ _gamma_ratio Examples.gamma_pdf_at Examples.exp_at
                Examples.log2_at x (dist_match Examples.stats)
                (dist_nonmatch Examples.stats) (exp_cutoff Examples.stats)
              = Ok dprob
           /\ out !! i
              = Some (sprob + (if PrimFloat.is_nan dprob then 1 else dprob)).
Proof.
  apply (match_prob_morpho_replaces_nan_only Examples.gamma_pdf_at
           Examples.exp_at Examples.log2_at [0] [0] Examples.stats).
  - reflexivity.
  - simpl. lia.
  - simpl. lia.
Defined.

(** C9 as stated fails: whatever functions stand for [gamma.pdf], [np.exp]
    and [np.log2], as long as they have the reference values, the pair with
    similarity 0 and soma distance 0 gets the total [-infinity], which is not
    finite; and some functions do have those values. *)
Lemma infinite_distance_channel_propagates :
  (forall (gamma_pdf : float -> list float -> float)
          (np_exp np_log2 : float -> float),
     Examples.reference_values gamma_pdf np_exp np_log2 ->
     match_prob_morpho_log_ratio gamma_pdf np_exp np_log2 [0] [0]
       Examples.stats = Ok [neg_infinity])
  /\ PrimFloat.is_finite neg_infinity = false
  /\ match_prob_morpho_log_ratio Examples.gamma_pdf_at Examples.exp_at
       Examples.log2_at [0] [0] Examples.stats = Ok [neg_infinity].
Proof.
  split; [|split].
  - intros gamma_pdf np_exp np_log2. apply zero_match_density_total.
  - reflexivity.
  - apply zero_match_density_total, reference_values_at.
Qed.

(** ** Joining the evidence sources (C2) *)






(** ** The similarity graph *)

Lemma rfold_app {A B : Type} (body : B -> A -> result B) (l k : list A)
    (acc : B) :
  rfold body (l ++ k) acc = (acc' ← rfold body l acc; rfold body k acc').
Proof.
  revert acc. induction l as [|x l IH]; intros acc; simpl; [done|].
  destruct (body acc x); simpl; [apply IH|done].
Qed.

Lemma rfold_invariant {A B : Type} (body : B -> A -> result B)
    (I : B -> Prop) (l : list A) (acc r : B) :
  I acc ->
  (forall x b b', x ∈ l -> I b -> body b x = Ok b' -> I b') ->
  rfold body l acc = Ok r -> I r.
Proof.
  revert acc. induction l as [|x l IH]; intros acc Hacc Hstep H; simpl in H.
  - by inversion H; subst.
  - destruct (body acc x) as [b'|e] eqn:Hb; simpl in H; [|discriminate].
    apply (IH b'); [|intros; eapply Hstep; eauto; by right|done].
    eapply Hstep; eauto. by left.
Qed.

Lemma rfold_ok {A B : Type} (body : B -> A -> result B) (l : list A) (acc : B) :
  (forall x b, x ∈ l -> exists b', body b x = Ok b') ->
  exists r, rfold body l acc = Ok r.
Proof.
  revert acc. induction l as [|x l IH]; intros acc H; simpl; [by eexists|].
  destruct (H x acc) as [b' ->]; [by left|]. simpl.
  apply IH. intros y b Hy. apply H. by right.
Qed.

(** *** Forced cells *)

Lemma force_cell_spec (val : float) (T T' : Df.frame) (f : string * string) :
  force_cell val T f = Ok T' ->
  Df.index T' = Df.index T /\ Df.columns T' = Df.columns T
  /\ (f.1 ∈ Df.index T -> Df.data T' !! f = Some val)
  /\ (forall k, k ≠ f -> Df.data T' !! k = Df.data T !! k)
  /\ (forall k, Df.data T' !! k = Some val \/ Df.data T' !! k = Df.data T !! k).
Proof.
  unfold force_cell. destruct f as [q t]. simpl.
  destruct (decide (t ∈ Df.columns T)); [|discriminate].
  destruct (decide (q ∈ Df.index T)); intros H; inversion H; subst; simpl.
  - repeat split; try done.
    + intros _. by rewrite lookup_insert_eq.
    + intros k Hk. by rewrite lookup_insert_ne.
    + intros k. destruct (decide ((q, t) = k)) as [<-|Hk].
      * left. by rewrite lookup_insert_eq.
      * right. by rewrite lookup_insert_ne.
  - repeat split; try done. intros k. by right.
Qed.

Lemma force_cell_dense (val : float) (T T' : Df.frame) (f : string * string) :
  force_cell val T f = Ok T' -> dense T -> dense T'.
Proof.
  unfold force_cell. destruct f as [q t]. simpl.
  destruct (decide (t ∈ Df.columns T)); [|discriminate].
  destruct (decide (q ∈ Df.index T)); intros H; inversion H; subst; [|done].
  intros Hd r c. simpl. rewrite lookup_insert_is_Some, (Hd r c).
  split.
  - intros [Heq|[_ ?]]; [|done]. by inversion Heq; subst.
  - intros ?. destruct (decide ((q, t) = (r, c))); [by left|by right].
Qed.

Lemma enforce_spec (Sb T : Df.frame) (l : list (string * string)) (val : float) :
  rfold (force_cell val) l Sb = Ok T ->
  Df.index T = Df.index Sb /\ Df.columns T = Df.columns Sb
  /\ (dense Sb -> dense T)
  /\ (forall f, f ∈ l -> f.1 ∈ Df.index Sb -> Df.data T !! f = Some val)
  /\ (forall k, k ∉ l -> Df.data T !! k = Df.data Sb !! k).
Proof.
  revert Sb. induction l as [|f l IH]; intros Sb H; simpl in H.
  - inversion H; subst.
    split; [done|]. split; [done|]. split; [done|]. split; [|done].
    intros f Hf. by apply elem_of_nil in Hf.
  - destruct (force_cell val Sb f) as [T'|e] eqn:Hf; simpl in H; [|discriminate].
    destruct (force_cell_spec _ _ _ _ Hf) as (Hi & Hc & Hset & Hother & Hany).
    destruct (IH _ H) as (Hi' & Hc' & Hd' & Hset' & Hother').
    split; [congruence|]. split; [congruence|]. split.
    { intros Hd. apply Hd'. by eapply force_cell_dense. }
    split.
    + intros g Hg Hgi. destruct (decide (g ∈ l)) as [Hgl|Hgl].
      * apply Hset'; [done|]. by rewrite Hi.
      * rewrite Hother' by done.
        apply elem_of_cons in Hg as [->|Hg]; [by apply Hset|done].
    + intros k Hk. apply not_elem_of_cons in Hk as [Hkf Hkl].
      rewrite Hother' by done. by apply Hother.
Qed.

Lemma enforce_ok (Sb : Df.frame) (l : list (string * string)) (val : float) :
  (forall f, f ∈ l -> f.2 ∈ Df.columns Sb) ->
  exists T, rfold (force_cell val) l Sb = Ok T.
Proof.
  revert Sb. induction l as [|f l IH]; intros Sb H; simpl; [by eexists|].
  destruct (force_cell val Sb f) as [T'|e] eqn:Hf.
  - simpl. apply IH. intros g Hg.
    destruct (force_cell_spec _ _ _ _ Hf) as (_ & -> & _). apply H. by right.
  - unfold force_cell in Hf.
    destruct (decide (f.2 ∈ Df.columns Sb)) as [|Hn].
    + by destruct (decide (f.1 ∈ Df.index Sb)).
    + exfalso. apply Hn, H. by left.
Qed.

(** *** Edges *)

Lemma elem_of_label_pairs (Sb : Df.frame) (e : string * string) :
  e ∈ label_pairs Sb <-> e.1 ∈ Df.index Sb /\ e.2 ∈ Df.columns Sb.
Proof.
  unfold label_pairs. rewrite list_elem_of_bind. split.
  - intros (n1 & He & H1). apply list_elem_of_bind in He as (n2 & He & H2).
    apply list_elem_of_singleton in He. by subst.
  - intros [H1 H2]. exists e.1. split; [|done].
    apply list_elem_of_bind. exists e.2. split; [|done].
    apply list_elem_of_singleton. by destruct e.
Qed.

Lemma edge_step_spec (Sb : Df.frame) (thr : float) (B B' : Graph)
    (e : string * string) :
  e ∈ label_pairs Sb ->
  edge_step Sb thr B e = Ok B' ->
  nodes B' = nodes B
  /\ (forall k, is_Some (adj B !! k) -> is_Some (adj B' !! k))
  /\ (forall w, Df.data Sb !! e = Some w -> (thr <? w) = true ->
                is_Some (adj B' !! e))
  /\ (forall u v, is_Some (adj B' !! (u, v)) ->
        is_Some (adj B !! (u, v)) \/ from_cell Sb thr u v \/ from_cell Sb thr v u).
Proof.
  intros He. apply elem_of_label_pairs in He as [H1 H2].
  unfold edge_step, Df.loc. destruct e as [n1 n2]. simpl in *.
  destruct (Df.data Sb !! (n1, n2)) as [w|] eqn:Hw; simpl; [|discriminate].
  destruct (thr <? w) eqn:Hthr; intros H; inversion H; subst; clear H; simpl.
  - split; [done|]. split; [|split].
    + intros k Hk. rewrite !lookup_insert_is_Some'. tauto.
    + intros _ _ _. rewrite !lookup_insert_is_Some'. tauto.
    + intros u v Huv. rewrite !lookup_insert_is_Some' in Huv.
      destruct Huv as [Heq|[Heq|Huv]].
      * inversion Heq; subst. right. right. by exists w.
      * inversion Heq; subst. right. left. by exists w.
      * by left.
  - split; [done|]. split; [done|]. split; [|by left].
    intros w' Hw' Hthr'. congruence.
Qed.

Lemma edges_spec (Sb : Df.frame) (thr : float) (B : Graph) :
  rfold (edge_step Sb thr) (label_pairs Sb) (labelled_nodes Sb) = Ok B ->
  nodes B = nodes (labelled_nodes Sb)
  /\ (forall u v, is_Some (adj B !! (u, v)) ->
        from_cell Sb thr u v \/ from_cell Sb thr v u)
  /\ (forall u v, from_cell Sb thr u v -> is_Some (adj B !! (u, v))).
Proof.
  intros H. split; [|split].
  - revert H.
    apply (rfold_invariant _ (fun B => nodes B = nodes (labelled_nodes Sb)));
      [done|].
    intros e b b' He Hb Hstep.
    destruct (edge_step_spec _ _ _ _ _ He Hstep) as (-> & _). done.
  - revert H.
    apply (rfold_invariant _
             (fun B => forall u v, is_Some (adj B !! (u, v)) ->
                         from_cell Sb thr u v \/ from_cell Sb thr v u)).
    + intros u v Huv. simpl in Huv. rewrite lookup_empty in Huv.
      by destruct Huv.
    + intros e b b' He Hb Hstep u v Huv.
      destruct (edge_step_spec _ _ _ _ _ He Hstep) as (_ & _ & _ & Hnew).
      destruct (Hnew u v Huv) as [Hold|Hc]; [by apply Hb|done].
  - intros u v (w & Hw & Hthr & Hu & Hv).
    assert (He : (u, v) ∈ label_pairs Sb) by by apply elem_of_label_pairs.
    apply list_elem_of_split in He as (l1 & l2 & Hsplit).
    rewrite Hsplit in H. rewrite rfold_app in H.
    destruct (rfold (edge_step Sb thr) l1 (labelled_nodes Sb)) as [B1|]
      eqn:H1; simpl in H; [|discriminate].
    destruct (edge_step Sb thr B1 (u, v)) as [B2|] eqn:H2; simpl in H;
      [|discriminate].
    assert (Hin : forall e, e ∈ (u, v) :: l2 -> e ∈ label_pairs Sb).
    { intros e He. rewrite Hsplit. apply elem_of_app. by right. }
    destruct (edge_step_spec _ _ _ _ _ (Hin _ ltac:(by left)) H2)
      as (_ & _ & Hadd & _).
    revert H.
    apply (rfold_invariant _ (fun B => is_Some (adj B !! (u, v)))).
    + by eapply Hadd.
    + intros e b b' He Hb Hstep.
      destruct (edge_step_spec _ _ _ _ _ (Hin _ ltac:(by right)) Hstep)
        as (_ & Hmono & _). by apply Hmono.
Qed.

Lemma edges_ok (Sb : Df.frame) (thr : float) :
  dense Sb ->
  exists B, rfold (edge_step Sb thr) (label_pairs Sb) (labelled_nodes Sb) = Ok B.
Proof.
  intros Hd. apply rfold_ok. intros e b He.
  apply elem_of_label_pairs in He. destruct e as [n1 n2].
  apply Hd in He as [w Hw]. simpl in Hw. unfold edge_step, Df.loc. simpl.
  rewrite Hw. simpl. by eexists.
Qed.

(** *** Nodes *)

Lemma foldl_insert_lookup (l : list string) (b : Z) (m : gmap string Z)
    (k : string) :
  foldl (fun m n => <[n := b]> m) m l !! k
  = if decide (k ∈ l) then Some b else m !! k.
Proof.
  revert m. induction l as [|n l IH]; intros m; simpl; [done|].
  rewrite IH. destruct (decide (k ∈ l)) as [Hk|Hk].
  - rewrite decide_True; [done|by right].
  - destruct (decide (k = n)) as [->|Hn].
    + rewrite lookup_insert_eq. rewrite decide_True; [done|by left].
    + rewrite lookup_insert_ne by done.
      rewrite decide_False; [done|]. by apply not_elem_of_cons.
Qed.

Lemma labelled_nodes_lookup (Sb : Df.frame) (k : string) :
  nodes (labelled_nodes Sb) !! k
  = if decide (k ∈ Df.columns Sb) then Some 1%Z
    else if decide (k ∈ Df.index Sb) then Some 0%Z else None.
Proof.
  unfold labelled_nodes, add_nodes_from. simpl.
  rewrite !foldl_insert_lookup. by rewrite lookup_empty.
Qed.

Lemma has_edge_true (B : Graph) (u v : string) :
  is_Some (adj B !! (u, v)) -> has_edge B u = true.
Proof.
  intros [w Hw]. unfold has_edge. apply bool_decide_eq_true.
  apply Exists_exists. exists ((u, v), w). split; [|done].
  by apply elem_of_map_to_list.
Qed.

Lemma elem_of_Qset (B : Graph) (n : string) :
  n ∈ Qset_of B <-> nodes B !! n = Some 0%Z.
Proof.
  unfold Qset_of. rewrite list_elem_of_fmap. split.
  - intros ([k b] & -> & Hkb). apply elem_of_map_to_list in Hkb.
    apply map_lookup_filter_Some in Hkb as [Hkb Hb]. simpl in *. by subst.
  - intros Hn. exists (n, 0%Z). split; [done|].
    apply elem_of_map_to_list. by apply map_lookup_filter_Some.
Qed.

Lemma adjacency_spec (Sb : Df.frame) (thr : float) (B : Graph) :
  similarity_matrix_to_adjacency Sb thr = Ok B ->
  (forall u v, is_Some (adj B !! (u, v)) ->
     from_cell Sb thr u v \/ from_cell Sb thr v u)
  /\ (forall u v, from_cell Sb thr u v -> is_Some (adj B !! (u, v)))
  /\ (forall u v, is_Some (adj B !! (u, v)) ->
        (u ∈ Qset_of B <-> u ∈ Df.index Sb /\ u ∉ Df.columns Sb)).
Proof.
  unfold similarity_matrix_to_adjacency.
  destruct (rfold _ _ _) as [B0|] eqn:H0; simpl; [|discriminate].
  intros H. inversion H; subst; clear H.
  destruct (edges_spec _ _ _ H0) as (Hn & Hfrom & Hto).
  split; [done|]. split; [done|].
  intros u v Huv. rewrite elem_of_Qset. simpl.
  rewrite map_lookup_filter_Some. simpl.
  rewrite (has_edge_true B0 u v Huv), Hn, labelled_nodes_lookup.
  destruct (decide (u ∈ Df.columns Sb)), (decide (u ∈ Df.index Sb));
    split; try tauto; try (intros [? _]; discriminate); done.
Qed.

Lemma adjacency_ok (Sb : Df.frame) (thr : float) :
  dense Sb -> exists B, similarity_matrix_to_adjacency Sb thr = Ok B.
Proof.
  intros Hd. unfold similarity_matrix_to_adjacency.
  destruct (edges_ok Sb thr Hd) as [B ->]. simpl. by eexists.
Qed.

(** *** Rows of the match table *)

Lemma row_of_match_spec (Sb : Df.frame) (Qset : list string)
    (m : string * string) (r : match_row) :
  row_of_match Sb Qset m = Ok r ->
  (((m.1 ∈ Qset) /\ Query_name r = m.1 /\ Target_name r = m.2)
   \/ ((m.1 ∉ Qset) /\ Query_name r = m.2 /\ Target_name r = m.1))
  /\ Df.data Sb !! (Query_name r, Target_name r) = Some (S r)
  /\ name_number_to_id (Query_name r) = Ok (Query_id r)
  /\ name_number_to_id (Target_name r) = Ok (Target_id r).
Proof.
  unfold row_of_match, Df.loc. destruct m as [u v]. simpl.
  destruct (decide (u ∈ Qset)) as [Hu|Hu].
  - destruct (Df.data Sb !! (u, v)) as [w|] eqn:Hw; simpl; [|discriminate].
    destruct (name_number_to_id u) as [q|] eqn:Hq; simpl; [|discriminate].
    destruct (name_number_to_id v) as [t|] eqn:Ht; simpl; [|discriminate].
    intros H. inversion H; subst; simpl. split; [by left|done].
  - destruct (Df.data Sb !! (v, u)) as [w|] eqn:Hw; simpl; [|discriminate].
    destruct (name_number_to_id v) as [q|] eqn:Hq; simpl; [|discriminate].
    destruct (name_number_to_id u) as [t|] eqn:Ht; simpl; [|discriminate].
    intros H. inversion H; subst; simpl. split; [by right|done].
Qed.


Lemma filter_partition {A : Type} (f : A -> bool) (l : list A) :
  filter (fun x => f x = false) l ++ filter (fun x => f x = true) l ≡ₚ l.
Proof.
  induction l as [|x l IH]; [done|].
  rewrite !filter_cons. destruct (f x) eqn:Hf.
  - rewrite decide_False by done. rewrite decide_True by done.
    rewrite <- Permutation_middle. by constructor.
  - rewrite decide_True by done. rewrite decide_False by done.
    simpl. by constructor.
Qed.

Lemma sort_by_S_Permutation (rows : list match_row) : sort_by_S rows ≡ₚ rows.
Proof.
  unfold sort_by_S. rewrite merge_sort_Permutation.
  apply (filter_partition (fun r => PrimFloat.is_nan (S r))).
Qed.

Lemma NoDup_fmap_inj_on {A B : Type} (f : A -> B) (l : list A) (x y : A) :
  NoDup (f <$> l) -> x ∈ l -> y ∈ l -> f x = f y -> x = y.
Proof.
  induction l as [|a l IH]; intros Hnd Hx Hy Hf; [by apply elem_of_nil in Hx|].
  rewrite fmap_cons in Hnd. apply NoDup_cons in Hnd as [Ha Hnd].
  apply elem_of_cons in Hx as [->|Hx]; apply elem_of_cons in Hy as [->|Hy].
  - done.
  - exfalso. apply Ha. rewrite Hf. by apply list_elem_of_fmap_2.
  - exfalso. apply Ha. rewrite <- Hf. by apply list_elem_of_fmap_2.
  - by apply IH.
Qed.

(** *** The matcher on a bipartite score matrix *)

Lemma enforce_frame (Sb T : Df.frame)
    (enforce_match : option (list (string * string))) (val : float) :
  enforce Sb enforce_match val = Ok T ->
  Df.index T = Df.index Sb /\ Df.columns T = Df.columns Sb
  /\ (dense Sb -> dense T)
  /\ (forall f, f ∈ forced_pairs enforce_match -> f.1 ∈ Df.index Sb ->
        Df.data T !! f = Some val)
  /\ (forall k, k ∉ forced_pairs enforce_match ->
        Df.data T !! k = Df.data Sb !! k).
Proof.
  destruct enforce_match as [l|]; simpl.
  - apply enforce_spec.
  - intros H. inversion H; subst.
    split; [done|]. split; [done|]. split; [done|]. split; [|done].
    intros f Hf. by apply elem_of_nil in Hf.
Qed.

Section MatcherFacts.

Variable max_weight_matching : Graph -> list (string * string).
Hypothesis matching_contract :
  forall B, is_matching_of B (max_weight_matching B).

Lemma max_match_similarity_unfold (Sb : Df.frame) (thr : float)
    (enforce_match : option (list (string * string))) (val : float)
    (rows : list match_row) :
  max_match_similarity max_weight_matching Sb thr enforce_match val = Ok rows ->
  exists tempSb B rows0,
    enforce Sb enforce_match val = Ok tempSb
    /\ similarity_matrix_to_adjacency tempSb thr = Ok B
    /\ rmap (row_of_match Sb (Qset_of B)) (max_weight_matching B) = Ok rows0
    /\ rows = sort_by_S rows0.
Proof.
  unfold max_match_similarity.
  destruct (enforce Sb enforce_match val) as [T|] eqn:HT; simpl; [|discriminate].
  destruct (similarity_matrix_to_adjacency T thr) as [B|] eqn:HB; simpl;
    [|discriminate].
  destruct (rmap _ _) as [rows0|] eqn:Hr; simpl; [|discriminate].
  intros H. inversion H; subst. by exists T, B, rows0.
Qed.



End MatcherFacts.

(** *** The exhaustive matcher keeps networkx's promise *)

Lemma string_ltb_irrefl (s : string) : String.ltb s s = false.
Proof.
  unfold String.ltb. pose proof (String.compare_antisym s s) as H.
  destruct (String.compare s s); [done| |done]. discriminate.
Qed.

Lemma exhaustive_edges_spec (B : Graph) (e : string * string * float) :
  e ∈ Exhaustive.edges B -> adj B !! e.1 = Some e.2 /\ e.1.1 ≠ e.1.2.
Proof.
  unfold Exhaustive.edges. rewrite list_elem_of_filter. intros [Hlt He].
  destruct e as [[u v] w]. apply elem_of_map_to_list in He. split; [done|].
  simpl in *. intros ->. by rewrite string_ltb_irrefl in Hlt.
Qed.

Lemma elem_of_end_points (m : list (string * string * float)) (x : string) :
  x ∈ (e ← m; [e.1.1; e.1.2])
  <-> exists f, f ∈ m /\ (f.1.1 = x \/ f.1.2 = x).
Proof.
  rewrite list_elem_of_bind. split.
  - intros (f & Hx & Hf). exists f. split; [done|].
    apply elem_of_cons in Hx as [->|Hx]; [by left|].
    apply list_elem_of_singleton in Hx. by right.
  - intros (f & Hf & [<-|<-]); exists f; (split; [|done]).
    + by left.
    + right. by left.
Qed.

Lemma touches_false (e : string * string * float)
    (m : list (string * string * float)) :
  Exhaustive.touches e m = false ->
  (e.1.1 ∉ (f ← m; [f.1.1; f.1.2])) /\ (e.1.2 ∉ (f ← m; [f.1.1; f.1.2])).
Proof.
  unfold Exhaustive.touches. intros H. apply bool_decide_eq_false in H.
  split; intros Hin; apply elem_of_end_points in Hin as (f & Hf & Hor);
    apply H, Exists_exists; exists f; (split; [done|]); tauto.
Qed.

Lemma matchings_spec (es : list (string * string * float))
    (m : list (string * string * float)) :
  (forall e, e ∈ es -> e.1.1 ≠ e.1.2) ->
  m ∈ Exhaustive.matchings es ->
  (forall e, e ∈ m -> e ∈ es) /\ NoDup (e ← m; [e.1.1; e.1.2]).
Proof.
  revert m. induction es as [|e es IH]; intros m Hne Hm; simpl in Hm.
  - apply list_elem_of_singleton in Hm as ->. split; [done|]. constructor.
  - assert (Hne' : forall e0, e0 ∈ es -> e0.1.1 ≠ e0.1.2).
    { intros e0 He0. apply Hne. by right. }
    apply elem_of_app in Hm as [Hm|Hm].
    + destruct (IH m Hne' Hm) as [Hsub Hnd]. split; [|done].
      intros e0 He0. right. by apply Hsub.
    + apply list_elem_of_fmap in Hm as (m' & -> & Hm').
      apply list_elem_of_filter in Hm' as [Ht Hm'].
      destruct (IH m' Hne' Hm') as [Hsub Hnd].
      apply touches_false in Ht as [Ht1 Ht2]. split.
      * intros e0 He0. apply elem_of_cons in He0 as [->|He0]; [by left|].
        right. by apply Hsub.
      * change (NoDup (e.1.1 :: e.1.2 :: (f ← m'; [f.1.1; f.1.2]))).
        apply NoDup_cons. split; [|by apply NoDup_cons].
        intros Hin. apply elem_of_cons in Hin as [Heq|Hin]; [|done].
        apply (Hne e); [by left|done].
Qed.

Lemma heaviest_elem (ms : list (list (string * string * float))) :
  Exhaustive.heaviest ms = [] \/ Exhaustive.heaviest ms ∈ ms.
Proof.
  unfold Exhaustive.heaviest.
  assert (H : forall best,
             let r := foldl (fun best m =>
                               if Exhaustive.weight best <? Exhaustive.weight m
                               then m else best) best ms in
             r = best \/ r ∈ ms).
  { induction ms as [|m ms IH]; intros best; simpl; [by left|].
    destruct (Exhaustive.weight best <? Exhaustive.weight m).
    - destruct (IH m) as [->|Hin]; right; [by left|by right].
    - destruct (IH best) as [->|Hin]; [by left|right; by right]. }
  apply H.
Qed.

Lemma exhaustive_is_matching (B : Graph) :
  is_matching_of B (Exhaustive.max_weight_matching B).
Proof.
  unfold Exhaustive.max_weight_matching.
  assert (Hm : (forall e, e ∈ Exhaustive.heaviest
                              (Exhaustive.matchings (Exhaustive.edges B)) ->
                          e ∈ Exhaustive.edges B)
               /\ NoDup (e ← Exhaustive.heaviest
                               (Exhaustive.matchings (Exhaustive.edges B));
                         [e.1.1; e.1.2])).
  { destruct (heaviest_elem (Exhaustive.matchings (Exhaustive.edges B)))
      as [->|Hin].
    - split; [|constructor]. intros e He. by apply elem_of_nil in He.
    - apply matchings_spec; [|done].
      intros e He. by apply exhaustive_edges_spec in He as [_ ?]. }
  destruct Hm as [Hsub Hnd]. split.
  - intros u v Huv. to_fmap.
    apply list_elem_of_fmap in Huv as ([[u' v'] w] & Heq & He).
    simpl in Heq. inversion Heq; subst.
    apply Hsub, exhaustive_edges_spec in He as [Hadj Hne]. by split.
  - to_fmap. by rewrite list_fmap_bind.
Qed.

(** ** One-to-one assignment above the threshold (C4) *)




(** ** Forced matches (C3) *)


Lemma Sb2_dense : dense Examples.Sb2.
Proof.
  intros r c. split.
  - intros [w Hw]. apply elem_of_list_to_map_2 in Hw. simpl.
    repeat (apply elem_of_cons in Hw as [Hw|Hw];
            [inversion Hw; subst; split; set_solver|]).
    by apply elem_of_nil in Hw.
  - intros [Hr Hc]. simpl in Hr, Hc.
    repeat (apply elem_of_cons in Hr as [->|Hr]);
      try (by apply elem_of_nil in Hr);
      repeat (apply elem_of_cons in Hc as [->|Hc]);
      try (by apply elem_of_nil in Hc); by eexists.
Qed.


Lemma no_edge_no_row (mwm : Graph -> list (string * string)) (B : Graph) :
  is_matching_of B (mwm B) -> adj B = ∅ -> mwm B = [].
Proof.
  intros [Hedge _] Hadj. destruct (mwm B) as [|[u v] M]; [done|].
  destruct (Hedge u v) as [_ [w Hw]]; [by left|].
  rewrite Hadj, lookup_empty in Hw. discriminate.
Qed.


(** *** A label on both axes *)





(** *** The matcher returns *)

Section MatcherReturns.

Variable max_weight_matching : Graph -> list (string * string).
Hypothesis matching_contract :
  forall B, is_matching_of B (max_weight_matching B).

(** On a dense matrix with different row and column labels, every one of
    which ends in a parenthesised id, and with forced pairs that name its
    columns, [max_match_similarity] raises nothing. *)
Lemma max_match_similarity_ok (Sb : Df.frame) (thr : float)
    (enforce_match : option (list (string * string))) (val : float) :
  dense Sb ->
  bipartite_labels Sb ->
  (forall f, f ∈ forced_pairs enforce_match -> f.2 ∈ Df.columns Sb) ->
  (forall n, n ∈ Df.index Sb \/ n ∈ Df.columns Sb ->
             exists id, name_number_to_id n = Ok id) ->
  exists rows,
    max_match_similarity max_weight_matching Sb thr enforce_match val = Ok rows.
Proof.
  intros Hd Hbip Hcols Hids. unfold max_match_similarity.
  assert (HT : exists T, enforce Sb enforce_match val = Ok T).
  { destruct enforce_match as [l|]; simpl; [by apply enforce_ok|by eexists]. }
  destruct HT as [T HT]. rewrite HT. simpl.
  destruct (enforce_frame _ _ _ _ HT) as (Hi & Hc & HdT & _ & _).
  destruct (adjacency_ok T thr (HdT Hd)) as [B HB]. rewrite HB. simpl.
  destruct (adjacency_spec _ _ _ HB) as (Hfrom & _ & HQ).
  destruct (rmap_ok (row_of_match Sb (Qset_of B)) (max_weight_matching B))
    as [rows0 ->]; [|simpl; by eexists].
  intros [u v] Hm.
  destruct (matching_contract B) as [Hedge _].
  destruct (Hedge u v Hm) as [_ Huv]. specialize (HQ u v Huv).
  assert (Hcell : forall q t, from_cell T thr q t ->
            exists w idq idt, Df.data Sb !! (q, t) = Some w
                              /\ name_number_to_id q = Ok idq
                              /\ name_number_to_id t = Ok idt).
  { intros q t (w & _ & _ & Hq & Ht). rewrite Hi in Hq. rewrite Hc in Ht.
    destruct (proj2 (Hd q t) (conj Hq Ht)) as [w' Hw'].
    destruct (Hids q (or_introl Hq)) as [idq Hidq].
    destruct (Hids t (or_intror Ht)) as [idt Hidt].
    by exists w', idq, idt. }
  unfold row_of_match, Df.loc. simpl.
  destruct (decide (u ∈ Qset_of B)) as [HuQ|HuQ].
  - apply HQ in HuQ as [Hui Huc].
    destruct (Hfrom u v Huv) as [Hf|(w & _ & _ & _ & Hcu)]; [|done].
    destruct (Hcell u v Hf) as (w & idq & idt & -> & -> & ->). simpl.
    by eexists.
  - destruct (Hfrom u v Huv) as [(w & _ & _ & Hui & _)|Hf].
    + exfalso. apply HuQ, HQ. split; [done|].
      rewrite Hc. apply Hbip. by rewrite <- Hi.
    + destruct (Hcell v u Hf) as (w & idq & idt & -> & -> & ->). simpl.
      by eexists.
Qed.

End MatcherReturns.

(** ** Labels decode to their ids *)

Lemma chars_app (s1 s2 : string) :
  String.list_ascii_of_string (s1 +:+ s2)
  = String.list_ascii_of_string s1 ++ String.list_ascii_of_string s2.
Proof. induction s1 as [|c s1 IH]; simpl; [done|]. by rewrite IH. Qed.

Lemma pretty_N_char_digit (d : N) :
  (d < 10)%N ->
  is_digit (pretty_N_char d) = true /\ digit_val (pretty_N_char d) = Z.of_N d.
Proof.
  intros Hd.
  assert (d = 0 \/ d = 1 \/ d = 2 \/ d = 3 \/ d = 4 \/ d = 5 \/ d = 6 \/ d = 7
          \/ d = 8 \/ d = 9)%N as H by lia.
  repeat (destruct H as [->|H]; [by split|]). subst. by split.
Qed.

Lemma pretty_N_go_digits (x : N) (s : string) :
  exists ds,
    String.list_ascii_of_string (pretty_N_go x s)
    = ds ++ String.list_ascii_of_string s
    /\ Forall (fun c => is_digit c = true) ds
    /\ (forall acc, parse_digits acc ds
                    = (acc * 10 ^ Z.of_nat (length ds) + Z.of_N x)%Z)
    /\ ((0 < x)%N -> ds ≠ []).
Proof.
  revert s. induction (N.lt_wf_0 x) as [x _ IH]. intros s.
  destruct (decide (x = 0)%N) as [->|Hx].
  - exists []. rewrite pretty_N_go_0. split; [done|]. split; [constructor|].
    split; [|lia]. intros acc. simpl. lia.
  - assert (0 < x)%N as Hpos by lia.
    rewrite pretty_N_go_step by done.
    destruct (IH (x `div` 10)%N (N.div_lt x 10 Hpos eq_refl)
                 (String (pretty_N_char (x `mod` 10)) s))
      as (ds & Hds & Hdig & Hval & _).
    destruct (pretty_N_char_digit (x `mod` 10)%N) as [Hc Hv].
    { by apply N.mod_lt. }
    exists (ds ++ [pretty_N_char (x `mod` 10)]). split; [|split; [|split]].
    + rewrite Hds. simpl. by rewrite <- app_assoc.
    + apply Forall_app. split; [done|]. by constructor.
    + intros acc. unfold parse_digits in *. rewrite foldl_app. simpl.
      rewrite Hval, Hv, length_app. simpl length.
      rewrite Nat2Z.inj_add, Z.pow_add_r by lia.
      pose proof (N.div_mod x 10 ltac:(done)) as Hdm.
      rewrite N2Z.inj_div, N2Z.inj_mod. simpl Z.of_N.
      assert (Z.of_N x = 10 * (Z.of_N x `div` 10) + Z.of_N x `mod` 10)%Z
        by (apply Z.div_mod; lia).
      change (10 ^ Z.of_nat 1)%Z with 10%Z. lia.
    + intros _. by destruct ds.
Qed.

Lemma pretty_Z_digits (id : Z) :
  (0 <= id)%Z ->
  exists ds,
    String.list_ascii_of_string (pretty id) = ds
    /\ Forall (fun c => is_digit c = true) ds
    /\ parse_digits 0 ds = id /\ ds ≠ [].
Proof.
  intros Hid. destruct id as [|p|p]; [|clear Hid|lia].
  - exists ["0"%char]. split; [done|]. split; [by repeat constructor|].
    by split.
  - unfold pretty, pretty_Z, pretty, pretty_positive, pretty, pretty_N.
    rewrite decide_False by done.
    destruct (pretty_N_go_digits (N.pos p) "") as (ds & Hds & Hdig & Hval & Hne).
    exists ds. simpl in Hds. rewrite app_nil_r in Hds.
    split; [done|]. split; [done|]. split; [|by apply Hne].
    rewrite Hval. simpl. lia.
Qed.

Lemma span_digits_app (ds rest : list ascii) :
  Forall (fun c => is_digit c = true) ds ->
  span_digits (ds ++ "("%char :: rest) = (ds, "("%char :: rest).
Proof.
  induction ds as [|c ds IH]; intros H; [done|].
  apply Forall_cons in H as [Hc Hds]. simpl. rewrite Hc, (IH Hds). done.
Qed.

(** A label made by [name_number] from a neuron with a non-negative id
    decodes to that id. *)
Lemma name_number_to_id_name_number (nrn : NeuronObj) :
  (0 <= nrn_id nrn)%Z ->
  name_number_to_id (name_number nrn) = Ok (nrn_id nrn).
Proof.
  intros Hid. unfold name_number_to_id, name_number.
  destruct (pretty_Z_digits _ Hid) as (ds & Hds & Hdig & Hval & Hne).
  rewrite !chars_app, Hds. simpl String.list_ascii_of_string.
  rewrite !reverse_app. simpl reverse at 1. simpl.
  rewrite <- !app_assoc. simpl.
  rewrite span_digits_app.
  - rewrite reverse_involutive. unfold int_of_digits.
    destruct ds; [done|]. by rewrite <- Hval.
  - by apply Forall_reverse.
Qed.

(** * Further properties of the module *)

(** ** Facts of float comparison and division *)

Lemma infinity_ltb (m : float) : (infinity <? m) = false.
Proof.
  rewrite ltb_spec. change (Prim2SF infinity) with (S754_infinity false).
  by destruct (Prim2SF m) as [[]|[]| |[] ? ?].
Qed.

Lemma ltb_nan_r (x : float) : (x <? nan) = false.
Proof.
  rewrite ltb_spec. change (Prim2SF nan) with S754_nan.
  by destruct (Prim2SF x) as [[]|[]| |[] ? ?].
Qed.

Lemma nan_ltb (x : float) : (nan <? x) = false.
Proof. rewrite ltb_spec. by change (Prim2SF nan) with S754_nan. Qed.

(** Zero divided by anything is a zero or NaN. *)
Lemma zero_div (rd : float) : 0 / rd = 0 \/ 0 / rd = -0 \/ 0 / rd = nan.
Proof.
  pose proof (div_spec 0 rd) as H.
  rewrite <- (SF2Prim_Prim2SF (0 / rd)), H.
  change (Prim2SF 0) with (S754_zero false).
  destruct (Prim2SF rd) as [[]|[]| |[] ? ?]; vm_compute; auto.
Qed.

(** ** Scoring without a proximity bound *)


(** ** The orientation estimate is not read without a proximity bound *)

Lemma dotprop_path_points (ld : list point -> nat -> point -> point)
    (xyz : list point) (rd : float) (nn : nat) :
  rfmap (map dp_xyz) (dotprop_path ld xyz rd nn) = interpolate_path xyz rd.
Proof.
  unfold dotprop_path. destruct (interpolate_path xyz rd) as [xyzi|e]; [|done].
  simpl. f_equal. rewrite map_map. simpl. apply map_id.
Qed.

Lemma dotprop_paths_points (ld ld' : list point -> nat -> point -> point)
    (nrn : NeuronObj) (pths : list (list Z)) (rd : float) (nn : nat) :
  rfmap (map (map dp_xyz)) (dotprop_paths ld nrn pths rd nn)
  = rfmap (map (map dp_xyz)) (dotprop_paths ld' nrn pths rd nn).
Proof.
  induction pths as [|pth pths IH]; [done|]. simpl.
  destruct (0 <? length pth)%nat; [|done].
  destruct (rmap _ pth) as [xyz|e]; [|done]. simpl.
  pose proof (dotprop_path_points ld xyz rd nn) as H.
  pose proof (dotprop_path_points ld' xyz rd nn) as H'.
  rewrite <- H' in H. clear H'.
  destruct (dotprop_path ld xyz rd nn) as [d|e],
           (dotprop_path ld' xyz rd nn) as [d'|e'];
    simpl in *; try congruence.
  injection H as H.
  destruct (dotprop_paths ld nrn pths rd nn) as [ds|e],
           (dotprop_paths ld' nrn pths rd nn) as [ds'|e'];
    simpl in *; try congruence.
Qed.

Lemma stack_paths_points (ld ld' : list point -> nat -> point -> point)
    (nrn : NeuronObj) (pths : list (list Z)) (rd : float) (nn : nat) :
  rfmap (map dp_xyz) (stack_paths ld nrn pths rd nn)
  = rfmap (map dp_xyz) (stack_paths ld' nrn pths rd nn).
Proof.
  unfold stack_paths. pose proof (dotprop_paths_points ld ld' nrn pths rd nn) as H.
  destruct (dotprop_paths ld nrn pths rd nn) as [ds|e],
           (dotprop_paths ld' nrn pths rd nn) as [ds'|e'];
    simpl in *; try congruence.
  injection H as H.
  assert (length ds = length ds') as Hlen.
  { apply (f_equal length) in H. by rewrite !length_map in H. }
  rewrite Hlen. destruct (0 <? length ds')%nat; [|done]. simpl. f_equal.
  rewrite !concat_map. by rewrite H.
Qed.

Lemma neuron_to_dotprop_points (ld ld' : list point -> nat -> point -> point)
    (nrn : NeuronObj) (rd : float) (nn : nat) (ms : option Z) :
  rfmap (map dp_xyz) (neuron_to_dotprop ld nrn rd nn ms)
  = rfmap (map dp_xyz) (neuron_to_dotprop ld' nrn rd nn ms).
Proof.
  unfold neuron_to_dotprop. destruct ms as [ms|]; [|apply stack_paths_points].
  destruct (np_max_list _) as [mx|e]; [|done]. simpl.
  destruct (mx <? ms)%Z; [done|].
  destruct (rmap _ (minimal_paths nrn)) as [pths|e]; [|done]. simpl.
  apply stack_paths_points.
Qed.

Lemma components_orientation_free
    (ld ld' : list point -> nat -> point -> point) (source_nrn target_nrn : nrn_arg)
    (rd : float) (nn : nat) :
  neuron_comparison_nblast_components ld source_nrn target_nrn rd nn false None
  = neuron_comparison_nblast_components ld' source_nrn target_nrn rd nn false None.
Proof.
  unfold neuron_comparison_nblast_components.
  destruct source_nrn as [s|s]; [|reflexivity].
  cbn -[neuron_to_dotprop KDTree.query_all].
  pose proof (neuron_to_dotprop_points ld ld' s rd nn None) as Hs.
  destruct (neuron_to_dotprop ld s rd nn None) as [sd|e],
           (neuron_to_dotprop ld' s rd nn None) as [sd'|e'];
    cbn -[neuron_to_dotprop KDTree.query_all] in *; try congruence.
  injection Hs as Hs.
  destruct target_nrn as [t|t]; [|reflexivity].
  cbn -[neuron_to_dotprop KDTree.query_all].
  pose proof (neuron_to_dotprop_points ld ld' t rd nn None) as Ht.
  destruct (neuron_to_dotprop ld t rd nn None) as [td|e],
           (neuron_to_dotprop ld' t rd nn None) as [td'|e'];
    cbn -[neuron_to_dotprop KDTree.query_all] in *; try congruence.
  injection Ht as Ht. rewrite Hs, Ht.
  destruct (Py.min _) as [m|e]; [|done].
  cbn -[KDTree.query_all]. by rewrite infinity_ltb.
Qed.

(** X2.  The pair score of two neurons does not depend on the orientation
    estimate of [dotprop_path]: the tangent vectors of the dotprops are
    computed and never read, in every mode of [nblast_neuron_pair]. *)
Theorem nblast_neuron_pair_orientation_free
    (ld ld' : list point -> nat -> point -> point) (nrn_q nrn_t : nrn_arg)
    (score_lookup : ScoreMatrixLookup) (resample_distance : float)
    (num_nn : nat) (bidirectional normalize : bool) :
  nblast_neuron_pair ld nrn_q nrn_t score_lookup resample_distance num_nn
    bidirectional normalize
  = nblast_neuron_pair ld' nrn_q nrn_t score_lookup resample_distance num_nn
      bidirectional normalize.
Proof.
  unfold nblast_neuron_pair.
  rewrite (components_orientation_free ld ld' nrn_q nrn_t).
  destruct (neuron_comparison_nblast_components ld' nrn_q nrn_t _ _ _ _)
    as [c|e]; [|done].
  simpl. destruct (nblast_dist_fun c score_lookup) as [Sa|e]; [|done]. simpl.
  destruct bidirectional; [|done].
  by rewrite (components_orientation_free ld ld' nrn_t nrn_q).
Qed.

(** *** The batch *)

Lemma components_points_only (ld ld' : list point -> nat -> point -> point)
    (s s' t t' : dotprop) (rd rd' : float) (nn nn' : nat) :
  same_points s s' -> same_points t t' ->
  neuron_comparison_nblast_components ld (Dp s) (Dp t) rd nn true None
  = neuron_comparison_nblast_components ld' (Dp s') (Dp t') rd' nn' true None.
Proof.
  unfold same_points, neuron_comparison_nblast_components. intros Hs Ht.
  cbn -[KDTree.query_all]. rewrite Hs, Ht.
  destruct (Py.min _) as [m|e]; [|done].
  cbn -[KDTree.query_all]. by rewrite infinity_ltb.
Qed.

Lemma worker_points_only (ld ld' : list point -> nat -> point -> point)
    (q q' t t' : dotprop) (sl : ScoreMatrixLookup) (rd : float) (nn : nat)
    (normalize : bool) :
  same_points q q' -> same_points t t' ->
  _nblast_neuron_pair_for_mp ld (q, t, sl, rd, nn, normalize, None)
  = _nblast_neuron_pair_for_mp ld' (q', t', sl, rd, nn, normalize, None).
Proof.
  intros Hq Ht. unfold _nblast_neuron_pair_for_mp.
  assert (length q = length q') as ->.
  { apply (f_equal length) in Hq. by rewrite !length_map in Hq. }
  assert (length t = length t') as ->.
  { apply (f_equal length) in Ht. by rewrite !length_map in Ht. }
  by rewrite (components_points_only ld ld' q q' t t' rd rd nn nn Hq Ht).
Qed.

Lemma rmap_neuron_to_dotprop_points
    (ld ld' : list point -> nat -> point -> point) (l : list NeuronObj)
    (rd : float) (nn : nat) (ms : option Z) :
  rrel (Forall2 same_points)
       (rmap (fun nrn => neuron_to_dotprop ld nrn rd nn ms) l)
       (rmap (fun nrn => neuron_to_dotprop ld' nrn rd nn ms) l).
Proof.
  induction l as [|n l IH]; [by constructor|].
  cbn -[neuron_to_dotprop].
  pose proof (neuron_to_dotprop_points ld ld' n rd nn ms) as Hn.
  destruct (neuron_to_dotprop ld n rd nn ms) as [d|e],
           (neuron_to_dotprop ld' n rd nn ms) as [d'|e'];
    cbn -[neuron_to_dotprop] in *; try congruence.
  injection Hn as Hn.
  destruct (rmap _ l) as [ds|e], (rmap _ l) as [ds'|e'];
    cbn -[neuron_to_dotprop] in *; try done.
  by constructor.
Qed.

Lemma dotprops_by_id_points (l : list NeuronObj) (dps dps' : list dotprop)
    (m m' : gmap Z dotprop) (k : Z) :
  Forall2 same_points dps dps' ->
  (forall k, option_Forall2 same_points (m !! k) (m' !! k)) ->
  option_Forall2 same_points
    (foldl (fun m nd => <[nrn_id nd.1 := nd.2]> m) m (zip l dps) !! k)
    (foldl (fun m nd => <[nrn_id nd.1 := nd.2]> m) m' (zip l dps') !! k).
Proof.
  intros Hdps. revert l m m'.
  induction Hdps as [|d d' dps dps' Hd Hdps IH]; intros l m m' Hm.
  - destruct l; apply Hm.
  - destruct l as [|n l]; [apply Hm|]. simpl. apply IH. intros j.
    destruct (decide (nrn_id n = j)) as [->|Hne].
    + rewrite !lookup_insert_eq. by constructor.
    + rewrite !lookup_insert_ne by done. apply Hm.
Qed.

Lemma same_labelled_refl (l : list (string * dotprop)) :
  Forall2 same_labelled l l.
Proof. induction l; constructor; [by split|done]. Qed.

Lemma rrel_refl {A : Type} (R : A -> A -> Prop) (r : result A) :
  (forall a, R a a) -> rrel R r r.
Proof. intros HR. destruct r; simpl; auto. Qed.

Lemma side_dotprops_points (ld ld' : list point -> nat -> point -> point)
    (nrns : nrns_arg) (rd : float) (nn : nat) (ms : option Z) (asd : bool) :
  rrel (Forall2 same_labelled)
       (side_dotprops ld nrns rd nn ms asd) (side_dotprops ld' nrns rd nn ms asd).
Proof.
  unfold side_dotprops. destruct asd.
  { apply rrel_refl, same_labelled_refl. }
  destruct (as_neuron_list nrns) as [l|e]; [|done].
  cbn -[neuron_to_dotprop].
  pose proof (rmap_neuron_to_dotprop_points ld ld' l rd nn ms) as Hd.
  destruct (rmap _ l) as [dps|e], (rmap _ l) as [dps'|e'];
    cbn -[neuron_to_dotprop] in *; try done.
  pose proof (fun k => dotprops_by_id_points l dps dps' ∅ ∅ k Hd
                         (fun j => ltac:(rewrite !lookup_empty; constructor)))
    as Hid.
  fold (dotprops_by_id l dps) in Hid. fold (dotprops_by_id l dps') in Hid.
  generalize dependent (dotprops_by_id l dps').
  generalize (dotprops_by_id l dps). clear. intros m m' Hm.
  induction l as [|n l IH]; [by constructor|]. simpl.
  destruct (Hm (nrn_id n)) as [d d' Hdd|]; [|done]. simpl.
  destruct (rmap _ l) as [r|e], (rmap _ l) as [r'|e']; simpl in *; try done.
  constructor; [by split|done].
Qed.

Lemma pair_args_points (ld ld' : list point -> nat -> point -> point)
    (sl : ScoreMatrixLookup) (rd : float) (nn : nat) (normalize : bool)
    (qs qs' ts ts' : list (string * dotprop)) :
  Forall2 same_labelled qs qs' -> Forall2 same_labelled ts ts' ->
  Forall2 (fun a b : string * string * mp_input =>
             a.1 = b.1
             /\ _nblast_neuron_pair_for_mp ld a.2
                = _nblast_neuron_pair_for_mp ld' b.2)
    (q ← qs; t ← ts; [(q.1, t.1, (q.2, t.2, sl, rd, nn, normalize, None))])
    (q ← qs'; t ← ts'; [(q.1, t.1, (q.2, t.2, sl, rd, nn, normalize, None))]).
Proof.
  intros Hq Ht. induction Hq as [|q q' qs qs' [Hq1 Hq2] Hqs IH]; [constructor|].
  cbn [mbind list_bind]. apply Forall2_app; [|apply IH].
  clear IH Hqs. induction Ht as [|t t' ts ts' [Ht1 Ht2] Hts IH]; [constructor|].
  cbn [mbind list_bind app]. constructor; [|apply IH].
  simpl. split; [by rewrite Hq1, Ht1|]. by apply worker_points_only.
Qed.

Lemma rows_points (ld ld' : list point -> nat -> point -> point)
    (A B : list (string * string * mp_input)) :
  Forall2 (fun a b : string * string * mp_input =>
             a.1 = b.1
             /\ _nblast_neuron_pair_for_mp ld a.2
                = _nblast_neuron_pair_for_mp ld' b.2) A B ->
  (similarities ← rmap (fun a => _nblast_neuron_pair_for_mp ld a.2) A;
   Ok (zip_with (fun a S => (a.1.1, a.1.2, S)) A similarities))
  = (similarities ← rmap (fun a => _nblast_neuron_pair_for_mp ld' a.2) B;
     Ok (zip_with (fun a S => (a.1.1, a.1.2, S)) B similarities)).
Proof.
  induction 1 as [|a b A B [Hab Hw] HAB IH]; [done|].
  cbn -[_nblast_neuron_pair_for_mp]. rewrite Hw.
  destruct (_nblast_neuron_pair_for_mp ld' b.2) as [s|e]; [|done].
  cbn -[_nblast_neuron_pair_for_mp] in *.
  destruct (rmap _ A) as [sa|e], (rmap _ B) as [sb|e'];
    cbn -[_nblast_neuron_pair_for_mp] in *; congruence.
Qed.

Lemma nblast_neurons_orientation_free
    (ld ld' : list point -> nat -> point -> point) (sl : ScoreMatrixLookup)
    (nrns_q : nrns_arg) (nrns_t : option nrns_arg) (rd : float) (nn : nat)
    (ms : option Z) (normalize asd : bool) :
  nblast_neurons ld sl nrns_q nrns_t rd nn ms normalize None asd
  = nblast_neurons ld' sl nrns_q nrns_t rd nn ms normalize None asd.
Proof.
  unfold nblast_neurons.
  pose proof (side_dotprops_points ld ld' nrns_q rd nn ms asd) as Hq.
  destruct (side_dotprops ld nrns_q rd nn ms asd) as [qs|e],
           (side_dotprops ld' nrns_q rd nn ms asd) as [qs'|e'];
    cbn -[_nblast_neuron_pair_for_mp side_dotprops] in *; try done;
    [|congruence].
  destruct nrns_t as [nrns_t|].
  - pose proof (side_dotprops_points ld ld' nrns_t rd nn ms asd) as Ht.
    destruct (side_dotprops ld nrns_t rd nn ms asd) as [ts|e],
             (side_dotprops ld' nrns_t rd nn ms asd) as [ts'|e'];
      cbn -[_nblast_neuron_pair_for_mp side_dotprops] in *; try done;
      [|congruence].
    by apply rows_points, pair_args_points.
  - cbn -[_nblast_neuron_pair_for_mp side_dotprops].
    by apply rows_points, pair_args_points.
Qed.

(** X3.  The similarity matrix of [exact_nblast] does not depend on the
    orientation estimate either: with its fixed [max_proximity=None] every
    pair is scored from nearest-neighbour distances alone, whatever the
    other arguments are. *)
Theorem exact_nblast_orientation_free
    (ld ld' : list point -> nat -> point -> point)
    (filter_neurons_by_length : nrns_arg -> float -> result nrns_arg)
    (score_lookup : ScoreMatrixLookup) (nrns_q nrns_t : nrns_arg)
    (resample_distance : float) (num_nn : nat) (max_proximity : option float)
    (min_strahler : option Z) (min_length : option float) (as_dotprop : bool) :
  exact_nblast ld filter_neurons_by_length score_lookup nrns_q nrns_t
    resample_distance num_nn max_proximity min_strahler min_length as_dotprop
  = exact_nblast ld' filter_neurons_by_length score_lookup nrns_q nrns_t
      resample_distance num_nn max_proximity min_strahler min_length as_dotprop.
Proof.
  unfold exact_nblast.
  destruct (match min_length with
            | Some len => filter_neurons_by_length nrns_q len
            | None => Ok nrns_q
            end) as [q|e]; [|done].
  cbn -[nblast_neurons].
  destruct (match min_length with
            | Some len => filter_neurons_by_length nrns_t len
            | None => Ok nrns_t
            end) as [t|e]; [|done].
  cbn -[nblast_neurons].
  rewrite (nblast_neurons_orientation_free ld ld' score_lookup q (Some t)).
  destruct (nblast_neurons ld' score_lookup q (Some t) _ _ _ _ _ _)
    as [Sqt_long|e]; [|done].
  cbn -[nblast_neurons]. destruct (Df.pivot Sqt_long) as [Sqt|e]; [|done].
  cbn -[nblast_neurons].
  by rewrite (nblast_neurons_orientation_free ld ld' score_lookup t (Some q)).
Qed.

(** ** Labels and ids *)

Lemma span_digits_stop (ds rest : list ascii) (c : ascii) :
  Forall (fun c => is_digit c = true) ds -> is_digit c = false ->
  span_digits (ds ++ c :: rest) = (ds, c :: rest).
Proof.
  induction ds as [|d ds IH]; intros H Hc; simpl.
  - by rewrite Hc.
  - apply Forall_cons in H as [Hd Hds]. by rewrite Hd, (IH Hds Hc).
Qed.

Lemma name_number_negative_id (nrn : NeuronObj) :
  (nrn_id nrn < 0)%Z ->
  name_number_to_id (name_number nrn) = Raise AttributeError.
Proof.
  intros Hid. unfold name_number_to_id, name_number.
  destruct (nrn_id nrn) as [|p|p] eqn:Hp; [lia|lia|].
  destruct (pretty_Z_digits (Z.pos p) ltac:(lia)) as (ds & Hds & Hdig & _ & _).
  rewrite !chars_app.
  change (pretty (Z.neg p)) with ("-" +:+ pretty (Z.pos p))%string.
  rewrite chars_app, Hds. simpl String.list_ascii_of_string.
  rewrite !reverse_app. simpl reverse at 1. simpl.
  rewrite <- !app_assoc. simpl.
  rewrite (span_digits_stop (reverse ds) _ "-"%char); [done| |done].
  by apply Forall_reverse.
Qed.

(** X4.  A label made by [name_number] decodes to the neuron's id exactly
    when the id is not negative, whatever the neuron's name is; the label of
    a neuron with a negative id matches no id pattern and decoding fails
    with [AttributeError]. *)
Theorem name_number_decodes_iff_id_not_negative (nrn : NeuronObj) :
  name_number_to_id (name_number nrn)
  = if decide (0 <= nrn_id nrn)%Z then Ok (nrn_id nrn)
    else Raise AttributeError.
Proof.
  destruct (decide (0 <= nrn_id nrn)%Z) as [Hid|Hid].
  - by apply name_number_to_id_name_number.
  - apply name_number_negative_id. lia.
Qed.

(** ** Lookups in the score table *)

Lemma bisect_le (a : list float) (x : float) : (Py.bisect a x <= length a)%nat.
Proof.
  induction a as [|e a IH]; simpl; [lia|]. destruct (x <? e); simpl; lia.
Qed.

Lemma bisect_past_all (a : list float) (x : float) :
  (forall e, (x <? e) = false) -> Py.bisect a x = length a.
Proof.
  intros Hx. induction a as [|e a IH]; [done|]. simpl. by rewrite Hx, IH.
Qed.

Lemma table_cell (m : list (list float)) (n k i j : nat) :
  length m = (n + 1)%nat -> Forall (fun row => length row = (k + 1)%nat) m ->
  (i <= n)%nat -> (j <= k)%nat ->
  exists v, (row ← m !! i; row !! j) = Some v.
Proof.
  intros Hm Hrows Hi Hj.
  destruct (lookup_lt_is_Some_2 m i ltac:(lia)) as [row Hrow].
  rewrite Hrow. simpl.
  assert (length row = (k + 1)%nat) as Hlen.
  { rewrite Forall_forall in Hrows. eapply Hrows, list_elem_of_lookup_2, Hrow. }
  destruct (lookup_lt_is_Some_2 row j ltac:(lia)) as [v Hv]. by exists v.
Qed.

(** X5.  A score table with one more row than distance boundaries and one
    more column than alignment boundaries answers every lookup: no pair of
    floats, NaN and the infinities included, indexes outside it. *)
Theorem score_never_out_of_range (sl : ScoreMatrixLookup) (d udotv : float) :
  length (mat sl) = (length (d_range sl) + 1)%nat ->
  Forall (fun row => length row = (length (udotv_range sl) + 1)%nat) (mat sl) ->
  exists v, score sl d udotv = Ok v.
Proof.
  intros Hm Hrows. unfold score.
  destruct (table_cell (mat sl) _ _ (Py.bisect (d_range sl) d)
              (Py.bisect (udotv_range sl) udotv) Hm Hrows) as [v Hv].
  - apply bisect_le.
  - apply bisect_le.
  - exists v. by rewrite Hv.
Qed.

Lemma score_never_out_of_range_witness :
  exists v, score Examples.table 0x1.8p+1 nan = Ok v.
Proof.
  apply (score_never_out_of_range Examples.table 0x1.8p+1 nan).
  - reflexivity.
  - vm_compute. repeat constructor.
Defined.

(** X6.  A distance that is NaN or plus infinity (the nearest-neighbour
    answer when nothing is found) is scored from the row after the last
    distance boundary, not rejected. *)
Theorem score_of_unmatched_distance (sl : ScoreMatrixLookup) (d udotv : float) :
  d = nan \/ d = infinity ->
  score sl d udotv
  = of_option IndexError
      (row ← mat sl !! length (d_range sl);
       row !! Py.bisect (udotv_range sl) udotv).
Proof.
  intros Hd. unfold score. rewrite (bisect_past_all (d_range sl) d); [done|].
  intros e. destruct Hd as [->| ->]; [apply nan_ltb|apply infinity_ltb].
Qed.

Lemma score_of_unmatched_distance_witness :
  score Examples.table infinity 1
  = of_option IndexError
      (row ← mat Examples.table !! length (d_range Examples.table);
       row !! Py.bisect (udotv_range Examples.table) 1).
Proof.
  apply (score_of_unmatched_distance Examples.table infinity 1). by right.
Defined.

(** ** Building the score table *)

Lemma slice_inner_snoc {A : Type} (l : list A) (x : A) :
  slice_inner (l ++ [x]) = drop 1 l.
Proof.
  unfold slice_inner. rewrite length_app. simpl.
  replace (length l + 1 - 1)%nat with (length l) by lia.
  by rewrite take_app_length.
Qed.

(** X7.  The boundaries of an axis are the lower bounds of its bin labels
    without the first one: neither the first lower bound nor the infinity
    appended after the last one is kept, and a label that cannot be read
    fails the whole axis. *)
Theorem process_range_values_drops_first_bound
    (py_float : string -> result float) (range_list : list string) :
  process_range_values py_float range_list
  = rfmap (drop 1) (rmap (range_low py_float) range_list).
Proof.
  unfold process_range_values.
  destruct (rmap (range_low py_float) range_list) as [lows|e]; [|done].
  simpl. f_equal. apply slice_inner_snoc.
Qed.

Lemma process_range_values_length (py_float : string -> result float)
    (range_list : list string) (r : list float) :
  process_range_values py_float range_list = Ok r ->
  length r = (length range_list - 1)%nat.
Proof.
  unfold process_range_values. intros H.
  destruct (rmap (range_low py_float) range_list) as [lows|e] eqn:Hl;
    [|discriminate].
  simpl in H. injection H as <-.
  rewrite slice_inner_snoc, length_drop. by rewrite (rmap_length _ _ _ Hl).
Qed.

(** X8.  A table read from a data frame with at least one row and one
    column answers every lookup: the frame has exactly one more row and
    column than the boundaries made from its labels. *)
Theorem from_dataframe_lookup_total (py_float : string -> result float)
    (df : Df.frame) (sl : ScoreMatrixLookup) (d udotv : float) :
  from_dataframe py_float df = Ok sl ->
  Df.index df <> [] -> Df.columns df <> [] ->
  exists v, score sl d udotv = Ok v.
Proof.
  unfold from_dataframe, new_ScoreMatrixLookup. intros H Hi Hc.
  destruct (process_range_values py_float (Df.index df)) as [dr|e] eqn:Hdr;
    [|discriminate].
  destruct (process_range_values py_float (Df.columns df)) as [ur|e] eqn:Hur;
    [|discriminate].
  simpl in H. injection H as <-. unfold score. simpl.
  apply process_range_values_length in Hdr, Hur.
  destruct (table_cell (values df) (length dr) (length ur)
              (Py.bisect dr d) (Py.bisect ur udotv)) as [v Hv].
  - unfold values. rewrite length_map, Hdr.
    destruct (Df.index df); [done|simpl; lia].
  - unfold values. apply Forall_forall. intros row Hrow.
    to_fmap. apply list_elem_of_fmap in Hrow as (r & -> & _).
    rewrite length_fmap, Hur. destruct (Df.columns df); [done|simpl; lia].
  - apply bisect_le.
  - apply bisect_le.
  - exists v. by rewrite Hv.
Qed.

Lemma from_dataframe_lookup_total_witness :
  exists sl, from_dataframe Examples.float_of_numeral Examples.score_frame = Ok sl
             /\ exists v, score sl 1500 nan = Ok v.
Proof.
  eexists. split; [vm_compute; reflexivity|].
  eapply (from_dataframe_lookup_total Examples.float_of_numeral
            Examples.score_frame _ 1500 nan).
  - vm_compute. reflexivity.
  - done.
  - done.
Defined.

(** ** Point scores and the pair score *)

Lemma components_length (ld : list point -> nat -> point -> point)
    (source_dp target_dp : dotprop) (rd : float) (nn : nat)
    (max_proximity : option float) (comps : list (float * float)) :
  neuron_comparison_nblast_components ld (Dp source_dp) (Dp target_dp)
    rd nn true max_proximity = Ok comps ->
  length comps = length source_dp.
Proof.
  rewrite components_as_dotprop. intros H.
  destruct (Py.min _) as [m|e]; [|discriminate]. simpl in H.
  assert (length (nearest source_dp target_dp) = length source_dp) as Hn.
  { unfold KDTree.query_all. by rewrite !length_map. }
  destruct (default infinity max_proximity <? m).
  - unfold matched_udotv in H. apply rmap_length in H.
    rewrite H, length_zip_with. lia.
  - injection H as <-. unfold ones_udotv. by rewrite length_map.
Qed.

Lemma dist_fun_sums_local (sl : ScoreMatrixLookup)
    (comps : list (float * float)) (ss : list float) (acc : float) :
  rmap (fun row => score sl row.1 row.2) comps = Ok ss ->
  rfold (fun S row => s ← score sl row.1 row.2; Ok (S + s)) comps acc
  = Ok (foldl PrimFloat.add acc ss).
Proof.
  revert ss acc. induction comps as [|c comps IH]; intros ss acc H; simpl in *.
  - by injection H as <-.
  - destruct (score sl c.1 c.2) as [s|e]; [|discriminate]. simpl in *.
    destruct (rmap _ comps) as [ss'|e]; [|discriminate]. simpl in H.
    injection H as <-. simpl. by apply IH.
Qed.

(** X9.  [point_cloud_nblast] returns one row per point of the query
    dotprop, at that point's position, and the raw pair score
    [nblast_dist_fun] of the same comparison is the sum, in order, of the
    point scores of these rows. *)
Theorem point_cloud_nblast_rows (ld : list point -> nat -> point -> point)
    (nrn_q_dotprop nrn_t_dotprop : dotprop) (score_lookup : ScoreMatrixLookup)
    (max_proximity : option float) (rows : list (point * float)) :
  point_cloud_nblast ld nrn_q_dotprop nrn_t_dotprop score_lookup max_proximity
  = Ok rows ->
  map fst rows = map dp_xyz nrn_q_dotprop
  /\ exists d_and_udotv,
       neuron_comparison_nblast_components ld (Dp nrn_q_dotprop)
         (Dp nrn_t_dotprop) 1000 5 true max_proximity = Ok d_and_udotv
       /\ nblast_dist_fun d_and_udotv score_lookup
          = Ok (Py.fsum (map snd rows)).
Proof.
  unfold point_cloud_nblast. intros H.
  destruct (neuron_comparison_nblast_components _ _ _ _ _ _ _)
    as [comps|e] eqn:Hc; [|discriminate].
  cbn [mbind result_bind] in H.
  destruct (nblast_dist_fun_local comps score_lookup) as [ss|e] eqn:Hs;
    [|discriminate].
  cbn [mbind result_bind] in H. unfold hstack_column in H.
  destruct (decide _) as [Hlen|]; [|discriminate]. injection H as <-.
  change (map fst (zip ?l ?k)) with ((zip l k).*1).
  change (map snd (zip ?l ?k)) with ((zip l k).*2).
  rewrite fst_zip, snd_zip by (rewrite Hlen; done). split; [done|].
  exists comps. split; [done|]. by apply dist_fun_sums_local.
Qed.

Lemma point_cloud_nblast_rows_witness :
  map fst [((0, 0, 0), -1); ((0, 5, 0), -1)] = map dp_xyz Examples.src_dp2
  /\ exists d_and_udotv,
       neuron_comparison_nblast_components (fun _ _ p => p)
         (Dp Examples.src_dp2) (Dp Examples.tgt_dp2) 1000 5 true (Some 1)
       = Ok d_and_udotv
       /\ nblast_dist_fun d_and_udotv Examples.table2
          = Ok (Py.fsum (map snd [((0, 0, 0), -1); ((0, 5, 0), -1)])).
Proof.
  apply (point_cloud_nblast_rows (fun _ _ p => p) Examples.src_dp2
           Examples.tgt_dp2 Examples.table2 (Some 1)).
  vm_compute. reflexivity.
Defined.

(** ** Degenerate paths *)

Lemma dotprop_paths_all_empty (ld : list point -> nat -> point -> point)
    (nrn : NeuronObj) (pths : list (list Z)) (rd : float) (nn : nat) :
  Forall (fun pth => pth = []) pths ->
  dotprop_paths ld nrn pths rd nn = Ok [].
Proof.
  induction 1 as [|pth pths -> _ IH]; [done|]. simpl. apply IH.
Qed.

(** X10.  A neuron none of whose minimal paths has a node (in particular
    one with no path at all) gets the one-row NaN dotprop, without any
    Strahler threshold and without its node locations being read. *)
Theorem neuron_without_nodes_gets_nan_dotprop
    (ld : list point -> nat -> point -> point) (nrn : NeuronObj)
    (resample_distance : float) (num_nn : nat) :
  Forall (fun pth => pth = []) (minimal_paths nrn) ->
  neuron_to_dotprop ld nrn resample_distance num_nn None = Ok nan_dotprop.
Proof.
  intros H. unfold neuron_to_dotprop, stack_paths.
  by rewrite (dotprop_paths_all_empty ld nrn _ _ _ H).
Qed.

Lemma neuron_without_nodes_gets_nan_dotprop_witness :
  neuron_to_dotprop (fun _ _ p => p)
    {| nrn_id := 7; nrn_name := "empty"; minimal_paths := [[]; []];
       strahler_number := ∅; nodeloc := ∅; soma_location := (0, 0, 0) |}
    1000 5 None
  = Ok nan_dotprop.
Proof.
  apply (neuron_without_nodes_gets_nan_dotprop (fun _ _ p => p)
           {| nrn_id := 7; nrn_name := "empty"; minimal_paths := [[]; []];
              strahler_number := ∅; nodeloc := ∅; soma_location := (0, 0, 0) |}
           1000 5).
  repeat constructor.
Defined.

(** X11.  [interpolate_path] of a path without points raises [ValueError]
    for every resample distance; a path of one point is returned as it is,
    unless the resample distance is zero or NaN, where the NaN sample count
    raises [ValueError]. *)
Theorem interpolate_path_short_paths (p : point) (resample_distance : float) :
  interpolate_path [] resample_distance = Raise ValueError
  /\ interpolate_path [p] resample_distance
     = if PrimFloat.is_nan (0 / resample_distance) then Raise ValueError
       else Ok [p].
Proof.
  unfold interpolate_path, path_length, cumlen_of. simpl.
  destruct p as [[x y] z].
  destruct (zero_div resample_distance) as [H|[H|H]]; rewrite H.
  - split; reflexivity.
  - split; reflexivity.
  - split; reflexivity.
Qed.

(** ** Rows of the batch *)

Lemma rmap_project {A B C : Type} (f : A -> result B) (g : B -> C) (h : A -> C)
    (l : list A) (ys : list B) :
  (forall x y, f x = Ok y -> g y = h x) ->
  rmap f l = Ok ys -> map g ys = map h l.
Proof.
  intros Hf. revert ys. induction l as [|x l IH]; intros ys H; simpl in H.
  - by injection H as <-.
  - destruct (f x) as [y|e] eqn:Hy; [|discriminate]. simpl in H.
    destruct (rmap f l) as [ys'|e]; [|discriminate]. simpl in H.
    injection H as <-. simpl. by rewrite (Hf x y Hy), (IH ys').
Qed.

Lemma side_dotprops_names (ld : list point -> nat -> point -> point)
    (l : list NeuronObj) (rd : float) (nn : nat) (ms : option Z)
    (qs : list (string * dotprop)) :
  side_dotprops ld (NeuronList l) rd nn ms false = Ok qs ->
  map fst qs = map name_number l.
Proof.
  unfold side_dotprops. cbn -[neuron_to_dotprop]. intros H.
  destruct (rmap _ l) as [dps|e]; [|discriminate].
  cbn -[neuron_to_dotprop] in H.
  revert H. apply rmap_project. intros n y Hy.
  destruct (dotprops_by_id l dps !! nrn_id n); [|discriminate].
  simpl in Hy. by injection Hy as <-.
Qed.

Lemma pair_args_names {X : Type} (qs ts : list (string * dotprop))
    (arg : string * dotprop -> string * dotprop -> X) :
  map (fun a : string * string * X => (a.1.1, a.1.2))
      (q ← qs; t ← ts; [(q.1, t.1, arg q t)])
  = (q ← map fst qs; t ← map fst ts; [(q, t)]).
Proof.
  induction qs as [|q qs IH]; [done|].
  cbn [mbind list_bind map]. rewrite map_app, IH. f_equal.
  clear IH. induction ts as [|t ts IH]; [done|].
  cbn [mbind list_bind map app]. simpl. f_equal. apply IH.
Qed.

Lemma zip_with_keys {A B C K : Type} (f : A -> B -> K * C) (key : A -> K)
    (l : list A) (k : list B) :
  (forall a b, (f a b).1 = key a) -> length k = length l ->
  map fst (zip_with f l k) = map key l.
Proof.
  intros Hf. revert k. induction l as [|a l IH]; intros [|b k] Hlen; try done.
  simpl. rewrite Hf. f_equal. apply IH. simpl in Hlen. lia.
Qed.

Lemma nblast_neurons_keys (ld : list point -> nat -> point -> point)
    (sl : ScoreMatrixLookup) (nrns_q : nrns_arg) (nrns_t : option nrns_arg)
    (rd : float) (nn : nat) (ms : option Z) (normalize : bool)
    (mp : option float) (asd : bool) (rows : list (string * string * float)) :
  nblast_neurons ld sl nrns_q nrns_t rd nn ms normalize mp asd = Ok rows ->
  exists qs ts,
    side_dotprops ld nrns_q rd nn ms asd = Ok qs
    /\ match nrns_t with
       | Some nrns_t => side_dotprops ld nrns_t rd nn ms asd = Ok ts
       | None => ts = qs
       end
    /\ map fst rows = (q ← map fst qs; t ← map fst ts; [(q, t)]).
Proof.
  unfold nblast_neurons. intros H.
  destruct (side_dotprops ld nrns_q _ _ _ _) as [qs|e] eqn:Hq; [|discriminate].
  cbn -[side_dotprops _nblast_neuron_pair_for_mp] in H.
  assert (exists ts,
            match nrns_t with
            | Some nrns_t => side_dotprops ld nrns_t rd nn ms asd = Ok ts
            | None => ts = qs
            end
            /\ (similarities ← rmap (fun a => _nblast_neuron_pair_for_mp ld a.2)
                  (q ← qs; t ← ts;
                   [(q.1, t.1, (q.2, t.2, sl, rd, nn, normalize, mp))]);
                Ok (zip_with (fun a S => (a.1.1, a.1.2, S))
                      (q ← qs; t ← ts;
                       [(q.1, t.1, (q.2, t.2, sl, rd, nn, normalize, mp))])
                      similarities)) = Ok rows) as (ts & Ht & Hrows).
  { destruct nrns_t as [nt|]; cbn -[side_dotprops _nblast_neuron_pair_for_mp] in H.
    - destruct (side_dotprops ld nt _ _ _ _) as [ts|e] eqn:Ht; [|discriminate].
      by exists ts.
    - by exists qs. }
  exists qs, ts. split; [done|]. split; [done|].
  clear H. destruct (rmap _ _) as [sims|e] eqn:Hs; [|discriminate].
  cbn -[_nblast_neuron_pair_for_mp] in Hrows. injection Hrows as <-.
  apply rmap_length in Hs.
  etrans.
  { apply (zip_with_keys
             (fun (a : string * string * mp_input) (S : float) =>
                (a.1.1, a.1.2, S))
             (fun a => (a.1.1, a.1.2)) _ _ (fun _ _ => eq_refl) Hs). }
  apply pair_args_names.
Qed.

(** X12.  The long frame of [nblast_neurons] on neuron lists has exactly
    one row for every ordered (query, target) pair, query-major in the
    order of the two lists, labelled with [name_number]; without a target
    list the queries are also the targets.  No pair is skipped or merged,
    also when neurons repeat. *)
Theorem nblast_neurons_one_row_per_pair
    (ld : list point -> nat -> point -> point) (score_lookup : ScoreMatrixLookup)
    (nrns_q : list NeuronObj) (nrns_t : option (list NeuronObj))
    (resample_distance : float) (num_nn : nat) (min_strahler : option Z)
    (normalize : bool) (max_proximity : option float)
    (rows : list (string * string * float)) :
  nblast_neurons ld score_lookup (NeuronList nrns_q) (NeuronList <$> nrns_t)
    resample_distance num_nn min_strahler normalize max_proximity false
  = Ok rows ->
  map fst rows
  = (q ← map name_number nrns_q;
     t ← map name_number (default nrns_q nrns_t); [(q, t)]).
Proof.
  intros H. apply nblast_neurons_keys in H as (qs & ts & Hq & Ht & ->).
  apply side_dotprops_names in Hq. rewrite Hq.
  destruct nrns_t as [lt|]; simpl in *.
  - apply side_dotprops_names in Ht. by rewrite Ht.
  - subst ts. by rewrite Hq.
Qed.

Lemma nblast_neurons_one_row_per_pair_witness :
  exists rows,
    nblast_neurons (fun _ _ p => p) Examples.table
      (NeuronList [Examples.short_nrn; Examples.long_nrn]) None
      1000 5 None true None false = Ok rows
    /\ map fst rows
       = (q ← map name_number [Examples.short_nrn; Examples.long_nrn];
          t ← map name_number [Examples.short_nrn; Examples.long_nrn]; [(q, t)]).
Proof.
  eexists. split; [vm_compute; reflexivity|].
  apply (nblast_neurons_one_row_per_pair (fun _ _ p => p) Examples.table
           [Examples.short_nrn; Examples.long_nrn] None 1000 5 None true None).
  vm_compute. reflexivity.
Defined.

(** ** The similarity matrix of [exact_nblast] *)

Lemma elem_of_cells_list (idx cols : list string) (f : string -> string -> float)
    (k : string * string) (v : float) :
  (k, v) ∈ (r ← idx; c ← cols; [((r, c), f r c)])
  <-> k.1 ∈ idx /\ k.2 ∈ cols /\ v = f k.1 k.2.
Proof.
  rewrite list_elem_of_bind. split.
  - intros (r & Hin & Hr). apply list_elem_of_bind in Hin as (c & Hin & Hc).
    apply list_elem_of_singleton in Hin. by inversion Hin; subst.
  - intros (Hr & Hc & ->). exists k.1. split; [|done].
    apply list_elem_of_bind. exists k.2. split; [|done].
    destruct k. by apply list_elem_of_singleton.
Qed.

Lemma cells_lookup_Some (idx cols : list string) (f : string -> string -> float)
    (k : string * string) (v : float) :
  Df.cells idx cols f !! k = Some v
  <-> k.1 ∈ idx /\ k.2 ∈ cols /\ v = f k.1 k.2.
Proof.
  unfold Df.cells. split.
  - intros H. apply elem_of_list_to_map_2 in H. by apply elem_of_cells_list.
  - intros (Hr & Hc & ->).
    destruct (list_to_map _ !! k) as [w|] eqn:Hw.
    + apply elem_of_list_to_map_2, elem_of_cells_list in Hw as (_ & _ & ->).
      done.
    + apply not_elem_of_list_to_map_2 in Hw. exfalso. apply Hw.
      apply list_elem_of_fmap. exists (k, f k.1 k.2). split; [done|].
      by apply elem_of_cells_list.
Qed.

(** X13.  The matrix [exact_nblast] returns is a full table without NaN:
    it has one cell for every pair of a row label and a column label, no
    other cell, and no cell is NaN. *)
Theorem exact_nblast_dense_without_nan
    (ld : list point -> nat -> point -> point)
    (filter_neurons_by_length : nrns_arg -> float -> result nrns_arg)
    (score_lookup : ScoreMatrixLookup) (nrns_q nrns_t : nrns_arg)
    (resample_distance : float) (num_nn : nat) (max_proximity : option float)
    (min_strahler : option Z) (min_length : option float) (as_dotprop : bool)
    (Sb : Df.frame) :
  exact_nblast ld filter_neurons_by_length score_lookup nrns_q nrns_t
    resample_distance num_nn max_proximity min_strahler min_length as_dotprop
  = Ok Sb ->
  dense Sb
  /\ forall k v, Df.data Sb !! k = Some v -> PrimFloat.is_nan v = false.
Proof.
  unfold exact_nblast. intros H.
  destruct (match min_length with
            | Some len => filter_neurons_by_length nrns_q len
            | None => Ok nrns_q
            end) as [q|e]; [|discriminate].
  cbn -[nblast_neurons] in H.
  destruct (match min_length with
            | Some len => filter_neurons_by_length nrns_t len
            | None => Ok nrns_t
            end) as [t|e]; [|discriminate].
  cbn -[nblast_neurons] in H.
  destruct (nblast_neurons ld score_lookup q _ _ _ _ _ _ _) as [Sqt_long|e];
    [|discriminate].
  cbn -[nblast_neurons] in H. destruct (Df.pivot Sqt_long) as [Sqt|e];
    [|discriminate].
  cbn -[nblast_neurons] in H.
  destruct (nblast_neurons ld score_lookup t _ _ _ _ _ _ _) as [Stq_long|e];
    [|discriminate].
  cbn -[nblast_neurons] in H. destruct (Df.pivot _) as [Stq|e]; [|discriminate].
  cbn in H. injection H as <-. split.
  - intros r c. simpl. rewrite !lookup_fmap, !fmap_is_Some.
    unfold is_Some. split.
    + intros [v Hv]. by apply cells_lookup_Some in Hv as (Hr & Hc & _).
    + intros [Hr Hc]. eexists. by apply cells_lookup_Some.
  - intros k v. simpl. rewrite !lookup_fmap.
    destruct (Df.cells _ _ _ !! k) as [x|]; [|discriminate]. simpl.
    intros Hv. injection Hv as <-.
    by destruct (PrimFloat.is_nan (PrimFloat.sqrt x)) eqn:Hn.
Qed.

Lemma exact_nblast_dense_without_nan_witness :
  exists Sb,
    exact_nblast (fun _ _ p => p) (fun nrns _ => Ok nrns) Examples.table
      (NeuronList [Examples.short_nrn]) (NeuronList [Examples.long_nrn])
      1000 5 None None None false = Ok Sb
    /\ dense Sb
    /\ forall k v, Df.data Sb !! k = Some v -> PrimFloat.is_nan v = false.
Proof.
  eexists. split; [vm_compute; reflexivity|].
  apply (exact_nblast_dense_without_nan (fun _ _ p => p) (fun nrns _ => Ok nrns)
           Examples.table (NeuronList [Examples.short_nrn])
           (NeuronList [Examples.long_nrn]) 1000 5 None None None false).
  vm_compute. reflexivity.
Defined.

(** ** Shape of the similarity graph *)

Lemma add_edge_symmetric (u v : string) (w : float) (B : Graph) :
  (forall a b, adj B !! (a, b) = adj B !! (b, a)) ->
  forall a b, adj (add_edge u v w B) !! (a, b) = adj (add_edge u v w B) !! (b, a).
Proof.
  intros HB a b. unfold add_edge. simpl.
  destruct (decide ((v, u) = (a, b))) as [Hab|Hab].
  - injection Hab as <- <-. rewrite lookup_insert_eq.
    destruct (decide ((v, u) = (u, v))) as [Hvu|Hvu].
    + by rewrite <- Hvu, lookup_insert_eq.
    + rewrite lookup_insert_ne by done. by rewrite lookup_insert_eq.
  - rewrite (lookup_insert_ne _ (v, u) (a, b)) by done.
    destruct (decide ((v, u) = (b, a))) as [Hba|Hba].
    + injection Hba as <- <-. rewrite lookup_insert_eq.
      by rewrite lookup_insert_eq.
    + rewrite (lookup_insert_ne _ (v, u) (b, a)) by done.
      destruct (decide ((u, v) = (a, b))) as [Hab'|Hab'].
      * injection Hab' as <- <-. congruence.
      * rewrite lookup_insert_ne by done.
        rewrite lookup_insert_ne by congruence. apply HB.
Qed.

Lemma has_edge_inv (B : Graph) (n : string) :
  has_edge B n = true -> exists v, is_Some (adj B !! (n, v)).
Proof.
  unfold has_edge. intros H. apply bool_decide_eq_true in H.
  apply Exists_exists in H as ([[a b] w] & Hin & Ha). simpl in Ha. subst a.
  apply elem_of_map_to_list in Hin. by exists b, w.
Qed.

(** X14.  The graph built from a similarity matrix is undirected and has
    no isolated node: a weight is stored the same under both orders of its
    end points, and the nodes left are exactly the row and column labels
    that carry an edge. *)
Theorem similarity_graph_shape (Sb : Df.frame) (min_similarity : float)
    (B : Graph) :
  similarity_matrix_to_adjacency Sb min_similarity = Ok B ->
  (forall u v, adj B !! (u, v) = adj B !! (v, u))
  /\ forall n, is_Some (nodes B !! n)
               <-> (n ∈ Df.index Sb \/ n ∈ Df.columns Sb)
                   /\ exists v, is_Some (adj B !! (n, v)).
Proof.
  unfold similarity_matrix_to_adjacency.
  destruct (rfold _ _ _) as [B0|] eqn:H0; simpl; [|discriminate].
  intros H. injection H as <-. simpl. split.
  - revert H0.
    apply (rfold_invariant _
             (fun B => forall u v, adj B !! (u, v) = adj B !! (v, u))).
    + intros u v. simpl. by rewrite !lookup_empty.
    + intros e b b' _ Hb Hstep. unfold edge_step in Hstep.
      destruct (Df.loc Sb e.1 e.2) as [w|]; [|discriminate]. simpl in Hstep.
      injection Hstep as <-.
      destruct (min_similarity <? w); [by apply add_edge_symmetric|done].
  - destruct (edges_spec _ _ _ H0) as (Hn & _ & _).
    intros n. unfold is_Some. setoid_rewrite map_lookup_filter_Some. simpl.
    rewrite Hn, labelled_nodes_lookup. split.
    + intros (b & Hb & He). split; [|by apply has_edge_inv].
      destruct (decide (n ∈ Df.columns Sb)); [by right|].
      destruct (decide (n ∈ Df.index Sb)); [by left|done].
    + intros (Hl & v & Hv). apply has_edge_true in Hv.
      destruct (decide (n ∈ Df.columns Sb)); [by eexists|].
      destruct (decide (n ∈ Df.index Sb)); [by eexists|]. by destruct Hl.
Qed.

Lemma similarity_graph_shape_witness :
  exists B,
    similarity_matrix_to_adjacency Examples.Sb2 Examples.min_similarity_default
    = Ok B
    /\ (forall u v, adj B !! (u, v) = adj B !! (v, u))
    /\ forall n, is_Some (nodes B !! n)
                 <-> (n ∈ Df.index Examples.Sb2 \/ n ∈ Df.columns Examples.Sb2)
                     /\ exists v, is_Some (adj B !! (n, v)).
Proof.
  destruct (adjacency_ok Examples.Sb2 Examples.min_similarity_default
              Sb2_dense) as [B HB].
  exists B. split; [done|].
  by apply (similarity_graph_shape Examples.Sb2 Examples.min_similarity_default).
Defined.

(** ** What the match table reports *)

(** X15.  Every row of the match table reports in [S] the score of the
    matrix that was passed in, read at the row's query and target labels,
    and ids decoded from these two labels.  A forced pair is therefore
    listed with its own score, not with the value forced for the matching.
    This holds for whatever the matcher returns. *)
Theorem match_rows_report_input_scores
    (max_weight_matching : Graph -> list (string * string)) (Sb : Df.frame)
    (min_similarity : float) (enforce_match : option (list (string * string)))
    (enforce_match_val : float) (rows : list match_row) (r : match_row) :
  max_match_similarity max_weight_matching Sb min_similarity enforce_match
    enforce_match_val = Ok rows ->
  r ∈ rows ->
  Df.data Sb !! (Query_name r, Target_name r) = Some (S r)
  /\ name_number_to_id (Query_name r) = Ok (Query_id r)
  /\ name_number_to_id (Target_name r) = Ok (Target_id r).
Proof.
  intros H Hr.
  apply max_match_similarity_unfold in H as (T & B & rows0 & _ & _ & Hrows & ->).
  rewrite sort_by_S_Permutation in Hr.
  destruct (rmap_elem_of _ _ _ _ Hrows Hr) as (m & _ & Hm).
  by apply row_of_match_spec in Hm as (_ & Hcell & Hq & Ht).
Qed.

Lemma match_rows_report_input_scores_witness :
  Df.data Examples.Sb2 !! ("q1 (1)", "t2 (4)")%string = Some 0.875
  /\ name_number_to_id "q1 (1)" = Ok 1%Z
  /\ name_number_to_id "t2 (4)" = Ok 4%Z.
Proof.
  eapply (match_rows_report_input_scores Exhaustive.max_weight_matching
            Examples.Sb2 Examples.min_similarity_default
            (Some [("q1 (1)", "t2 (4)")%string]) 1
            _ (MatchRow 0.875 "q1 (1)" 1 "t2 (4)" 4)).
  - vm_compute. reflexivity.
  - apply list_elem_of_here.
Defined.

(** X16.  When no score of the matrix exceeds the threshold and nothing is
    forced, the match table is empty: the graph has no edge, so a matcher
    that returns edges only returns nothing. *)
Theorem no_score_above_threshold_no_match
    (max_weight_matching : Graph -> list (string * string)) (Sb : Df.frame)
    (min_similarity enforce_match_val : float) :
  (forall B, is_matching_of B (max_weight_matching B)) ->
  dense Sb ->
  (forall k w, Df.data Sb !! k = Some w -> (min_similarity <? w) = false) ->
  max_match_similarity max_weight_matching Sb min_similarity None
    enforce_match_val = Ok [].
Proof.
  intros Hm Hd Hlow. unfold max_match_similarity. simpl.
  destruct (adjacency_ok Sb min_similarity Hd) as [B HB]. rewrite HB. simpl.
  destruct (adjacency_spec _ _ _ HB) as (Hfrom & _ & _).
  assert (adj B = ∅) as Hadj.
  { apply map_empty. intros [u v].
    destruct (adj B !! (u, v)) as [w|] eqn:Hw; [|done]. exfalso.
    destruct (Hfrom u v) as [(x & Hx & Hgt & _)|(x & Hx & Hgt & _)];
      [by eexists| |]; rewrite (Hlow _ _ Hx) in Hgt; discriminate. }
  by rewrite (no_edge_no_row max_weight_matching B (Hm B) Hadj).
Qed.

Lemma no_score_above_threshold_no_match_witness :
  max_match_similarity Exhaustive.max_weight_matching Examples.Sb2 1 None 1
  = Ok [].
Proof.
  apply (no_score_above_threshold_no_match Exhaustive.max_weight_matching
           Examples.Sb2 1 1).
  - apply exhaustive_is_matching.
  - apply Sb2_dense.
  - intros k w Hk. apply elem_of_list_to_map_2 in Hk.
    repeat (apply elem_of_cons in Hk as [Hk|Hk];
            [inversion Hk; subst; reflexivity|]).
    by apply elem_of_nil in Hk.
Defined.

Lemma enforce_unknown_column (val : float) (l : list (string * string))
    (Sb : Df.frame) (f : string * string) :
  f ∈ l -> f.2 ∉ Df.columns Sb ->
  rfold (force_cell val) l Sb = Raise KeyError.
Proof.
  revert Sb. induction l as [|g l IH]; intros Sb Hf Hcol.
  { by apply elem_of_nil in Hf. }
  simpl. destruct (force_cell val Sb g) as [T|e] eqn:Hg.
  - simpl. destruct (force_cell_spec _ _ _ _ Hg) as (_ & Hc & _).
    apply elem_of_cons in Hf as [->|Hf].
    + unfold force_cell in Hg. by rewrite decide_False in Hg.
    + apply IH; [done|]. by rewrite Hc.
  - unfold force_cell in Hg. destruct (decide _); [|by injection Hg as <-].
    by destruct (decide _).
Qed.

(** X17.  A forced pair whose target label is not a column of the matrix
    fails the whole call with [KeyError], wherever it stands in the list
    and whatever the matcher is. *)
Theorem forced_unknown_target_raises
    (max_weight_matching : Graph -> list (string * string)) (Sb : Df.frame)
    (min_similarity enforce_match_val : float)
    (enforce_match : list (string * string)) (f : string * string) :
  f ∈ enforce_match -> f.2 ∉ Df.columns Sb ->
  max_match_similarity max_weight_matching Sb min_similarity
    (Some enforce_match) enforce_match_val = Raise KeyError.
Proof.
  intros Hf Hcol. unfold max_match_similarity. simpl.
  by rewrite (enforce_unknown_column _ _ _ f Hf Hcol).
Qed.

Lemma forced_unknown_target_raises_witness :
  max_match_similarity Exhaustive.max_weight_matching Examples.Sb2
    Examples.min_similarity_default
    (Some [("q1 (1)", "t1 (3)"); ("q2 (2)", "t9 (9)")]%string) 1
  = Raise KeyError.
Proof.
  apply (forced_unknown_target_raises Exhaustive.max_weight_matching
           Examples.Sb2 Examples.min_similarity_default 1
           [("q1 (1)", "t1 (3)"); ("q2 (2)", "t9 (9)")]%string
           ("q2 (2)", "t9 (9)")%string).
  - apply list_elem_of_further, list_elem_of_here.
  - simpl. intros H. repeat (apply elem_of_cons in H as [H|H]; [discriminate|]).
    by apply elem_of_nil in H.
Defined.

(** ** Connectivity log ratios inside the table *)

Lemma np_index_in_range (n i : Z) :
  (0 <= i < n)%Z -> np_index n i = Ok (Z.to_nat i).
Proof.
  intros H. unfold np_index.
  assert ((0 <=? i)%Z = true) as -> by (apply Z.leb_le; lia).
  by assert ((i <? n)%Z = true) as -> by (apply Z.ltb_lt; lia).
Qed.

(** X18.  For two weights inside a rectangular table the log ratio is the
    table entry at these weights, except for two zero weights, which give 0
    without the table being read. *)
Theorem match_prob_conn_log_ratio_in_range (w1 w2 : Z)
    (log_ratio : list (list float)) (n1 : nat) :
  Forall (fun row => length row = n1) log_ratio ->
  (0 <= w1 < Z.of_nat (length log_ratio))%Z ->
  (0 <= w2 < Z.of_nat n1)%Z ->
  exists v,
    (row ← log_ratio !! Z.to_nat w1; row !! Z.to_nat w2) = Some v
    /\ match_prob_conn_log_ratio w1 w2 log_ratio
       = Ok (if (w1 =? 0)%Z && (w2 =? 0)%Z then 0 else v).
Proof.
  intros Hrect H1 H2.
  destruct (lookup_lt_is_Some_2 log_ratio (Z.to_nat w1) ltac:(lia)) as [row Hrow].
  assert (length row = n1) as Hlen.
  { rewrite Forall_forall in Hrect.
    eapply Hrect, list_elem_of_lookup_2, Hrow. }
  destruct (lookup_lt_is_Some_2 row (Z.to_nat w2) ltac:(lia)) as [v Hv].
  exists v. split; [by rewrite Hrow|].
  unfold match_prob_conn_log_ratio, shape0.
  assert (shape1 log_ratio = Ok (Z.of_nat n1)) as Hs.
  { destruct log_ratio as [|r0 l]; [simpl in H1; lia|]. simpl.
    apply Forall_cons in Hrect as [-> _]. done. }
  rewrite Hs. cbn [mbind result_bind].
  assert ((Z.of_nat (length log_ratio) - 1 <? w1)%Z = false) as ->
    by (apply Z.ltb_ge; lia).
  assert ((Z.of_nat n1 - 1 <? w2)%Z = false) as -> by (apply Z.ltb_ge; lia).
  cbn [orb mbind result_bind fst snd].
  destruct (Z.eqb_spec w1 0) as [->|Hw1], (Z.eqb_spec w2 0) as [->|Hw2];
    cbn [andb].
  - done.
  - assert ((0 <? w2)%Z = true) as -> by (apply Z.ltb_lt; lia).
    cbn [orb Z.ltb Z.compare]. unfold np_getitem2, shape0. rewrite Hs.
    cbn [mbind result_bind]. rewrite !np_index_in_range by lia.
    cbn [mbind result_bind]. by rewrite Hrow; simpl; rewrite Hv.
  - assert ((0 <? w1)%Z = true) as -> by (apply Z.ltb_lt; lia).
    cbn [orb]. unfold np_getitem2, shape0. rewrite Hs.
    cbn [mbind result_bind]. rewrite !np_index_in_range by lia.
    cbn [mbind result_bind]. by rewrite Hrow; simpl; rewrite Hv.
  - assert ((0 <? w1)%Z = true) as -> by (apply Z.ltb_lt; lia).
    cbn [orb]. unfold np_getitem2, shape0. rewrite Hs.
    cbn [mbind result_bind]. rewrite !np_index_in_range by lia.
    cbn [mbind result_bind]. by rewrite Hrow; simpl; rewrite Hv.
Qed.

Lemma match_prob_conn_log_ratio_in_range_witness :
  exists v,
    (row ← [[0; 1; 2]; [1; 0; 1]; [2; 1; 0]] !! Z.to_nat 2; row !! Z.to_nat 1)
    = Some v
    /\ match_prob_conn_log_ratio 2 1 [[0; 1; 2]; [1; 0; 1]; [2; 1; 0]]
       = Ok (if (2 =? 0)%Z && (1 =? 0)%Z then 0 else v).
Proof.
  apply (match_prob_conn_log_ratio_in_range 2 1
           [[0; 1; 2]; [1; 0; 1]; [2; 1; 0]] 3).
  - repeat constructor.
  - simpl. lia.
  - lia.
Defined.

Lemma in_range_ok (w1 w2 : Z) (log_ratio : list (list float)) (n1 : nat) :
  Forall (fun row => length row = n1) log_ratio ->
  (0 <= w1 < Z.of_nat (length log_ratio))%Z ->
  (0 <= w2 < Z.of_nat n1)%Z ->
  exists v, match_prob_conn_log_ratio w1 w2 log_ratio = Ok v.
Proof.
  intros Hrect H1 H2.
  destruct (lookup_lt_is_Some_2 log_ratio (Z.to_nat w1) ltac:(lia)) as [row Hrow].
  assert (length row = n1) as Hlen.
  { rewrite Forall_forall in Hrect.
    eapply Hrect, list_elem_of_lookup_2, Hrow. }
  destruct (lookup_lt_is_Some_2 row (Z.to_nat w2) ltac:(lia)) as [v Hv].
  unfold match_prob_conn_log_ratio, shape0.
  assert (shape1 log_ratio = Ok (Z.of_nat n1)) as Hs.
  { destruct log_ratio as [|r0 l]; [simpl in H1; lia|]. simpl.
    apply Forall_cons in Hrect as [-> _]. done. }
  rewrite Hs. cbn [mbind result_bind].
  assert ((Z.of_nat (length log_ratio) - 1 <? w1)%Z = false) as ->
    by (apply Z.ltb_ge; lia).
  assert ((Z.of_nat n1 - 1 <? w2)%Z = false) as -> by (apply Z.ltb_ge; lia).
  cbn [orb mbind result_bind fst snd].
  destruct ((0 <? w1)%Z || (0 <? w2)%Z); [|by eexists].
  unfold np_getitem2, shape0. rewrite Hs.
  cbn [mbind result_bind]. rewrite !np_index_in_range by lia.
  cbn [mbind result_bind]. rewrite Hrow. simpl. rewrite Hv. by eexists.
Qed.

(** X19.  The summed log ratio of two weight vectors exists whenever the
    vectors have the same positive length and every weight is inside the
    rectangular table: in range nothing raises. *)
Theorem conn_log_ratio_sum_in_range (v1 v2 : list Z)
    (log_ratio : list (list float)) (n1 : nat) :
  Forall (fun row => length row = n1) log_ratio ->
  length v1 = length v2 -> v1 <> [] ->
  Forall (fun w => 0 <= w < Z.of_nat (length log_ratio))%Z v1 ->
  Forall (fun w => 0 <= w < Z.of_nat n1)%Z v2 ->
  exists s, conn_log_ratio_sum v1 v2 log_ratio = Ok s.
Proof.
  intros Hrect Hlen Hne H1 H2. unfold conn_log_ratio_sum.
  rewrite Hlen, Nat.eqb_refl. simpl negb. cbv iota.
  destruct (Nat.eqb_spec (length v2) 0) as [H0|_].
  { destruct v1; [done|]. simpl in Hlen. lia. }
  destruct (rmap_ok (fun w : Z * Z => match_prob_conn_log_ratio w.1 w.2 log_ratio)
              (zip v1 v2)) as [rs Hrs].
  - intros [a b] Hab. simpl. apply (in_range_ok a b log_ratio n1 Hrect).
    + rewrite Forall_forall in H1. apply H1.
      apply (elem_of_zip_l _ _ _ _ Hab).
    + rewrite Forall_forall in H2. apply H2.
      apply (elem_of_zip_r _ _ _ _ Hab).
  - rewrite Hrs. by eexists.
Qed.

Lemma conn_log_ratio_sum_in_range_witness :
  exists s,
    conn_log_ratio_sum [0; 2; 1]%Z [0; 1; 1]%Z [[0; 1; 2]; [1; 0; 1]; [2; 1; 0]]
    = Ok s.
Proof.
  apply (conn_log_ratio_sum_in_range [0; 2; 1]%Z [0; 1; 1]%Z
           [[0; 1; 2]; [1; 0; 1]; [2; 1; 0]] 3).
  - repeat constructor.
  - reflexivity.
  - discriminate.
  - repeat constructor; simpl; lia.
  - repeat constructor; lia.
Defined.

(** ** The match report *)

Lemma sort_values_desc_Permutation (s : list (string * float)) :
  sort_values_desc s ≡ₚ s.
Proof.
  unfold sort_values_desc. rewrite merge_sort_Permutation.
  apply (filter_partition (fun e : string * float => PrimFloat.is_nan e.2)).
Qed.

Lemma elem_of_best_matches (Sb : Df.frame) (thr : float) (key c : string)
    (v : float) :
  (c, v) ∈ filter (fun e : string * float => (thr <? e.2) = true)
             (sort_values_desc
                (map (fun c => (c, default nan (Df.data Sb !! (key, c))))
                     (Df.columns Sb)))
  <-> c ∈ Df.columns Sb /\ v = default nan (Df.data Sb !! (key, c))
      /\ (thr <? v) = true.
Proof.
  rewrite list_elem_of_filter, sort_values_desc_Permutation. simpl.
  to_fmap. rewrite list_elem_of_fmap. split.
  - intros (Hv & c' & Heq & Hc). by inversion Heq; subst.
  - intros (Hc & -> & Hv). split; [done|]. by exists c.
Qed.

Lemma report_step_spec (Sb : Df.frame) (thr : float) (m m' : gmap Z report)
    (nrn : NeuronObj) :
  report_step Sb thr m nrn = Ok m' ->
  name_number nrn ∈ Df.index Sb
  /\ exists e, entry_for Sb thr nrn e /\ m' = <[nrn_id nrn := e]> m.
Proof.
  unfold report_step, row_series.
  destruct (decide (name_number nrn ∈ Df.index Sb)) as [Hin|]; [|discriminate].
  cbn [mbind result_bind]. intros H. split; [done|].
  destruct (decide _) as [Hlen|Hlen]; injection H as <-; eexists; (split; [|done]).
  - split; [done|]. intros c Hc.
    destruct (thr <? _) eqn:Hv; [|done]. exfalso.
    apply length_zero_iff_nil in Hlen.
    assert ((c, default nan (Df.data Sb !! (name_number nrn, c)))
            ∈ @nil (string * float)) as Hnil.
    { rewrite <- Hlen. by apply elem_of_best_matches. }
    by apply elem_of_nil in Hnil.
  - split; [|intros c v; apply elem_of_best_matches].
    intros Hnil. by rewrite Hnil in Hlen.
Qed.

(** X20.  In the report every id with an entry is the id of a query neuron
    whose label is a row of the matrix, and the entry describes that row:
    a table of exactly the targets scoring above the threshold, each with
    its score (NaN scores left out), or the message when there is none.
    Ids of no query neuron have no entry. *)
Theorem match_report_entries (nrns_q : list NeuronObj) (Sb : Df.frame)
    (min_similarity : float) (matches : gmap Z report) (id : Z) :
  match_report nrns_q Sb min_similarity = Ok matches ->
  match matches !! id with
  | Some e => exists nrn, nrn ∈ nrns_q /\ nrn_id nrn = id
                          /\ name_number nrn ∈ Df.index Sb
                          /\ entry_for Sb min_similarity nrn e
  | None => id ∉ map nrn_id nrns_q
  end.
Proof.
  unfold match_report.
  assert (forall seen (m : gmap Z report),
            (forall id, match m !! id with
                        | Some e => exists nrn, nrn ∈ seen ++ nrns_q
                                      /\ nrn_id nrn = id
                                      /\ name_number nrn ∈ Df.index Sb
                                      /\ entry_for Sb min_similarity nrn e
                        | None => id ∉ map nrn_id seen
                        end) ->
            rfold (report_step Sb min_similarity) nrns_q m = Ok matches ->
            match matches !! id with
            | Some e => exists nrn, nrn ∈ seen ++ nrns_q /\ nrn_id nrn = id
                                    /\ name_number nrn ∈ Df.index Sb
                                    /\ entry_for Sb min_similarity nrn e
            | None => id ∉ map nrn_id (seen ++ nrns_q)
            end) as Hgen.
  { induction nrns_q as [|n l IH]; intros seen m Hm H; simpl in H.
    - injection H as <-. rewrite app_nil_r in *. apply Hm.
    - destruct (report_step Sb min_similarity m n) as [m'|] eqn:Hstep;
        [|discriminate].
      cbn [mbind result_bind] in H.
      apply report_step_spec in Hstep as (Hin & e & He & ->).
      specialize (IH (seen ++ [n]) (<[nrn_id n := e]> m)).
      rewrite <- !app_assoc in IH. apply IH; [|done].
      intros j. destruct (decide (nrn_id n = j)) as [<-|Hne].
      + rewrite lookup_insert_eq. exists n. split; [|done].
        apply elem_of_app. right. by left.
      + rewrite lookup_insert_ne by done. specialize (Hm j).
        destruct (m !! j) as [e'|].
        * destruct Hm as (nrn & Hn & Hrest). exists nrn. split; [|done].
          apply elem_of_app in Hn as [Hn|Hn]; apply elem_of_app; [by left|].
          right. exact Hn.
        * rewrite map_app, elem_of_app. intros [Hj|Hj]; [done|].
          apply list_elem_of_singleton in Hj. done. }
  intros H. apply (Hgen [] ∅); [|done].
  intros j. rewrite lookup_empty. apply not_elem_of_nil.
Qed.

Lemma match_report_entries_witness :
  exists matches,
    match_report [Examples.straight 1 "q1" 1000] Examples.Sb2
      Examples.min_similarity_default = Ok matches
    /\ match matches !! 1%Z with
       | Some e => exists nrn, nrn ∈ [Examples.straight 1 "q1" 1000]
                               /\ nrn_id nrn = 1%Z
                               /\ name_number nrn ∈ Df.index Examples.Sb2
                               /\ entry_for Examples.Sb2
                                    Examples.min_similarity_default nrn e
       | None => 1%Z ∉ map nrn_id [Examples.straight 1 "q1" 1000]
       end.
Proof.
  eexists. split; [vm_compute; reflexivity|].
  apply (match_report_entries [Examples.straight 1 "q1" 1000] Examples.Sb2
           Examples.min_similarity_default _ 1%Z).
  vm_compute. reflexivity.
Defined.

Lemma report_step_ok (Sb : Df.frame) (thr : float) (m : gmap Z report)
    (nrn : NeuronObj) :
  name_number nrn ∈ Df.index Sb -> exists m', report_step Sb thr m nrn = Ok m'.
Proof.
  intros Hin. unfold report_step, row_series. rewrite decide_True by done.
  cbn [mbind result_bind]. destruct (decide _); by eexists.
Qed.

Lemma report_step_unknown (Sb : Df.frame) (thr : float) (m : gmap Z report)
    (nrn : NeuronObj) :
  name_number nrn ∉ Df.index Sb -> report_step Sb thr m nrn = Raise KeyError.
Proof.
  intros Hin. unfold report_step, row_series. by rewrite decide_False by done.
Qed.

(** X21.  The report exists exactly when the label of every query neuron is
    a row of the matrix; one query neuron without a row fails the whole
    report with [KeyError], whatever the other neurons are. *)
Theorem match_report_needs_every_query_row (nrns_q : list NeuronObj)
    (Sb : Df.frame) (min_similarity : float) :
  if decide (Forall (fun nrn => name_number nrn ∈ Df.index Sb) nrns_q)
  then exists matches, match_report nrns_q Sb min_similarity = Ok matches
  else match_report nrns_q Sb min_similarity = Raise KeyError.
Proof.
  unfold match_report. generalize (∅ : gmap Z report).
  induction nrns_q as [|n l IH]; intros m.
  - rewrite decide_True by constructor. by eexists.
  - simpl rfold.
    destruct (decide (name_number n ∈ Df.index Sb)) as [Hn|Hn].
    + destruct (report_step_ok Sb min_similarity m n Hn) as [m' ->].
      cbn [mbind result_bind]. specialize (IH m').
      destruct (decide (Forall _ l)) as [Hl|Hl].
      * rewrite decide_True by (by constructor). done.
      * rewrite decide_False; [done|]. intros H. by apply Forall_cons in H as [_ H].
    + rewrite (report_step_unknown Sb min_similarity m n Hn).
      rewrite decide_False; [done|]. intros H. by apply Forall_cons in H as [H _].
Qed.

(** ** The fused frame has every pair *)

Lemma filter_no_key {B K : Type} `{EqDecision K} (f : B -> K) (l : list B)
    (k : K) :
  k ∉ map f l -> filter (fun b => f b = k) l = [].
Proof.
  induction l as [|x l IH]; intros Hk; [done|]. simpl in Hk.
  rewrite filter_cons. apply not_elem_of_cons in Hk as [Hx Hk].
  rewrite decide_False by done. by apply IH.
Qed.

Lemma filter_unique_key {B K : Type} `{EqDecision K} (f : B -> K) (l : list B)
    (k : K) :
  NoDup (map f l) -> k ∈ map f l ->
  exists b, filter (fun b => f b = k) l = [b].
Proof.
  induction l as [|x l IH]; intros Hnd Hk; simpl in *.
  { by apply elem_of_nil in Hk. }
  apply NoDup_cons in Hnd as [Hx Hnd]. rewrite filter_cons.
  destruct (decide (f x = k)) as [<-|Hne].
  - exists x. f_equal. by apply filter_no_key.
  - apply elem_of_cons in Hk as [Hk|Hk]; [by subst|]. by apply IH.
Qed.

Lemma merge_keys {A B K C : Type} `{EqDecision K}
    (key_l : A -> K) (key_r : B -> K) (join : A -> B -> C) (key : C -> K)
    (left : list A) (right : list B) :
  NoDup (map key_r right) ->
  (forall a, a ∈ left -> key_l a ∈ map key_r right) ->
  (forall a b, key (join a b) = key_l a) ->
  map key (Df.merge key_l key_r join left right) = map key_l left.
Proof.
  intros Hnd Hin Hkey. unfold Df.merge.
  induction left as [|a left IH]; [done|].
  cbn [mbind list_bind map]. rewrite map_app, IH.
  - destruct (filter_unique_key key_r right (key_l a) Hnd) as [b ->].
    { apply Hin. by left. }
    simpl. by rewrite Hkey.
  - intros x Hx. apply Hin. by right.
Qed.

Lemma cross_NoDup {A B : Type} (l : list A) (k : list B) :
  NoDup l -> NoDup k -> NoDup (a ← l; b ← k; [(a, b)]).
Proof.
  intros Hl Hk. apply NoDup_bind; [| |done].
  - intros a1 a2 y _ _ H1 H2.
    apply list_elem_of_bind in H1 as (b1 & H1 & _).
    apply list_elem_of_bind in H2 as (b2 & H2 & _).
    apply list_elem_of_singleton in H1, H2. congruence.
  - intros a _. apply NoDup_bind; [| |done].
    + intros b1 b2 y _ _ H1 H2. apply list_elem_of_singleton in H1, H2.
      congruence.
    + intros b _. apply NoDup_singleton.
Qed.

Lemma elem_of_cross {A B : Type} (l : list A) (k : list B) (a : A) (b : B) :
  (a, b) ∈ (a ← l; b ← k; [(a, b)]) <-> a ∈ l /\ b ∈ k.
Proof.
  rewrite list_elem_of_bind. split.
  - intros (a' & H & Ha). apply list_elem_of_bind in H as (b' & H & Hb).
    apply list_elem_of_singleton in H. by inversion H; subst.
  - intros [Ha Hb]. exists a. split; [|done]. apply list_elem_of_bind.
    exists b. split; [|done]. by apply list_elem_of_singleton.
Qed.

Lemma name_number_inj_on (l : list NeuronObj) (x y : NeuronObj) :
  NoDup (map nrn_id l) -> Forall (fun n => 0 <= nrn_id n)%Z l ->
  x ∈ l -> y ∈ l -> name_number x = name_number y -> x = y.
Proof.
  intros Hnd Hpos Hx Hy Hxy. rewrite Forall_forall in Hpos.
  apply (NoDup_fmap_inj_on nrn_id l x y Hnd Hx Hy).
  pose proof (name_number_to_id_name_number x (Hpos x Hx)) as Hdx.
  pose proof (name_number_to_id_name_number y (Hpos y Hy)) as Hdy.
  rewrite Hxy in Hdx. congruence.
Qed.

Lemma labels_NoDup (l : list NeuronObj) :
  NoDup (map nrn_id l) -> Forall (fun n => 0 <= nrn_id n)%Z l ->
  NoDup (map name_number l).
Proof.
  intros Hnd Hpos. apply NoDup_fmap_2_strong.
  - intros x y. by apply name_number_inj_on.
  - by apply NoDup_fmap_1 in Hnd.
Qed.

Lemma neuron_by_id_unique (l : list NeuronObj) (n : NeuronObj) :
  NoDup (map nrn_id l) -> n ∈ l -> neuron_by_id l (nrn_id n) = Ok n.
Proof.
  intros Hnd Hn. unfold neuron_by_id.
  destruct (list_find _ l) as [[i n']|] eqn:Hf; simpl.
  - apply list_find_Some in Hf as (Hi & Hid & _). f_equal.
    apply (NoDup_fmap_inj_on nrn_id l n' n Hnd); [|done|done].
    by eapply list_elem_of_lookup_2.
  - apply list_find_None in Hf. rewrite Forall_forall in Hf.
    by destruct (Hf n Hn).
Qed.

Lemma soma_distance_keys (lq lt : list NeuronObj) :
  map (fun d => (ds_Queries d, ds_Targets d)) (soma_distance lq (Some lt))
  = (q ← map name_number lq; t ← map name_number lt; [(q, t)]).
Proof.
  unfold soma_distance. simpl default.
  induction lq as [|q lq IH]; [done|].
  cbn [mbind list_bind map]. rewrite map_app, IH. f_equal.
  clear IH. induction lt as [|t lt IH]; [done|].
  cbn [mbind list_bind map app]. simpl. f_equal. apply IH.
Qed.

Lemma cross_map {A B A' B' K : Type} (fa : A -> A') (fb : B -> B')
    (h : A' * B' -> K) (g : A -> B -> K) (l : list A) (k : list B) :
  (forall a b, a ∈ l -> b ∈ k -> h (fa a, fb b) = g a b) ->
  map h (a ← map fa l; b ← map fb k; [(a, b)])
  = (a ← l; b ← k; [g a b]).
Proof.
  intros Hh. induction l as [|a l IH]; [done|].
  cbn [mbind list_bind map]. rewrite map_app, IH.
  - f_equal. assert (forall b, b ∈ k -> h (fa a, fb b) = g a b) as Ha.
    { intros b Hb. apply Hh; [by left|done]. }
    clear IH Hh. induction k as [|b k IH]; [done|].
    cbn [mbind list_bind map app]. simpl. rewrite Ha by (by left).
    f_equal. apply IH. intros b' Hb'. apply Ha. by right.
  - intros a' b' Ha' Hb'. apply Hh; [by right|done].
Qed.

Lemma rmap_project_in {A B C : Type} (f : A -> result B) (g : B -> C)
    (h : A -> C) (l : list A) (ys : list B) :
  (forall x y, x ∈ l -> f x = Ok y -> g y = h x) ->
  rmap f l = Ok ys -> map g ys = map h l.
Proof.
  revert ys. induction l as [|x l IH]; intros ys Hf H; simpl in H.
  - by injection H as <-.
  - destruct (f x) as [y|e] eqn:Hy; [|discriminate]. simpl in H.
    destruct (rmap f l) as [ys'|e]; [|discriminate]. simpl in H.
    injection H as <-. simpl. rewrite (Hf x y) by (done || by left).
    f_equal. apply IH; [|done]. intros x' y' Hx'. apply Hf. by right.
Qed.

Lemma paired_connectivity_prob_keys (pair_map_t : Type)
    (pcv : list NeuronObj -> pair_map_t -> bool -> bool ->
           result (gmap Z (list Z) * gmap Z (list Z)))
    (lq lt : list NeuronObj) (pm : pair_map_t) (log_ratio : list (list float))
    (is_mirrored : bool) (P_con : list conn_row) :
  NoDup (map nrn_id lq) -> NoDup (map nrn_id lt) ->
  paired_connectivity_prob pair_map_t pcv lq lt pm log_ratio is_mirrored
  = Ok P_con ->
  map (fun c => (pc_Queries c, pc_Targets c)) P_con
  = (q ← map name_number lq; t ← map name_number lt; [(q, t)]).
Proof.
  intros Hq Ht. unfold paired_connectivity_prob. intros H.
  destruct (pcv lq pm false false) as [pv_q|e]; [|discriminate].
  cbn [mbind result_bind] in H.
  destruct (pcv lt pm is_mirrored false) as [pv_t|e]; [|discriminate].
  cbn [mbind result_bind] in H.
  etrans.
  { eapply (rmap_project_in _ _
              (fun qt : Z * Z =>
                 (match neuron_by_id lq qt.1 with
                  | Ok n => name_number n | Raise _ => String.EmptyString end,
                  match neuron_by_id lt qt.2 with
                  | Ok n => name_number n | Raise _ => String.EmptyString end)));
      [|exact H].
    intros [qid tid] c _ Hc. simpl in Hc. cbn [fst snd].
    destruct (neuron_by_id lq qid) as [nq|e]; [|discriminate].
    destruct (neuron_by_id lt tid) as [nt|e]; [|discriminate].
    cbn [mbind result_bind] in Hc.
    repeat match type of Hc with
           | (?m ≫= _) = _ => destruct m; [|discriminate];
                               cbn [mbind result_bind] in Hc
           end.
    by injection Hc as <-. }
  rewrite (cross_map nrn_id nrn_id _
             (fun q t => (name_number q, name_number t))).
  - rewrite <- (cross_map name_number name_number id
                  (fun q t => (name_number q, name_number t))) by done.
    apply map_id.
  - intros q t Hq' Ht'. simpl.
    by rewrite (neuron_by_id_unique lq q Hq Hq'),
               (neuron_by_id_unique lt t Ht Ht').
Qed.

Lemma zip_with_project {A B C K : Type} (f : A -> B -> C) (g : C -> K)
    (key : A -> K) (l : list A) (k : list B) :
  (forall a b, g (f a b) = key a) -> length k = length l ->
  map g (zip_with f l k) = map key l.
Proof.
  intros Hf. revert k. induction l as [|a l IH]; intros [|b k] Hlen; try done.
  simpl. rewrite Hf. f_equal. apply IH. simpl in Hlen. lia.
Qed.

Lemma match_prob_morpho_length
    (gamma_pdf : float -> list float -> float) (np_exp np_log2 : float -> float)
    (S d out : list float) (morpho_stats : morpho_stats_t) :
  match_prob_morpho_log_ratio gamma_pdf np_exp np_log2 S d morpho_stats = Ok out ->
  length out = Nat.min (length S) (length d).
Proof.
  unfold match_prob_morpho_log_ratio. intros H.
  destruct (rmap _ S) as [Sprob|e] eqn:HS; [|discriminate].
  cbn [mbind result_bind] in H.
  destruct (rmap _ d) as [dprob|e] eqn:Hd; [|discriminate].
  cbn [mbind result_bind] in H. injection H as <-.
  apply rmap_length in HS, Hd.
  by rewrite length_zip_with, length_map, HS, Hd.
Qed.

Lemma fuse_keys
    (gamma_pdf : float -> list float -> float) (np_exp np_log2 : float -> float)
    (Sqt_rows Stq_rows : list (string * string * float))
    (Ds : list dist_row) (P_con : list conn_row) (morpho_stats : morpho_stats_t)
    (Stot : list fused_row) :
  fuse gamma_pdf np_exp np_log2 Sqt_rows Stq_rows Ds P_con morpho_stats
  = Ok Stot ->
  map (fun r => (Queries r, Targets r)) Stot
  = map (fun r : string * string * float * float * float * float * float * float =>
           (r.1.1.1.1.1.1.1, r.1.1.1.1.1.1.2))
        (merge_conn (merge_soma (merge_directions Sqt_rows Stq_rows) Ds) P_con).
Proof.
  unfold fuse. intros H.
  destruct (match_prob_morpho_log_ratio _ _ _ _ _ _) as [pm|e] eqn:Hpm;
    [|discriminate].
  cbn [mbind result_bind] in H. injection H as <-.
  apply match_prob_morpho_length in Hpm. rewrite !length_map in Hpm.
  apply zip_with_project; [|lia].
  by intros [[[[[[[q t] sqt] stq] sbid] sd] pre] post] b.
Qed.

Lemma joined_keys (Sqt_rows Stq_rows : list (string * string * float))
    (Ds : list dist_row) (P_con : list conn_row) (Lq Lt : list string) :
  NoDup Lq -> NoDup Lt ->
  map fst Sqt_rows = (q ← Lq; t ← Lt; [(q, t)]) ->
  map fst Stq_rows = (t ← Lt; q ← Lq; [(t, q)]) ->
  map (fun d => (ds_Queries d, ds_Targets d)) Ds = (q ← Lq; t ← Lt; [(q, t)]) ->
  map (fun c => (pc_Queries c, pc_Targets c)) P_con
  = (q ← Lq; t ← Lt; [(q, t)]) ->
  map (fun r : string * string * float * float * float * float * float * float =>
         (r.1.1.1.1.1.1.1, r.1.1.1.1.1.1.2))
      (merge_conn (merge_soma (merge_directions Sqt_rows Stq_rows) Ds) P_con)
  = (q ← Lq; t ← Lt; [(q, t)]).
Proof.
  intros HLq HLt Hqt Htq HDs HP.
  assert (NoDup (q ← Lq; t ← Lt; [(q, t)])) as Hnd by by apply cross_NoDup.
  assert (map (fun a : string * string * float * float * float =>
                 (a.1.1.1.1, a.1.1.1.2))
              (merge_directions Sqt_rows Stq_rows)
          = (q ← Lq; t ← Lt; [(q, t)])) as H1.
  { etrans; [|exact Hqt]. unfold merge_directions. apply merge_keys.
    - replace (map _ Stq_rows)
        with (map (fun p : string * string => (p.2, p.1)) (map fst Stq_rows))
        by by rewrite map_map.
      rewrite Htq. apply NoDup_fmap_2; [|by apply cross_NoDup].
      intros [a b] [c d] Heq. simpl in Heq. congruence.
    - intros [[q t] s] Ha. simpl.
      assert ((q, t) ∈ map fst Sqt_rows) as Hin.
      { to_fmap. apply list_elem_of_fmap. by exists (q, t, s). }
      rewrite Hqt in Hin. apply elem_of_cross in Hin as [Hq Ht].
      replace (map _ Stq_rows)
        with (map (fun p : string * string => (p.2, p.1)) (map fst Stq_rows))
        by by rewrite map_map.
      rewrite Htq. to_fmap. apply list_elem_of_fmap. exists (t, q).
      split; [done|]. by apply elem_of_cross.
    - by intros [[q t] s] b. }
  assert (map (fun a : string * string * float * float * float * float =>
                 (a.1.1.1.1.1, a.1.1.1.1.2))
              (merge_soma (merge_directions Sqt_rows Stq_rows) Ds)
          = (q ← Lq; t ← Lt; [(q, t)])) as H2.
  { etrans; [|exact H1]. unfold merge_soma. apply merge_keys.
    - by rewrite HDs.
    - intros a Ha. rewrite HDs, <- H1. to_fmap.
      apply list_elem_of_fmap. by exists a.
    - done. }
  etrans; [|exact H2]. unfold merge_conn. apply merge_keys.
  - by rewrite HP.
  - intros a Ha. rewrite HP, <- H2. to_fmap.
    apply list_elem_of_fmap. by exists a.
  - done.
Qed.

Lemma clip_S_keys (rows : list (string * string * float)) :
  map fst (clip_S rows) = map fst rows.
Proof. unfold clip_S. rewrite map_map. done. Qed.

(** X22.  When the ids within each of the two neuron lists are distinct and
    not negative, the fused frame of [match_likelihood_ratio] has exactly
    one row for every (query, target) pair, query-major in list order: the
    three inner joins drop and repeat nothing. *)
Theorem match_likelihood_ratio_one_row_per_pair
    (ld : list point -> nat -> point -> point)
    (filter_neurons_by_length : nrns_arg -> float -> result nrns_arg)
    (gamma_pdf : float -> list float -> float) (np_exp np_log2 : float -> float)
    (pair_map_t : Type)
    (paired_connectivity_vector :
       list NeuronObj -> pair_map_t -> bool -> bool ->
       result (gmap Z (list Z) * gmap Z (list Z)))
    (nrns_q nrns_t : list NeuronObj) (pair_map : pair_map_t)
    (log_ratio : list (list float)) (morpho_stats : morpho_stats_t)
    (nblast_score_mat : ScoreMatrixLookup) (resample_distance : float)
    (is_mirrored : bool) (Stot : list fused_row) :
  match_likelihood_ratio ld filter_neurons_by_length gamma_pdf np_exp np_log2
    pair_map_t paired_connectivity_vector (NeuronList nrns_q)
    (NeuronList nrns_t) pair_map log_ratio morpho_stats nblast_score_mat None
    resample_distance is_mirrored = Ok Stot ->
  NoDup (map nrn_id nrns_q) -> NoDup (map nrn_id nrns_t) ->
  Forall (fun n => 0 <= nrn_id n)%Z nrns_q ->
  Forall (fun n => 0 <= nrn_id n)%Z nrns_t ->
  map (fun r => (Queries r, Targets r)) Stot
  = (q ← map name_number nrns_q; t ← map name_number nrns_t; [(q, t)]).
Proof.
  intros H Hq Ht Hpq Hpt. unfold match_likelihood_ratio in H.
  cbn -[nblast_neurons fuse paired_connectivity_prob soma_distance] in H.
  destruct (nblast_neurons ld _ (NeuronList nrns_q) _ _ _ _ _ _ _)
    as [Sqt_rows|e] eqn:Hqt; [|discriminate].
  cbn -[nblast_neurons fuse paired_connectivity_prob soma_distance] in H.
  destruct (nblast_neurons ld _ (NeuronList nrns_t) _ _ _ _ _ _ _)
    as [Stq_rows|e] eqn:Htq; [|discriminate].
  cbn -[nblast_neurons fuse paired_connectivity_prob soma_distance] in H.
  destruct (paired_connectivity_prob _ _ _ _ _ _ _) as [P_con|e] eqn:HP;
    [|discriminate].
  cbn -[nblast_neurons fuse paired_connectivity_prob soma_distance] in H.
  apply fuse_keys in H. rewrite H.
  apply nblast_neurons_keys in Hqt as (qs & ts & Hqs & Hts & Hqt).
  apply side_dotprops_names in Hqs, Hts. rewrite Hqs, Hts in Hqt.
  apply nblast_neurons_keys in Htq as (ts' & qs' & Hts' & Hqs' & Htq).
  apply side_dotprops_names in Hqs', Hts'. rewrite Hqs', Hts' in Htq.
  apply joined_keys.
  - by apply labels_NoDup.
  - by apply labels_NoDup.
  - by rewrite clip_S_keys.
  - by rewrite clip_S_keys.
  - apply soma_distance_keys.
  - by apply (paired_connectivity_prob_keys _ _ _ _ _ _ _ _ Hq Ht HP).
Qed.

Lemma match_likelihood_ratio_one_row_per_pair_witness :
  exists Stot,
    match_likelihood_ratio (fun _ _ p => p) (fun nrns _ => Ok nrns)
      Examples.gamma_pdf_at Examples.exp_at Examples.log2_at unit
      (fun nrns _ _ _ =>
         let v : gmap Z (list Z) :=
           list_to_map (map (fun n => (nrn_id n, [0%Z])) nrns) in
         Ok (v, v))
      (NeuronList [Examples.short_nrn; Examples.long_nrn])
      (NeuronList [Examples.long_nrn]) tt [[0]] Examples.stats Examples.table
      None 1000 true = Ok Stot
    /\ map (fun r => (Queries r, Targets r)) Stot
       = (q ← map name_number [Examples.short_nrn; Examples.long_nrn];
          t ← map name_number [Examples.long_nrn]; [(q, t)]).
Proof.
  eexists. split; [vm_compute; reflexivity|].
  apply (match_likelihood_ratio_one_row_per_pair (fun _ _ p => p)
           (fun nrns _ => Ok nrns)
           Examples.gamma_pdf_at Examples.exp_at Examples.log2_at unit
           (fun nrns _ _ _ =>
              let v : gmap Z (list Z) :=
                list_to_map (map (fun n => (nrn_id n, [0%Z])) nrns) in
              Ok (v, v))
           [Examples.short_nrn; Examples.long_nrn] [Examples.long_nrn]
           tt [[0]] Examples.stats Examples.table 1000 true).
  - vm_compute. reflexivity.
  - apply (bool_decide_unpack _). vm_compute. exact I.
  - apply (bool_decide_unpack _). vm_compute. exact I.
  - repeat constructor; done.
  - repeat constructor; done.
Defined.

(** ** The worker on a well-formed table *)





(** ** Connectivity vectors *)

Lemma np_index_lt (n i : Z) (i' : nat) :
  np_index n i = Ok i' -> (Z.of_nat i' < n)%Z.
Proof.
  unfold np_index.
  destruct ((0 <=? i)%Z && (i <? n)%Z) eqn:H1.
  - apply andb_true_iff in H1 as [H0 H1]. apply Z.leb_le in H0.
    apply Z.ltb_lt in H1. intros H. injection H as <-. lia.
  - destruct ((- n <=? i)%Z && (i <? 0)%Z) eqn:H2; [|discriminate].
    apply andb_true_iff in H2 as [H0 H2]. apply Z.leb_le in H0.
    apply Z.ltb_lt in H2. intros H. injection H as <-. lia.
Qed.

Lemma fill_spec (pair_map : pair_map_dict) (partners : gmap Z Z)
    (l : list Z) (vec0 vec : list Z) :
  rfold (fill_partner pair_map partners) l vec0 = Ok vec ->
  length vec = length vec0
  /\ (forall i, (exists pid, pid ∈ l /\ written pair_map partners vec i pid)
                \/ vec !! i = vec0 !! i)
  /\ ((forall p q a b, p ∈ l -> q ∈ l ->
         skid_to_ind pair_map !! p = Some a ->
         skid_to_ind pair_map !! q = Some b ->
         np_index (Z.of_nat (length vec0)) a
         = np_index (Z.of_nat (length vec0)) b -> p = q) ->
      NoDup l ->
      forall pid, pid ∈ l -> exists i, written pair_map partners vec i pid).
Proof.
  revert vec0. induction l as [|pid l IH]; intros vec0 H; simpl in H.
  { injection H as <-. split; [done|]. split; [by right|].
    intros _ _ p Hp. by apply elem_of_nil in Hp. }
  destruct (fill_partner pair_map partners vec0 pid) as [vec1|e] eqn:Hfill;
    [|discriminate].
  cbn [mbind result_bind] in H.
  destruct (IH vec1 H) as (Hlen & Hany & Hall). clear IH.
  unfold fill_partner, np_setitem in Hfill.
  destruct (skid_to_ind pair_map !! pid) as [ind|] eqn:Hind; [|discriminate].
  destruct (partners !! pid) as [w|] eqn:Hw; [|discriminate].
  cbn [of_option mbind result_bind] in Hfill.
  destruct (np_index _ ind) as [i0|e] eqn:Hi0; [|discriminate].
  cbn [mbind result_bind] in Hfill. injection Hfill as <-.
  rewrite length_insert in Hlen, Hall.
  split; [done|]. split.
  - intros i. destruct (Hany i) as [(p & Hp & Hwr)|Hsame].
    + left. exists p. split; [by right|done].
    + destruct (decide (i = i0)) as [->|Hne].
      * left. exists pid. split; [by left|]. exists ind, w.
        rewrite Hlen. repeat split; try done.
        rewrite Hsame. apply list_lookup_insert_eq.
        apply np_index_lt in Hi0. lia.
      * right. rewrite Hsame. by apply list_lookup_insert_ne.
  - intros Hinj Hnd p Hp. apply NoDup_cons in Hnd as [Hpid Hnd].
    apply elem_of_cons in Hp as [->|Hp].
    + exists i0. destruct (Hany i0) as [(q & Hq & Hwr)|Hsame].
      * exfalso. destruct Hwr as (b & _ & Hb & _ & Hib & _).
        rewrite Hlen in Hib. apply Hpid.
        rewrite (Hinj pid q ind b); [done|by left|by right|done|done|].
        by rewrite Hi0, Hib.
      * exists ind, w. rewrite Hlen. repeat split; try done.
        rewrite Hsame. apply list_lookup_insert_eq.
        apply np_index_lt in Hi0. lia.
    + apply Hall; [|done|done].
      intros p' q' a b Hp' Hq'. apply Hinj; by right.
Qed.

Lemma partner_vector_counts (set_order : list Z -> list Z)
    (pair_map : pair_map_dict) (partners : gmap Z Z) (vec : list Z) :
  (forall l, NoDup l -> set_order l ≡ₚ l) ->
  partner_vector set_order pair_map partners false = Ok vec ->
  counts_vector pair_map partners vec.
Proof.
  intros Hperm. unfold partner_vector.
  set (pair_ids := (map_to_list (skid_to_ind pair_map)).*1).
  set (common := filter (fun pid => is_Some (partners !! pid)) pair_ids).
  intros H.
  destruct (rfold _ (set_order common) _) as [v|e] eqn:Hfold; [|discriminate].
  cbn [mbind result_bind] in H. injection H as <-.
  assert (NoDup common) as Hnd.
  { apply NoDup_filter, NoDup_fst_map_to_list. }
  assert (length pair_ids = size (skid_to_ind pair_map)) as Hsize.
  { unfold pair_ids. by rewrite length_fmap, length_map_to_list. }
  destruct (fill_spec _ _ _ _ _ Hfold) as (Hlen & Hany & Hall).
  rewrite length_replicate in Hlen, Hall. rewrite Hsize in Hlen, Hall.
  split; [done|]. split.
  - intros i w Hi Hw. destruct (Hany i) as [(pid & _ & Hwr)|Hsame]; [by exists pid|].
    rewrite Hsame in Hi. apply lookup_replicate in Hi as [-> _]. done.
  - intros Hinj pid ind w Hind Hpw. apply Hall.
    + intros p q a b _ _. apply Hinj.
    + by rewrite (Hperm common Hnd).
    + rewrite (Hperm common Hnd). apply list_elem_of_filter. split; [by eexists|].
      apply list_elem_of_fmap. exists (pid, ind). split; [done|].
      by apply elem_of_map_to_list.
Qed.

Lemma partner_vectors_lookup (set_order : list Z -> list Z)
    (pair_map : pair_map_dict) (is_mirrored : bool)
    (l : list (Z * gmap Z Z)) (m0 vecs : gmap Z (list Z)) (skid : Z)
    (partners : gmap Z Z) :
  NoDup l.*1 ->
  rfold (fun vecs sp =>
           v ← partner_vector set_order pair_map sp.2 is_mirrored;
           Ok (<[sp.1 := v]> vecs)) l m0 = Ok vecs ->
  (skid, partners) ∈ l ->
  exists v, partner_vector set_order pair_map partners is_mirrored = Ok v
            /\ vecs !! skid = Some v.
Proof.
  revert m0. induction l as [|[k p] l IH]; intros m0 Hnd H Hin.
  { by apply elem_of_nil in Hin. }
  simpl in H. rewrite fmap_cons in Hnd. apply NoDup_cons in Hnd as [Hk Hnd].
  destruct (partner_vector set_order pair_map p is_mirrored) as [v|e] eqn:Hv;
    [|discriminate].
  cbn [mbind result_bind] in H.
  apply elem_of_cons in Hin as [Heq|Hin]; [|by eapply IH].
  injection Heq as -> ->. exists v. split; [done|].
  clear IH Hv. revert H.
  apply (rfold_invariant _ (fun m => m !! k = Some v)).
  - apply lookup_insert_eq.
  - intros [k' p'] b b' Hk' Hb Hstep. simpl in Hstep.
    destruct (partner_vector _ _ p' _) as [v'|e]; [|discriminate].
    cbn [mbind result_bind] in Hstep. injection Hstep as <-.
    rewrite lookup_insert_ne; [done|]. intros ->. apply Hk.
    apply list_elem_of_fmap. by exists (k, p').
Qed.

(** X24.  The unmirrored connectivity vectors: every neuron that the
    connectivity source reports, as a receiver or as a sender, gets a
    vector with one entry per paired skeleton, in which every entry that is
    not zero is the synapse count of a paired partner at the position the
    pair map gives that partner; when no two skeletons share a position
    every paired partner's count is in the vector.  Partners outside the
    pair map leave no trace. *)
Theorem connectivity_vectors_hold_paired_counts
    (set_order : list Z -> list Z) (conn_sk : connected_skeletons)
    (pair_map : pair_map_dict) (conn_vecs_in conn_vecs_out : gmap Z (list Z)) :
  (forall l, NoDup l -> set_order l ≡ₚ l) ->
  connectivity_vectors set_order conn_sk pair_map false
  = Ok (conn_vecs_in, conn_vecs_out) ->
  (forall skid partners, presynaptic conn_sk !! skid = Some partners ->
     exists vec, conn_vecs_in !! skid = Some vec
                 /\ counts_vector pair_map partners vec)
  /\ (forall skid partners, postsynaptic conn_sk !! skid = Some partners ->
        exists vec, conn_vecs_out !! skid = Some vec
                    /\ counts_vector pair_map partners vec).
Proof.
  intros Hperm. unfold connectivity_vectors, partner_vectors. intros H.
  destruct (rfold _ (map_to_list (presynaptic conn_sk)) ∅) as [vin|e] eqn:Hin;
    [|discriminate].
  cbn [mbind result_bind] in H.
  destruct (rfold _ (map_to_list (postsynaptic conn_sk)) ∅) as [vout|e] eqn:Hout;
    [|discriminate].
  cbn [mbind result_bind] in H. injection H as <- <-. split.
  - intros skid partners Hs.
    destruct (partner_vectors_lookup _ _ _ _ _ _ skid partners
                (NoDup_fst_map_to_list _) Hin) as (v & Hv & Hlook).
    { by apply elem_of_map_to_list. }
    exists v. split; [done|]. by eapply partner_vector_counts.
  - intros skid partners Hs.
    destruct (partner_vectors_lookup _ _ _ _ _ _ skid partners
                (NoDup_fst_map_to_list _) Hout) as (v & Hv & Hlook).
    { by apply elem_of_map_to_list. }
    exists v. split; [done|]. by eapply partner_vector_counts.
Qed.

Lemma connectivity_vectors_hold_paired_counts_witness :
  exists conn_vecs_in conn_vecs_out,
    connectivity_vectors (fun l => l) Examples.synapses Examples.pairs false
    = Ok (conn_vecs_in, conn_vecs_out)
    /\ conn_vecs_in !! 1%Z = Some [0; 3]%Z
    /\ (forall skid partners,
          presynaptic Examples.synapses !! skid = Some partners ->
          exists vec, conn_vecs_in !! skid = Some vec
                      /\ counts_vector Examples.pairs partners vec)
    /\ (forall skid partners,
          postsynaptic Examples.synapses !! skid = Some partners ->
          exists vec, conn_vecs_out !! skid = Some vec
                      /\ counts_vector Examples.pairs partners vec).
Proof.
  eexists. eexists. split; [vm_compute; reflexivity|].
  split; [vm_compute; reflexivity|].
  apply (connectivity_vectors_hold_paired_counts (fun l => l)
           Examples.synapses Examples.pairs).
  - intros l _. reflexivity.
  - vm_compute. reflexivity.
Defined.
